(** * CredLink Python SDK: the transport layer

    A shallow embedding of [sdk/python/src/credlink/transport.py] and of the
    error classes of [sdk/python/src/credlink/types.py]:

    - the error taxonomy ([CredLinkError] and its six subclasses);
    - the circuit breaker ([CircuitBreaker]);
    - the retry handler with its backoff computation ([RetryHandler]);
    - the HTTP transport: error classification, retry predicate, request
      timeouts and the line-delimited JSON iterator ([HttpTransport]).

    Conventions of the embedding.

    - Python [int] is [Z]; Python [float] (seconds returned by [time.time()],
      delays handed to [asyncio.sleep]) is idealised as the rationals [Q]:
      comparisons, [min], sums and products are the exact ones.
    - Exception objects live in a heap (a list addressed by position), because
      the retry handler mutates the exception it caught.  [raise] and [except]
      pass references into that heap.
    - [time.time()] and [random.random()] are oracles: the k-th call of each
      returns the k-th value of a stream; the counters are part of the state.
    - [await] points are sequential composition: interleavings of other
      coroutines are not modelled.
    - A text whose characters the code inspects is a sequence of Unicode
      code points; [str.strip] and [str.splitlines] are those of the
      interpreter.  A streamed body is taken as received in full and
      decoded. *)

From Stdlib Require Import ZArith QArith Qminmax Qpower Lia Lqa Bool.
From Stdlib Require Import Strings.String Strings.Ascii DecimalString.
From stdpp Require Import base list strings gmap.

Local Open Scope Z_scope.

(* ================================================================== *)
(** * types.py *)
(* ================================================================== *)

Module Types.

(** ** Configuration types *)

Record RetryConfig := {
  max_attempts : Z;
  base_ms : Z;
  max_ms : Z;
  jitter : bool
}.

(** The [Field(..., ge=, le=)] constraints that pydantic enforces when a
    [RetryConfig] is built. *)
Definition RetryConfig_valid (c : RetryConfig) : Prop :=
  1 <= max_attempts c <= 10 /\
  100 <= base_ms c <= 5000 /\
  1000 <= max_ms c <= 60000.

(** [RetryConfig()] with every field at its default. *)
Definition RetryConfig_default : RetryConfig :=
  {| max_attempts := 5; base_ms := 250; max_ms := 5000; jitter := true |}.

Module RequestOptions.
Record t := {
  timeout : option Z;
  idempotency_key : option string;
  headers : option (gmap string string);
  retries : option RetryConfig
}.
End RequestOptions.

(** ** Error types *)

(** The concrete class of a [CredLinkError] instance. *)
Inductive ErrorClass :=
| AuthError
| RateLimitError
| ConflictError
| ValidationError
| ServerError
| NetworkError.

Definition ErrorClass_eqb (a b : ErrorClass) : bool :=
  match a, b with
  | AuthError, AuthError
  | RateLimitError, RateLimitError
  | ConflictError, ConflictError
  | ValidationError, ValidationError
  | ServerError, ServerError
  | NetworkError, NetworkError => true
  | _, _ => false
  end.

(** The attributes set by [CredLinkError.__init__] (the [timestamp], read from
    the wall clock, is left out), together with the two attributes that
    [RateLimitError.__init__] adds. *)
Module CredLinkError.
Record t := {
  cls : ErrorClass;
  message : string;
  code : string;
  status_code : Z;
  request_id : option string;
  idempotency_key : option string;
  endpoint : option string;
  hint : option string;
  docs_url : option string;
  retry_after : option Z;
  attempt_count : option Z
}.

Definition set_attempt_count (n : option Z) (e : t) : t :=
  {| cls := cls e; message := message e; code := code e;
     status_code := status_code e; request_id := request_id e;
     idempotency_key := idempotency_key e; endpoint := endpoint e;
     hint := hint e; docs_url := docs_url e;
     retry_after := retry_after e; attempt_count := n |}.
End CredLinkError.

(** The keyword arguments the subclasses forward as [**kwargs].  [kw_hint] is
    [None] when the key is absent (then [kwargs.pop('hint', default)] yields
    the default) and [Some h] when the caller passed [hint=h], [h] possibly
    being Python's [None]. *)
Record Kwargs := {
  kw_request_id : option string;
  kw_idempotency_key : option string;
  kw_endpoint : option string;
  kw_hint : option (option string)
}.

Definition no_kwargs : Kwargs :=
  {| kw_request_id := None; kw_idempotency_key := None;
     kw_endpoint := None; kw_hint := None |}.

Definition pop_hint (kwargs : Kwargs) (default : string) : option string :=
  match kw_hint kwargs with
  | Some h => h
  | None => Some default
  end.

Definition CredLinkError_init (c : ErrorClass) (message code : string)
    (status_code : Z) (hint : option string) (docs_url : string)
    (kwargs : Kwargs) : CredLinkError.t :=
  {| CredLinkError.cls := c;
     CredLinkError.message := message;
     CredLinkError.code := code;
     CredLinkError.status_code := status_code;
     CredLinkError.request_id := kw_request_id kwargs;
     CredLinkError.idempotency_key := kw_idempotency_key kwargs;
     CredLinkError.endpoint := kw_endpoint kwargs;
     CredLinkError.hint := hint;
     CredLinkError.docs_url := Some docs_url;
     CredLinkError.retry_after := None;
     CredLinkError.attempt_count := None |}.

Definition AuthError_init (message : string) (kwargs : Kwargs) : CredLinkError.t :=
  CredLinkError_init AuthError message "AUTH_ERROR" 401
    (pop_hint kwargs "Check your API key in the X-API-Key header")
    "https://docs.credlink.com/api/errors#auth_error" kwargs.

Definition RateLimitError_init (message : string)
    (retry_after attempt_count : option Z) (kwargs : Kwargs) : CredLinkError.t :=
  let e := CredLinkError_init RateLimitError message "RATE_LIMIT_ERROR" 429
    (pop_hint kwargs "Wait before retrying or implement exponential backoff")
    "https://docs.credlink.com/api/errors#rate_limit_error" kwargs in
  {| CredLinkError.cls := CredLinkError.cls e;
     CredLinkError.message := CredLinkError.message e;
     CredLinkError.code := CredLinkError.code e;
     CredLinkError.status_code := CredLinkError.status_code e;
     CredLinkError.request_id := CredLinkError.request_id e;
     CredLinkError.idempotency_key := CredLinkError.idempotency_key e;
     CredLinkError.endpoint := CredLinkError.endpoint e;
     CredLinkError.hint := CredLinkError.hint e;
     CredLinkError.docs_url := CredLinkError.docs_url e;
     CredLinkError.retry_after := retry_after;
     CredLinkError.attempt_count := attempt_count |}.

Definition ConflictError_init (message : string) (kwargs : Kwargs) : CredLinkError.t :=
  CredLinkError_init ConflictError message "CONFLICT_ERROR" 409
    (pop_hint kwargs "Use a different idempotency key or check resource state")
    "https://docs.credlink.com/api/errors#conflict_error" kwargs.

Definition ValidationError_init (message : string) (kwargs : Kwargs) : CredLinkError.t :=
  CredLinkError_init ValidationError message "VALIDATION_ERROR" 422
    (pop_hint kwargs "Check required fields and data formats")
    "https://docs.credlink.com/api/errors#validation_error" kwargs.

Definition ServerError_init (message : string) (kwargs : Kwargs) : CredLinkError.t :=
  CredLinkError_init ServerError message "SERVER_ERROR" 500
    (pop_hint kwargs "Server encountered an unexpected error")
    "https://docs.credlink.com/api/errors#server_error" kwargs.

Definition NetworkError_init (message : string) (kwargs : Kwargs) : CredLinkError.t :=
  CredLinkError_init NetworkError message "NETWORK_ERROR" 0
    (pop_hint kwargs "Network connectivity issue encountered")
    "https://docs.credlink.com/api/errors#network_error" kwargs.

(** ** Exceptions in general

    Besides the SDK's own errors the transport meets exceptions of other
    libraries (httpx, the interpreter).  Of those only the class name and the
    two attributes that the retry predicate probes with [hasattr] matter. *)
Record ForeignError := {
  py_type : string;
  attr_status_code : option Z;
  attr_code : option string
}.

Inductive Exn :=
| CredLink (e : CredLinkError.t)
| Foreign (f : ForeignError).

(** [isinstance(error, (c1, ..., cn))] for classes of the SDK. *)
Definition isinstance (error : Exn) (classes : list ErrorClass) : bool :=
  match error with
  | CredLink e => existsb (ErrorClass_eqb (CredLinkError.cls e)) classes
  | Foreign _ => false
  end.

(** [error.status_code] guarded by [hasattr(error, 'status_code')]. *)
Definition getattr_status_code (error : Exn) : option Z :=
  match error with
  | CredLink e => Some (CredLinkError.status_code e)
  | Foreign f => attr_status_code f
  end.

(** [error.code] guarded by [hasattr(error, 'code')]. *)
Definition getattr_code (error : Exn) : option string :=
  match error with
  | CredLink e => Some (CredLinkError.code e)
  | Foreign f => attr_code f
  end.

End Types.

Import Types.

(* ================================================================== *)
(** * The runtime: heap of exceptions, clock, random source, event log *)
(* ================================================================== *)

(** A reference to an exception object: its position in the heap. *)
Definition ref := nat.

Inductive Event :=
| Invoked                (* an instrumented operation was called *)
| Slept (delay : Q).     (* [await asyncio.sleep(delay)] *)

Section Runtime.

Context {W R : Type}.

(** What an operation owns and may change: its own world (the network, the
    server, ...) and the heap of exception objects. *)
Record Store := {
  world : W;
  heap : list Exn
}.

(** The whole machine: the store, how many times the clock and the random
    source were read, and the log of observable events. *)
Record Sys := {
  store : Store;
  ticks : nat;
  draws : nat;
  trace : list Event
}.

Inductive Outcome :=
| Return (v : R)
| Raise (error : ref).

Definition set_store (st : Store) (s : Sys) : Sys :=
  {| store := st; ticks := ticks s; draws := draws s; trace := trace s |}.

Definition log (ev : Event) (s : Sys) : Sys :=
  {| store := store s; ticks := ticks s; draws := draws s;
     trace := trace s ++ [ev] |}.

(** Allocation of a new exception object. *)
Definition alloc (x : Exn) (st : Store) : ref * Store :=
  (length (heap st), {| world := world st; heap := heap st ++ [x] |}).

(** [raise X(...)]: build the exception and raise it. *)
Definition raise_new (x : Exn) (s : Sys) : Outcome * Sys :=
  let '(r, st) := alloc x (store s) in (Raise r, set_store st s).

(** The object a reference denotes. *)
Definition deref (s : Sys) (r : ref) : option Exn := heap (store s) !! r.

(** A leaf operation (one HTTP exchange, say) acts on the store only; this
    wrapper runs it inside the machine and logs the call. *)
Definition instrument (op : Store -> Outcome * Store) (s : Sys) : Outcome * Sys :=
  let '(o, st) := op (store s) in (o, log Invoked (set_store st s)).

Definition count_invoked (t : list Event) : nat :=
  length (List.filter (fun ev => match ev with Invoked => true | _ => false end) t).

End Runtime.

Arguments Store : clear implicits.
Arguments Sys : clear implicits.
Arguments Outcome : clear implicits.

(* ================================================================== *)
(** * transport.py: circuit breaker *)
(* ================================================================== *)

Module Breaker.

(** The three values that [CircuitBreakerState.state] takes. *)
Inductive Phase := closed | open | half_open.

Record CircuitBreakerState := {
  state : Phase;
  failure_count : Z;
  last_failure_time : option Q;
  next_attempt_time : option Q
}.

(** [CircuitBreakerState.__init__] *)
Definition CircuitBreakerState_init : CircuitBreakerState :=
  {| state := closed; failure_count := 0;
     last_failure_time := None; next_attempt_time := None |}.

(** The breaker object; [self_state] is the attribute [self.state]. *)
Record CircuitBreaker := {
  name : string;
  failure_threshold : Z;
  recovery_timeout : Z;
  half_open_max_calls : Z;
  half_open_calls : Z;
  self_state : CircuitBreakerState
}.

(** [CircuitBreaker.__init__(name, failure_threshold=5, recovery_timeout=60)];
    an argument left out is [None] here. *)
Definition CircuitBreaker_init (name : string)
    (failure_threshold recovery_timeout : option Z) : CircuitBreaker :=
  {| name := name;
     failure_threshold := default 5 failure_threshold;
     recovery_timeout := default 60 recovery_timeout;
     half_open_max_calls := 3;
     half_open_calls := 0;
     self_state := CircuitBreakerState_init |}.

(** Attribute assignments. *)
Definition set_self_state (st : CircuitBreakerState) (cb : CircuitBreaker) :=
  {| name := name cb; failure_threshold := failure_threshold cb;
     recovery_timeout := recovery_timeout cb;
     half_open_max_calls := half_open_max_calls cb;
     half_open_calls := half_open_calls cb; self_state := st |}.

Definition set_half_open_calls (n : Z) (cb : CircuitBreaker) :=
  {| name := name cb; failure_threshold := failure_threshold cb;
     recovery_timeout := recovery_timeout cb;
     half_open_max_calls := half_open_max_calls cb;
     half_open_calls := n; self_state := self_state cb |}.

Definition set_state (p : Phase) (cb : CircuitBreaker) :=
  let st := self_state cb in
  set_self_state
    {| state := p; failure_count := failure_count st;
       last_failure_time := last_failure_time st;
       next_attempt_time := next_attempt_time st |} cb.

Definition set_failure_count (n : Z) (cb : CircuitBreaker) :=
  let st := self_state cb in
  set_self_state
    {| state := state st; failure_count := n;
       last_failure_time := last_failure_time st;
       next_attempt_time := next_attempt_time st |} cb.

Definition set_last_failure_time (t : option Q) (cb : CircuitBreaker) :=
  let st := self_state cb in
  set_self_state
    {| state := state st; failure_count := failure_count st;
       last_failure_time := t;
       next_attempt_time := next_attempt_time st |} cb.

Definition set_next_attempt_time (t : option Q) (cb : CircuitBreaker) :=
  let st := self_state cb in
  set_self_state
    {| state := state st; failure_count := failure_count st;
       last_failure_time := last_failure_time st;
       next_attempt_time := t |} cb.

(** [get_state] *)
Definition get_state (cb : CircuitBreaker) : Phase := state (self_state cb).

(** [x < y] on floats. *)
Definition Qltb (x y : Q) : bool := negb (Qle_bool y x).

(** [t or 0]: [None] and [0.0] are falsy. *)
Definition or_zero (t : option Q) : Q :=
  match t with
  | Some t => if Qeq_bool t 0 then 0%Q else t
  | None => 0%Q
  end.

Section WithClock.

Context {W R : Type}.

(** The wall clock: [clock k] is what the k-th call of [time.time()]
    returns. *)
Variable clock : nat -> Q.

Definition time_time (s : Sys W) : Q * Sys W :=
  (clock (ticks s),
   {| store := store s; ticks := S (ticks s); draws := draws s;
      trace := trace s |}).

(** [CircuitBreaker._set_state] *)
Definition _set_state (new_state : Phase) (cb : CircuitBreaker) (s : Sys W)
    : CircuitBreaker * Sys W :=
  let cb := set_state new_state cb in
  match new_state with
  | open =>
      let '(now, s) := time_time s in
      (set_next_attempt_time
         (Some (now + inject_Z (recovery_timeout cb))%Q) cb, s)
  | closed =>
      let cb := set_failure_count 0 cb in
      (set_half_open_calls 0 cb, s)
  | half_open => (cb, s)
  end.

(** [CircuitBreaker._on_success] *)
Definition _on_success (cb : CircuitBreaker) (s : Sys W) : CircuitBreaker * Sys W :=
  match get_state cb with
  | half_open =>
      let cb := set_half_open_calls (half_open_calls cb + 1) cb in
      if half_open_calls cb >=? half_open_max_calls cb
      then _set_state closed cb s
      else (cb, s)
  | _ => _set_state closed cb s
  end.

(** [CircuitBreaker._on_failure] *)
Definition _on_failure (cb : CircuitBreaker) (s : Sys W) : CircuitBreaker * Sys W :=
  let cb := set_failure_count (failure_count (self_state cb) + 1) cb in
  let '(now, s) := time_time s in
  let cb := set_last_failure_time (Some now) cb in
  match get_state cb with
  | half_open => _set_state open cb s
  | _ =>
      if failure_count (self_state cb) >=? failure_threshold cb
      then _set_state open cb s
      else (cb, s)
  end.

(** The [try ... except Exception] block of [CircuitBreaker.execute]: run the
    operation, record its outcome, hand the outcome on. *)
Definition execute_try (operation : Sys W -> Outcome R * Sys W)
    (cb : CircuitBreaker) (s : Sys W) : Outcome R * CircuitBreaker * Sys W :=
  match operation s with
  | (Return result, s) =>
      let '(cb, s) := _on_success cb s in (Return result, cb, s)
  | (Raise error, s) =>
      let '(cb, s) := _on_failure cb s in (Raise error, cb, s)
  end.

(** The error a breaker raises while open. *)
Definition circuit_open_error (cb : CircuitBreaker) : Exn :=
  CredLink (NetworkError_init
    ("Circuit breaker '" +:+ name cb +:+ "' is open")
    {| kw_request_id := None; kw_idempotency_key := None; kw_endpoint := None;
       kw_hint := Some (Some "Service is temporarily unavailable. Please retry later.") |}).

(** [CircuitBreaker.execute] *)
Definition execute (operation : Sys W -> Outcome R * Sys W)
    (cb : CircuitBreaker) (s : Sys W) : Outcome R * CircuitBreaker * Sys W :=
  match get_state cb with
  | open =>
      let '(now, s) := time_time s in
      if Qltb now (or_zero (next_attempt_time (self_state cb)))
      then
        let '(o, s) := raise_new (R := R) (circuit_open_error cb) s in (o, cb, s)
      else
        let '(cb, s) := _set_state half_open cb s in
        let cb := set_half_open_calls 0 cb in
        execute_try operation cb s
  | _ => execute_try operation cb s
  end.

(** The two outcome handlers as one step function of the breaker. *)
Inductive Result := Success | Failure.

Definition on_outcome (o : Result) (cb : CircuitBreaker) (s : Sys W)
    : CircuitBreaker * Sys W :=
  match o with
  | Success => _on_success cb s
  | Failure => _on_failure cb s
  end.

(** The handlers applied to a run of outcomes, one after the other. *)
Fixpoint on_outcomes (os : list Result) (cb : CircuitBreaker) (s : Sys W)
    : CircuitBreaker * Sys W :=
  match os with
  | [] => (cb, s)
  | o :: os => let '(cb, s) := on_outcome o cb s in on_outcomes os cb s
  end.

End WithClock.

(** ** The state machine as the specification words it

    Its state has the four components of the specification's [CircuitState]
    that the transitions mention; [now] is the time at which the outcome is
    handled.  A component a transition does not mention keeps its value.
    A counter "reaches" a bound when it is at or above it. *)

Inductive RefPhase := CLOSED | OPEN | HALF_OPEN.

Record RefState := {
  phase : RefPhase;
  ref_failure_count : Z;
  ref_next_attempt_time : option Q;
  half_open_probe_count : Z
}.

Record RefParams := {
  ref_failure_threshold : Z;
  ref_recovery_timeout : Z;
  ref_half_open_max_calls : Z
}.

Definition ref_defaults : RefParams :=
  {| ref_failure_threshold := 5; ref_recovery_timeout := 60;
     ref_half_open_max_calls := 3 |}.

Definition ref_step (p : RefParams) (now : Q) (o : Result) (a : RefState) : RefState :=
  match phase a, o with
  | CLOSED, Failure =>
      let n := ref_failure_count a + 1 in
      if ref_failure_threshold p <=? n
      then {| phase := OPEN; ref_failure_count := n;
              ref_next_attempt_time := Some (now + inject_Z (ref_recovery_timeout p))%Q;
              half_open_probe_count := half_open_probe_count a |}
      else {| phase := CLOSED; ref_failure_count := n;
              ref_next_attempt_time := ref_next_attempt_time a;
              half_open_probe_count := half_open_probe_count a |}
  | CLOSED, Success =>
      {| phase := CLOSED; ref_failure_count := 0;
         ref_next_attempt_time := ref_next_attempt_time a;
         half_open_probe_count := half_open_probe_count a |}
  | HALF_OPEN, Failure =>
      {| phase := OPEN; ref_failure_count := ref_failure_count a;
         ref_next_attempt_time := Some (now + inject_Z (ref_recovery_timeout p))%Q;
         half_open_probe_count := half_open_probe_count a |}
  | HALF_OPEN, Success =>
      let n := half_open_probe_count a + 1 in
      if ref_half_open_max_calls p <=? n
      then {| phase := CLOSED; ref_failure_count := 0;
              ref_next_attempt_time := ref_next_attempt_time a;
              half_open_probe_count := n |}
      else {| phase := HALF_OPEN; ref_failure_count := ref_failure_count a;
              ref_next_attempt_time := ref_next_attempt_time a;
              half_open_probe_count := n |}
  | OPEN, _ => a
  end.

(** How a breaker object is read as a state of the reference machine. *)
Definition ref_phase (p : Phase) : RefPhase :=
  match p with closed => CLOSED | open => OPEN | half_open => HALF_OPEN end.

Definition params_of (cb : CircuitBreaker) : RefParams :=
  {| ref_failure_threshold := failure_threshold cb;
     ref_recovery_timeout := recovery_timeout cb;
     ref_half_open_max_calls := half_open_max_calls cb |}.

(** The breaker and the reference state agree on what the machine can still
    observe: the phase and the time of the next attempt always, the failure
    count while CLOSED (the only phase whose transitions compare it with the
    threshold), the probe count while HALF_OPEN. *)
Definition agrees (cb : CircuitBreaker) (a : RefState) : Prop :=
  ref_phase (get_state cb) = phase a /\
  next_attempt_time (self_state cb) = ref_next_attempt_time a /\
  (phase a = CLOSED -> failure_count (self_state cb) = ref_failure_count a) /\
  (phase a = HALF_OPEN -> half_open_calls cb = half_open_probe_count a).

(** Concrete breakers and states used as examples below. *)
Definition example_open_breaker : CircuitBreaker :=
  {| name := "http-transport"; failure_threshold := 5; recovery_timeout := 60;
     half_open_max_calls := 3; half_open_calls := 2;
     self_state := {| state := open; failure_count := 5;
                      last_failure_time := Some (100 # 1);
                      next_attempt_time := Some (160 # 1) |} |}.

Definition example_closed_breaker : CircuitBreaker :=
  set_failure_count 4 (CircuitBreaker_init "http-transport" None None).

Definition example_closed_ref : RefState :=
  {| phase := CLOSED; ref_failure_count := 4;
     ref_next_attempt_time := None; half_open_probe_count := 7 |}.

End Breaker.

(* ================================================================== *)
(** * transport.py: retry with jittered exponential backoff *)
(* ================================================================== *)

Module Retry.

(** [range(n)] *)
Definition range (n : Z) : list Z := map Z.of_nat (seq 0 (Z.to_nat n)).

(** [raise last_error] where [last_error] may still be [None]: raising
    [None] is a [TypeError] of the interpreter. *)
Definition TypeError : Exn :=
  Foreign {| py_type := "TypeError"; attr_status_code := None; attr_code := None |}.

Section WithConfig.

Context {W R : Type}.

(** [self.config] of the [RetryHandler]. *)
Variable config : RetryConfig.

(** The random source: [random_random k] is what [random.random()] returns
    when it is the k-th draw from the generator. *)
Variable random_random : nat -> Q.

Definition draw (s : Sys W) : Q * Sys W :=
  (random_random (draws s),
   {| store := store s; ticks := ticks s; draws := S (draws s);
      trace := trace s |}).

(** The exponential term [base_ms * (2 ** (attempt - 1)) / 1000]. *)
Definition exponential_delay (attempt : Z) : Q :=
  (inject_Z (base_ms config) * Qpower 2 (attempt - 1) / 1000)%Q.

(** The arithmetic of [RetryHandler._calculate_delay], given the value [r]
    that [random.random()] returns (consulted only with jitter). *)
Definition delay_of (attempt : Z) (r : Q) : Q :=
  if jitter config
  then Qmin (r * exponential_delay attempt) (inject_Z (max_ms config) / 1000)
  else Qmin (exponential_delay attempt) (inject_Z (max_ms config) / 1000).

(** The bound of the specification: [min(base * 2^(attempt-1), max_delay)]
    milliseconds, in seconds. *)
Definition delay_bound (attempt : Z) : Q :=
  (inject_Z (Z.min (base_ms config * 2 ^ (attempt - 1)) (max_ms config)) / 1000)%Q.

(** [RetryHandler._calculate_delay] *)
Definition _calculate_delay (attempt : Z) (s : Sys W) : Q * Sys W :=
  if jitter config
  then let '(r, s) := draw s in (delay_of attempt r, s)
  else (delay_of attempt 0, s).

(** [await asyncio.sleep(delay)] *)
Definition sleep (delay : Q) (s : Sys W) : Sys W := log (Slept delay) s.

Definition raise_ref (last_error : option ref) (s : Sys W) : Outcome R * Sys W :=
  match last_error with
  | Some r => (Raise r, s)
  | None => raise_new TypeError s
  end.

(** [error.attempt_count = n] on the object [error] refers to. *)
Definition setattr_attempt_count (error : ref) (n : Z) (s : Sys W) : Sys W :=
  match deref s error with
  | Some (CredLink e) =>
      set_store
        {| world := world (store s);
           heap := <[error := CredLink (CredLinkError.set_attempt_count (Some n) e)]>
                     (heap (store s)) |} s
  | _ => s
  end.

(** A property of the object behind a reference.  A reference handed over by
    [except] always denotes an object; for a dangling one the test fails. *)
Definition test (p : Exn -> bool) (s : Sys W) (error : ref) : bool :=
  match deref s error with
  | Some x => p x
  | None => false
  end.

Section Loop.

Variable operation : Sys W -> Outcome R * Sys W.
Variable is_retryable : Exn -> bool.
Variable max_attempts : Z.

(** The [for attempt in range(max_attempts + 1)] loop of
    [execute_with_retry], over the attempts still to come; leaving the loop,
    by [break] or by exhaustion, leads to [raise last_error]. *)
Fixpoint retry_loop (attempts : list Z) (last_error : option ref) (s : Sys W)
    : Outcome R * Sys W :=
  match attempts with
  | [] => raise_ref last_error s
  | attempt :: attempts =>
      let s :=
        if 0 <? attempt
        then let '(delay, s) := _calculate_delay attempt s in sleep delay s
        else s in
      match operation s with
      | (Return v, s) => (Return v, s)
      | (Raise error, s) =>
          let last_error := Some error in
          if (attempt =? max_attempts) || negb (test is_retryable s error)
          then raise_ref last_error s
          else
            let s :=
              if test (fun x => isinstance x [RateLimitError]) s error
              then setattr_attempt_count error (attempt + 1) s
              else s in
            retry_loop attempts last_error s
      end
  end.

End Loop.

(** [RetryHandler.execute_with_retry] *)
Definition execute_with_retry (operation : Sys W -> Outcome R * Sys W)
    (is_retryable : Exn -> bool) (context : string) (s : Sys W)
    : Outcome R * Sys W :=
  let max_attempts := Types.max_attempts config in
  retry_loop operation is_retryable max_attempts (range (max_attempts + 1)) None s.

(** ** What the specification expects of an operation that always fails *)

(** The annotation the handler leaves on the exception of a failed attempt
    that it retries. *)
Definition annotate (attempt : Z) (error : ref) (st : Store W) : Store W :=
  match heap st !! error with
  | Some (CredLink e) =>
      if ErrorClass_eqb (CredLinkError.cls e) RateLimitError
      then {| world := world st;
              heap := <[error := CredLink (CredLinkError.set_attempt_count
                                             (Some (attempt + 1)) e)]> (heap st) |}
      else st
  | _ => st
  end.

(** The store in which attempt number [n] starts: every earlier attempt ran
    the operation and had its exception annotated. *)
Fixpoint store_before (op : Store W -> Outcome R * Store W) (n : nat)
    (st : Store W) : Store W :=
  match n with
  | O => st
  | S n =>
      let st := store_before op n st in
      match op st with
      | (Raise error, st') => annotate (Z.of_nat n) error st'
      | (Return _, st') => st'
      end
  end.

(** The delay before attempt [k >= 1], when [d] draws preceded the call of
    the handler: with jitter, attempt [k] uses draw number [d + k - 1]. *)
Definition backoff (d : nat) (k : nat) : Q :=
  delay_of (Z.of_nat k) (random_random (d + k - 1)%nat).

(** Attempt 0 at once; every later attempt after its backoff delay. *)
Fixpoint expected_trace (d : nat) (n : nat) : list Event :=
  match n with
  | O => [Invoked]
  | S n => expected_trace d n ++ [Slept (backoff d (S n)); Invoked]
  end.

(** Every invocation of the leaf operation raises an exception that
    satisfies [p]. *)
Definition fails_with (p : Exn -> bool) (op : Store W -> Outcome R * Store W) : Prop :=
  forall st, exists error x st',
    op st = (Raise error, st') /\ heap st' !! error = Some x /\ p x = true.

End WithConfig.

End Retry.

(* ================================================================== *)
(** * Python's [str] *)
(* ================================================================== *)

Module Text.

(** A [str] is a sequence of Unicode code points.  The texts whose
    characters the code inspects (the lines of a streamed body, an API key)
    are modelled as such; the strings it only compares, joins or hands on
    are [string]s. *)
Definition str := list N.

(** A literal of the source as a [str], character by character. *)
Definition str_of (v : string) : str := map N_of_ascii (list_ascii_of_string v).

(** [c.isspace()] for one character: the white space of Unicode as the
    interpreter has it, which is what [str.strip()] removes.  These are the
    controls U+0009 to U+000D and U+001C to U+001F, the space, U+0085,
    U+00A0, U+1680, U+2000 to U+200A, U+2028, U+2029, U+202F, U+205F and
    U+3000. *)
Definition isspace (c : N) : bool :=
  ((0x09 <=? c) && (c <=? 0x0D) || (0x1C <=? c) && (c <=? 0x20)
   || (c =? 0x85) || (c =? 0xA0) || (c =? 0x1680)
   || (0x2000 <=? c) && (c <=? 0x200A)
   || (c =? 0x2028) || (c =? 0x2029) || (c =? 0x202F) || (c =? 0x205F)
   || (c =? 0x3000))%N.

(** [v.lstrip()], [v.rstrip()] and [v.strip()] *)
Fixpoint lstrip (v : str) : str :=
  match v with
  | c :: v' => if isspace c then lstrip v' else v
  | [] => []
  end.

Definition rstrip (v : str) : str := rev (lstrip (rev v)).

Definition strip (v : str) : str := rstrip (lstrip v).

(** The characters at which [str.splitlines()] cuts: line feed, carriage
    return, vertical tab, form feed, the separators U+001C, U+001D and
    U+001E, next line U+0085, and the line and paragraph separators U+2028
    and U+2029. *)
Definition is_linebreak (c : N) : bool :=
  ((c =? 0x0A) || (c =? 0x0D) || (c =? 0x0B) || (c =? 0x0C)
   || (c =? 0x1C) || (c =? 0x1D) || (c =? 0x1E) || (c =? 0x85)
   || (c =? 0x2028) || (c =? 0x2029))%N.

(** [text.splitlines()], [cur] being the line read so far.  A carriage
    return followed by a line feed is one boundary; the boundaries are
    dropped, and no empty line follows the last boundary. *)
Fixpoint splitlines_from (cur : str) (text : str) : list str :=
  match text with
  | [] => match cur with [] => [] | _ :: _ => [cur] end
  | c :: text' =>
      if is_linebreak c then
        cur :: match text' with
               | c' :: text'' =>
                   if ((c =? 0x0D) && (c' =? 0x0A))%N
                   then splitlines_from [] text''
                   else splitlines_from [] text'
               | [] => []
               end
      else splitlines_from (cur ++ [c]) text'
  end.

Definition splitlines (text : str) : list str := splitlines_from [] text.

End Text.

(* ================================================================== *)
(** * transport.py: HTTP transport *)
(* ================================================================== *)

Module Transport.

(** The merged client configuration, as far as the transport reads it. *)
Record ClientConfig := {
  api_key : string;
  base_url : string;
  timeout_ms : Z;
  retries : RetryConfig;
  user_agent : string
}.

(** [HttpTransport.DEFAULT_CONFIG] merged with a bare API key. *)
Definition DEFAULT_CONFIG (api_key : string) : ClientConfig :=
  {| api_key := api_key;
     base_url := "https://api.credlink.com/v1";
     timeout_ms := 30000;
     retries := RetryConfig_default;
     user_agent := "credlink-sdk/python/1.3.0" |}.

(** The transport object: its configuration (from which the retry handler is
    built) and its circuit breaker. *)
Record HttpTransport := {
  config : ClientConfig;
  circuit_breaker : Breaker.CircuitBreaker
}.

(** [HttpTransport.__init__], after [_merge_config] *)
Definition HttpTransport_init (config : ClientConfig) : HttpTransport :=
  {| config := config;
     circuit_breaker := Breaker.CircuitBreaker_init "http-transport" None None |}.

Definition set_circuit_breaker (cb : Breaker.CircuitBreaker) (self : HttpTransport) :=
  {| config := config self; circuit_breaker := cb |}.

(** [str(n)] for an [int]. *)
Definition str_of_Z (n : Z) : string := NilZero.string_of_int (Z.to_int n).

(** [int(x)] for a non-negative [float]: truncation. *)
Definition int_of_Q (x : Q) : Z := Z.quot (Qnum x) (Z.pos (Qden x)).

(** Exceptions of the interpreter and of the standard library. *)
Definition ValueError : Exn :=
  Foreign {| py_type := "ValueError"; attr_status_code := None; attr_code := None |}.
Definition AttributeError : Exn :=
  Foreign {| py_type := "AttributeError"; attr_status_code := None; attr_code := None |}.
Definition JSONDecodeError : Exn :=
  Foreign {| py_type := "json.JSONDecodeError"; attr_status_code := None; attr_code := None |}.

(** What httpx raises when the exchange itself fails.  These classes derive
    from [httpx.TransportError]; their instances carry a [request] attribute
    and neither [status_code] nor [code]. *)
Definition httpx_ConnectError : Exn :=
  Foreign {| py_type := "httpx.ConnectError"; attr_status_code := None; attr_code := None |}.
Definition httpx_ReadError : Exn :=
  Foreign {| py_type := "httpx.ReadError"; attr_status_code := None; attr_code := None |}.
Definition httpx_ReadTimeout : Exn :=
  Foreign {| py_type := "httpx.ReadTimeout"; attr_status_code := None; attr_code := None |}.

(** [HttpTransport._create_retry_predicate]; the predicate does not depend
    on the method. *)
Definition _create_retry_predicate (method : string) : Exn -> bool :=
  fun error =>
    if isinstance error [ValidationError; AuthError; ConflictError] then false
    else if isinstance error [RateLimitError; ServerError; NetworkError] then true
    else
      match getattr_status_code error with
      | Some status_code =>
          existsb (Z.eqb status_code) [408; 429; 500; 502; 503; 504]
      | None =>
          match getattr_code error with
          | Some code =>
              existsb (String.eqb code)
                ["ECONNRESET"; "ENOTFOUND"; "ECONNREFUSED"; "ETIMEDOUT"]
          | None => false
          end
      end.

(** The lines [response.aiter_lines()] yields for a body received in full,
    [text] being the decoded body: httpx cuts the text the way
    [str.splitlines()] does, also where a boundary falls between two chunks
    of the body. *)
Definition aiter_lines (text : Text.str) : list Text.str := Text.splitlines text.

(** A coroutine object that has not been awaited; [awaited] is what
    awaiting it would give. *)
Inductive Coroutine (A : Type) := coroutine (awaited : A).
Arguments coroutine {A} awaited.

Section WithClient.

Context {W R : Type}.

(** What [response.json()] does: it raises, or it yields a JSON object, or
    another JSON value.  Of an object [entries] are the members; the transport
    reads [detail], [message] and [hint], which are taken to be strings. *)
Inductive JsonResult :=
| json_raises
| json_dict (entries : gmap string string) (v : R)
| json_other (v : R).

Record Response := {
  resp_status_code : Z;
  resp_json : JsonResult;
  resp_retry_after : option string;    (* [response.headers.get("Retry-After")] *)
  resp_text : Text.str                 (* the decoded body, for streaming *)
}.

Record Request := {
  req_method : string;
  req_path : string;
  req_json : option R;
  req_headers : gmap string string;
  req_timeout : Q                      (* seconds *)
}.

(** An exchange with the server ends in a response or in an exception of the
    HTTP client. *)
Inductive Exchange :=
| Responded (response : Response)
| Failed (x : Exn).

(** What [json.loads(line)] comes to: a value, a [json.JSONDecodeError], or
    an exception of another class (a [ValueError] for an integer of more
    than 4300 digits, a [RecursionError] for brackets nested too deep). *)
Inductive Loaded :=
| loaded (v : R)
| decode_error
| load_raises (x : Exn).

(** What [self.client.stream(...)] returns: an async context manager.  The
    exchange [enter] takes place when the manager is entered by
    [async with]; building the manager performs none. *)
Inductive StreamContext := stream_context (enter : W -> Exchange * W).

(** The HTTP client ([self.client.request], and the exchange behind
    [self.client.stream]) and the built-ins [int] (on strings; [None] for a
    [ValueError]) and [json.loads]. *)
Variable client_request : Request -> W -> Exchange * W.
Variable client_stream : Request -> W -> Exchange * W.
Variable py_int : string -> option Z.
Variable json_loads : Text.str -> Loaded.

(** The clock, and the integer [random.randint(1000, 9999)] returns when it
    is the k-th draw from the generator. *)
Variable clock : nat -> Q.
Variable random_random : nat -> Q.
Variable random_randint : nat -> Z.

(** [raise x] inside a leaf operation. *)
Definition raise {A : Type} (x : Exn) (st : Store W) : Outcome A * Store W :=
  let '(r, st) := alloc x st in (Raise r, st).

(** [HttpTransport._handle_http_error]: the exception it raises. *)
Definition _handle_http_error (response : Response) (request_id path : string)
    (idempotency_key : option string) : Exn :=
  let error_data :=
    match resp_json response with
    | json_raises => Some ∅
    | json_dict entries _ => Some entries
    | json_other _ => None
    end in
  match error_data with
  | None => AttributeError              (* [.get] on a value that is no dict *)
  | Some error_data =>
      let message :=
        default
          (default ("HTTP " +:+ str_of_Z (resp_status_code response))
                   (error_data !! "message"))
          (error_data !! "detail") in
      let retry_after := resp_retry_after response in
      let retry_after_seconds :=
        match retry_after with
        | Some h => if String.eqb h "" then Some None else option_map Some (py_int h)
        | None => Some None
        end in
      match retry_after_seconds with
      | None => ValueError                (* [int(retry_after)] failed *)
      | Some retry_after_seconds =>
          let kwargs hint :=
            {| kw_request_id := Some request_id; kw_idempotency_key := None;
               kw_endpoint := Some path; kw_hint := Some hint |} in
          let status := resp_status_code response in
          if status =? 401 then
            CredLink (AuthError_init message (kwargs (error_data !! "hint")))
          else if status =? 403 then
            CredLink (AuthError_init message
              (kwargs (Some (default "Insufficient permissions for this operation"
                                     (error_data !! "hint")))))
          else if status =? 409 then
            CredLink (ConflictError_init message
              {| kw_request_id := Some request_id;
                 kw_idempotency_key := idempotency_key;
                 kw_endpoint := Some path;
                 kw_hint := Some (error_data !! "hint") |})
          else if status =? 422 then
            CredLink (ValidationError_init message (kwargs (error_data !! "hint")))
          else if status =? 429 then
            CredLink (RateLimitError_init message retry_after_seconds None
                        (kwargs (error_data !! "hint")))
          else if existsb (Z.eqb status) [500; 502; 503; 504] then
            CredLink (ServerError_init message (kwargs (error_data !! "hint")))
          else
            CredLink (NetworkError_init
              ("HTTP " +:+ str_of_Z status +:+ ": " +:+ message)
              (kwargs (error_data !! "hint")))
      end
  end.

(** [HttpTransport._make_request].  [timeout] is what [request] computed; the
    division [timeout / 1000] is evaluated before the client is called and
    raises a [TypeError] when [timeout] is [None]. *)
Definition _make_request (method path : string) (data : option R)
    (headers : gmap string string) (timeout : option Z) (request_id : string)
    (st : Store W) : Outcome R * Store W :=
  match timeout with
  | None => raise Retry.TypeError st
  | Some timeout =>
      let '(x, w) :=
        client_request
          {| req_method := method; req_path := path; req_json := data;
             req_headers := headers;
             req_timeout := (inject_Z timeout / 1000)%Q |} (world st) in
      let st := {| world := w; heap := heap st |} in
      match x with
      | Failed x => raise x st
      | Responded response =>
          if resp_status_code response >=? 400
          then raise (_handle_http_error response request_id path
                        (headers !! "Idempotency-Key")) st
          else
            match resp_json response with
            | json_raises => raise JSONDecodeError st
            | json_dict _ v | json_other v => (Return v, st)
            end
      end
  end.

(** The async generator [iterator] inside
    [HttpTransport._create_async_iterator], run to its end over the lines of
    the body: the values it yields, in order, and how it ends, [None] when
    the lines are used up and [Some x] when the exception [x] leaves the
    generator.  The [except] clause names [json.JSONDecodeError] alone, so
    any other exception of [json.loads] ends the generator. *)
Fixpoint iterator (lines : list Text.str) : list R * option Exn :=
  match lines with
  | [] => ([], None)
  | line :: lines =>
      match Text.strip line with
      | [] => iterator lines                     (* [line.strip()] is falsy *)
      | _ :: _ =>
          match json_loads line with
          | loaded v =>                          (* [yield json.loads(line)] *)
              let '(values, ending) := iterator lines in (v :: values, ending)
          | decode_error => iterator lines       (* [continue] *)
          | load_raises x => ([], Some x)
          end
      end
  end.

(** [HttpTransport._create_async_iterator], awaited. *)
Definition _create_async_iterator (response : Response) : list R * option Exn :=
  iterator (aiter_lines (resp_text response)).

(** [HttpTransport._generate_request_id] *)
Definition _generate_request_id (s : Sys W) : string * Sys W :=
  let '(now, s) := Breaker.time_time clock s in
  let n := random_randint (draws s) in
  ("req_" +:+ str_of_Z (int_of_Q now) +:+ "_" +:+ str_of_Z n,
   {| store := store s; ticks := ticks s; draws := S (draws s);
      trace := trace s |}).

(** The part [request] and [request_stream] share: the headers and the
    timeout of the call.  [options] is [None] when the caller passes none. *)
Definition call_idempotency_key (options : option RequestOptions.t) : option string :=
  match options with
  | Some options => RequestOptions.idempotency_key options
  | None => None
  end.

Definition call_headers (base : gmap string string)
    (options : option RequestOptions.t) : gmap string string :=
  let headers := base in
  let headers :=
    match call_idempotency_key options with
    | Some k => if String.eqb k "" then headers else <["Idempotency-Key" := k]> headers
    | None => headers
    end in
  match options with
  | Some options =>
      match RequestOptions.headers options with
      | Some h => h ∪ headers              (* [headers.update(options.headers)] *)
      | None => headers
      end
  | None => headers
  end.

(** [timeout = options.timeout if options else self.config.timeout_ms] *)
Definition call_timeout (self : HttpTransport) (options : option RequestOptions.t)
    : option Z :=
  match options with
  | Some options => RequestOptions.timeout options
  | None => Some (timeout_ms (config self))
  end.

(** [HttpTransport.request] *)
Definition request (self : HttpTransport) (method path : string)
    (data : option R) (options : option RequestOptions.t) (s : Sys W)
    : Outcome R * HttpTransport * Sys W :=
  let '(request_id, s) := _generate_request_id s in
  let headers := call_headers {[ "X-Request-ID" := request_id ]} options in
  let timeout := call_timeout self options in
  let is_retryable := _create_retry_predicate method in
  let '(o, cb, s) :=
    Breaker.execute clock
      (Retry.execute_with_retry (retries (config self)) random_random
         (instrument (_make_request method path data headers timeout request_id))
         is_retryable (method +:+ " " +:+ path))
      (circuit_breaker self) s in
  (o, set_circuit_breaker cb self, s).

(** [await cm] for the context manager [cm]: the object is no awaitable,
    and the interpreter raises a [TypeError]; [cm] is not entered. *)
Definition await_stream_context (cm : StreamContext) (st : Store W)
    : Outcome Response * Store W :=
  raise Retry.TypeError st.

(** The closure [make_stream_request] of [request_stream].  The argument
    [timeout / 1000] is evaluated first and raises a [TypeError] when
    [timeout] is [None].  [self.client] is an [httpx.AsyncClient], whose
    [stream] builds an async context manager; the closure awaits the
    manager instead of entering it. *)
Definition make_stream_request (method path : string) (data : option R)
    (headers : gmap string string) (timeout : option Z) (request_id : string)
    (idempotency_key : option string) (st : Store W)
    : Outcome Response * Store W :=
  match timeout with
  | None => raise Retry.TypeError st
  | Some timeout =>
      let cm :=
        stream_context
          (client_stream
             {| req_method := method; req_path := path; req_json := data;
                req_headers := headers;
                req_timeout := (inject_Z timeout / 1000)%Q |}) in
      match await_stream_context cm st with
      | (Raise error, st) => (Raise error, st)
      | (Return response, st) =>
          if resp_status_code response >=? 400
          then raise (_handle_http_error response request_id path idempotency_key) st
          else (Return response, st)
      end
  end.

(** [HttpTransport.request_stream].  Its last line calls the coroutine
    function [_create_async_iterator] without awaiting it, so what it would
    return is the coroutine object. *)
Definition request_stream (self : HttpTransport) (method path : string)
    (data : option R) (options : option RequestOptions.t) (s : Sys W)
    : Outcome (Coroutine (list R * option Exn)) * HttpTransport * Sys W :=
  let '(request_id, s) := _generate_request_id s in
  let idempotency_key := call_idempotency_key options in
  let headers :=
    call_headers {[ "X-Request-ID" := request_id; "Accept" := "application/json" ]}
      options in
  let timeout := call_timeout self options in
  let is_retryable := _create_retry_predicate method in
  let '(o, cb, s) :=
    Breaker.execute clock
      (Retry.execute_with_retry (retries (config self)) random_random
         (instrument (make_stream_request method path data headers timeout
                        request_id idempotency_key))
         is_retryable (method +:+ " " +:+ path +:+ " (stream)"))
      (circuit_breaker self) s in
  match o with
  | Return response =>
      (Return (coroutine (_create_async_iterator response)),
       set_circuit_breaker cb self, s)
  | Raise error => (Raise error, set_circuit_breaker cb self, s)
  end.

End WithClient.

Arguments JsonResult : clear implicits.
Arguments Loaded : clear implicits.
Arguments StreamContext : clear implicits.
Arguments Response : clear implicits.
Arguments Request : clear implicits.
Arguments Exchange : clear implicits.

End Transport.

(* ================================================================== *)
(** * A decoder for a fragment of JSON, to run the iterator on examples *)
(* ================================================================== *)

(** The fragment: [null], [true], [false], integers, strings without
    backslash escapes, arrays and objects.  Texts with an escape, a fraction
    or an exponent, or with the constants [NaN] and [Infinity], are outside
    of it, and so are objects that repeat a key: the examples below use
    none. *)
Module MiniJson.

Import Text.

#[warnings="-register-all"]
Inductive Json :=
| JNull
| JBool (b : bool)
| JNum (n : Z)
| JStr (s : str)
| JArr (items : list Json)
| JObj (members : list (str * Json)).

(** What reading a value at the head of a text comes to: the value and the
    text after it, a [json.JSONDecodeError], or another exception. *)
Inductive Read (A : Type) :=
| read (v : A) (rest : str)
| malformed
| refused (x : Exn).
Arguments read {A} v rest.
Arguments malformed {A}.
Arguments refused {A} x.

Definition is_digit (c : N) : bool := ((48 <=? c) && (c <=? 57))%N.

(** The white space of JSON: space, tab, line feed and carriage return. *)
Definition is_ws (c : N) : bool :=
  ((c =? 32) || (c =? 9) || (c =? 10) || (c =? 13))%N.

Fixpoint skip_ws (cs : str) : str :=
  match cs with
  | c :: cs' => if is_ws c then skip_ws cs' else cs
  | [] => []
  end.

(** The characters up to the closing quote.  A control character ends the
    decoding; so does a backslash, escapes being outside the fragment. *)
Fixpoint read_string (acc : str) (cs : str) : Read str :=
  match cs with
  | [] => malformed
  | c :: cs' =>
      if (c =? 34)%N then read acc cs'
      else if (c =? 92)%N || (c <? 32)%N then malformed
      else read_string (acc ++ [c]) cs'
  end.

(** The digits at the head of a text, and the text after them. *)
Fixpoint span_digits (cs : str) : str * str :=
  match cs with
  | c :: cs' =>
      if is_digit c
      then let '(ds, rest) := span_digits cs' in (c :: ds, rest)
      else ([], cs)
  | [] => ([], [])
  end.

Definition int_of_digits (ds : str) : Z :=
  fold_left (fun acc d => 10 * acc + Z.of_N (d - 48)) ds 0.

(** The interpreter's limit on the digits of an integer it converts from
    text ([sys.int_info.default_max_str_digits]); beyond it [int] raises a
    [ValueError]. *)
Definition max_str_digits : nat := 4300.

(** An integer without sign: a zero on its own, or digits that begin with
    another digit than zero. *)
Definition read_natural (sign : Z) (cs : str) : Read Json :=
  match cs with
  | c :: cs' =>
      if (c =? 48)%N then read (JNum 0) cs'
      else if is_digit c then
        let '(ds, rest) := span_digits cs in
        if (max_str_digits <? length ds)%nat
        then refused Transport.ValueError
        else read (JNum (sign * int_of_digits ds)) rest
      else malformed
  | [] => malformed
  end.

Definition read_number (cs : str) : Read Json :=
  match cs with
  | c :: cs' => if (c =? 45)%N then read_natural (-1) cs' else read_natural 1 cs
  | [] => malformed
  end.

Fixpoint read_literal (lit cs : str) : option str :=
  match lit, cs with
  | [], _ => Some cs
  | l :: lit', c :: cs' => if (l =? c)%N then read_literal lit' cs' else None
  | _ :: _, [] => None
  end.

Definition read_constant (v : Json) (lit : string) (cs : str) : Read Json :=
  match read_literal (str_of lit) cs with
  | Some rest => read v rest
  | None => malformed
  end.

Section Composite.

(** The decoder of one value, used for the items of arrays and objects. *)
Variable value : str -> Read Json.

(** After the opening bracket and the first item: [, item]* followed by the
    closing bracket. *)
Fixpoint read_items (fuel : nat) (acc : list Json) (cs : str) : Read Json :=
  match fuel with
  | O => malformed
  | S fuel =>
      match skip_ws cs with
      | c :: cs' =>
          if (c =? 93)%N then read (JArr (rev acc)) cs'
          else if (c =? 44)%N then
            match value cs' with
            | read v rest => read_items fuel (v :: acc) rest
            | malformed => malformed
            | refused x => refused x
            end
          else malformed
      | [] => malformed
      end
  end.

Definition read_member (cs : str) : Read (str * Json) :=
  match skip_ws cs with
  | c :: cs' =>
      if (c =? 34)%N then
        match read_string [] cs' with
        | read k rest =>
            match skip_ws rest with
            | c' :: rest' =>
                if (c' =? 58)%N then
                  match value rest' with
                  | read v rest'' => read (k, v) rest''
                  | malformed => malformed
                  | refused x => refused x
                  end
                else malformed
            | [] => malformed
            end
        | malformed => malformed
        | refused x => refused x
        end
      else malformed
  | [] => malformed
  end.

Fixpoint read_members (fuel : nat) (acc : list (str * Json)) (cs : str)
    : Read Json :=
  match fuel with
  | O => malformed
  | S fuel =>
      match skip_ws cs with
      | c :: cs' =>
          if (c =? 125)%N then read (JObj (rev acc)) cs'
          else if (c =? 44)%N then
            match read_member cs' with
            | read m rest => read_members fuel (m :: acc) rest
            | malformed => malformed
            | refused x => refused x
            end
          else malformed
      | [] => malformed
      end
  end.

End Composite.

(** One value; [fuel] bounds the depth of the brackets. *)
Fixpoint read_value (fuel : nat) (cs : str) : Read Json :=
  match fuel with
  | O => malformed
  | S fuel =>
      match skip_ws cs with
      | [] => malformed
      | c :: cs' =>
          if (c =? 34)%N then
            match read_string [] cs' with
            | read s rest => read (JStr s) rest
            | malformed => malformed
            | refused x => refused x
            end
          else if (c =? 91)%N then
            match skip_ws cs' with
            | c' :: rest =>
                if (c' =? 93)%N then read (JArr []) rest
                else
                  match read_value fuel cs' with
                  | read v rest =>
                      read_items (read_value fuel) (S (length rest)) [v] rest
                  | malformed => malformed
                  | refused x => refused x
                  end
            | [] => malformed
            end
          else if (c =? 123)%N then
            match skip_ws cs' with
            | c' :: rest =>
                if (c' =? 125)%N then read (JObj []) rest
                else
                  match read_member (read_value fuel) cs' with
                  | read m rest =>
                      read_members (read_value fuel) (S (length rest)) [m] rest
                  | malformed => malformed
                  | refused x => refused x
                  end
            | [] => malformed
            end
          else if (c =? 116)%N then read_constant (JBool true) "rue" cs'
          else if (c =? 102)%N then read_constant (JBool false) "alse" cs'
          else if (c =? 110)%N then read_constant JNull "ull" cs'
          else read_number (c :: cs')
      end
  end.

(** [json.loads(text)] on the fragment: one value, white space allowed
    around it. *)
Definition loads (text : str) : Transport.Loaded Json :=
  match read_value (S (length text)) text with
  | read v rest =>
      match skip_ws rest with
      | [] => Transport.loaded v
      | _ :: _ => Transport.decode_error
      end
  | malformed => Transport.decode_error
  | refused x => Transport.load_raises x
  end.

End MiniJson.

(* ================================================================== *)
(** * Concrete inputs *)
(* ================================================================== *)

Module Examples.

Import MiniJson.

(** The three records of the streaming example and its body:
    the records, an empty line and a malformed line, each ended by a
    line feed. *)
Definition dq : string := String "034" "".
Definition lf : Text.str := [10%N].

Definition record_a : Text.str := Text.str_of ("{" +:+ dq +:+ "a" +:+ dq +:+ ":1}").
Definition record_b : Text.str := Text.str_of ("{" +:+ dq +:+ "b" +:+ dq +:+ ":2}").
Definition record_c : Text.str := Text.str_of ("{" +:+ dq +:+ "c" +:+ dq +:+ ":3}").

Definition stream_body : Text.str :=
  record_a ++ lf ++ lf ++ record_b ++ lf ++ Text.str_of "not-json" ++ lf
  ++ record_c ++ lf.

Definition stream_response : Transport.Response Json :=
  {| Transport.resp_status_code := 200;
     Transport.resp_json := Transport.json_raises;
     Transport.resp_retry_after := None;
     Transport.resp_text := stream_body |}.




(** A clock that advances by one second per reading from [t0], and a random
    source stuck at one half. *)
Definition clock_from (t0 : Z) (k : nat) : Q := inject_Z (t0 + Z.of_nat k).
Definition half (k : nat) : Q := 1 # 2.
Definition randint_const (k : nat) : Z := 4242.

(** The world of the examples: the timeouts, in seconds, of the exchanges
    the network has seen so far. *)
Definition empty_store : Store (list Q) := {| world := []; heap := [] |}.
Definition start : Sys (list Q) :=
  {| store := empty_store; ticks := 0; draws := 0; trace := [] |}.

(** An operation that is never to be reached in an example: it succeeds. *)
Definition succeed (s : Sys (list Q)) : Outcome Z * Sys (list Q) := (Return 0, s).

(** A server that answers every exchange with the same status, an empty
    JSON object as body and no [Retry-After] header. *)
Definition server_always (status : Z) (rq : Transport.Request Json) (w : list Q)
    : Transport.Exchange Json * list Q :=
  (Transport.Responded
     {| Transport.resp_status_code := status;
        Transport.resp_json := Transport.json_dict ∅ (JObj []);
        Transport.resp_retry_after := None;
        Transport.resp_text := Text.str_of "{}" |}, w ++ [Transport.req_timeout rq]).

(** A network on which every exchange fails to connect (a DNS failure). *)
Definition network_down (rq : Transport.Request Json) (w : list Q)
    : Transport.Exchange Json * list Q :=
  (Transport.Failed Transport.httpx_ConnectError, w ++ [Transport.req_timeout rq]).

(** A leaf operation that raises a new [RateLimitError] at every call. *)
Definition always_rate_limited (st : Store (list Q)) : Outcome Z * Store (list Q) :=
  Transport.raise
    (CredLink (RateLimitError_init "Rate limit exceeded" None None no_kwargs)) st.

(** A leaf operation that raises a new [ValidationError] at every call. *)
Definition always_invalid (st : Store (list Q)) : Outcome Z * Store (list Q) :=
  Transport.raise
    (CredLink (ValidationError_init "Request data failed validation" no_kwargs)) st.

(** A leaf operation that raises a new [ServerError] at every call. *)
Definition always_unavailable (st : Store (list Q)) : Outcome Z * Store (list Q) :=
  Transport.raise
    (CredLink (ServerError_init "Server encountered an unexpected error" no_kwargs)) st.

Definition retry_once : RetryConfig :=
  {| max_attempts := 1; base_ms := 250; max_ms := 5000; jitter := true |}.

Definition retry_twice_no_jitter : RetryConfig :=
  {| max_attempts := 2; base_ms := 100; max_ms := 1000; jitter := false |}.

(** [RequestOptions(idempotency_key="k-1")]: options without a timeout. *)
Definition options_without_timeout : RequestOptions.t :=
  {| RequestOptions.timeout := None;
     RequestOptions.idempotency_key := Some "k-1";
     RequestOptions.headers := None;
     RequestOptions.retries := None |}.

(** [RequestOptions(timeout=2000)] *)
Definition options_with_timeout : RequestOptions.t :=
  {| RequestOptions.timeout := Some 2000;
     RequestOptions.idempotency_key := None;
     RequestOptions.headers := None;
     RequestOptions.retries := None |}.

Definition transport : Transport.HttpTransport :=
  Transport.HttpTransport_init (Transport.DEFAULT_CONFIG "test-api-key").

End Examples.


(* ================================================================== *)
(** * types.py: summaries and validators *)
(* ================================================================== *)

Module Validators.

(** [self.__class__.__name__] *)
Definition class_name (c : ErrorClass) : string :=
  match c with
  | AuthError => "AuthError"
  | RateLimitError => "RateLimitError"
  | ConflictError => "ConflictError"
  | ValidationError => "ValidationError"
  | ServerError => "ServerError"
  | NetworkError => "NetworkError"
  end.

(** Truth value of an [Optional[int]] and of an [Optional[str]]. *)
Definition truthy_int (n : option Z) : bool :=
  match n with Some n => negb (n =? 0) | None => false end.

Definition truthy_str (v : option string) : bool :=
  match v with Some v => negb (String.eqb v "") | None => false end.

(** [get_summary]: the method of [CredLinkError] and its overrides in
    [RateLimitError] and [ConflictError], selected by the class. *)
Definition get_summary (e : CredLinkError.t) : string :=
  match CredLinkError.cls e with
  | RateLimitError =>
      let retry_info :=
        if truthy_int (CredLinkError.retry_after e)
        then " (Retry-After="
             +:+ Transport.str_of_Z (default 0 (CredLinkError.retry_after e))
             +:+ "s)"
        else "" in
      "C2C RateLimitError: 429" +:+ retry_info +:+ " - " +:+ CredLinkError.message e
  | ConflictError =>
      let key_info :=
        if truthy_str (CredLinkError.idempotency_key e)
        then " (key=" +:+ default "" (CredLinkError.idempotency_key e) +:+ ")"
        else "" in
      "C2C ConflictError: 409" +:+ key_info +:+ " - " +:+ CredLinkError.message e
  | c =>
      "C2C " +:+ class_name c +:+ ": "
      +:+ Transport.str_of_Z (CredLinkError.status_code e)
      +:+ " - " +:+ CredLinkError.message e
  end.

(** [CredLinkError.get_next_steps], the method of the base class. *)
Definition CredLinkError_get_next_steps : list string :=
  ["Check the API documentation"; "Contact support if the issue persists"].

(** [get_next_steps] of an instance of one of the six subclasses.  Each of
    them overrides the method, so that the one of the base class answers
    only for a direct instance of [CredLinkError], of which [ErrorClass]
    has none. *)
Definition get_next_steps (e : CredLinkError.t) : list string :=
  match CredLinkError.cls e with
  | AuthError =>
      ["Verify your API key is correct";
       "Check the X-API-Key header format";
       "Ensure your API key is active and not expired";
       "Contact support if the issue persists"]
  | RateLimitError =>
      let steps :=
        ["Implement exponential backoff with jitter";
         "Honor the Retry-After header if provided";
         "Consider reducing request frequency"] in
      let steps :=
        if truthy_int (CredLinkError.retry_after e)
        then steps ++ ["Wait "
                       +:+ Transport.str_of_Z (default 0 (CredLinkError.retry_after e))
                       +:+ " seconds before retrying"]
        else steps in
      steps ++ ["Contact support for rate limit increases"]
  | ConflictError =>
      ["Use a different idempotency key for new requests";
       "Check current resource state before retrying";
       "Verify request body matches idempotency key";
       "Consider using a different resource identifier"]
  | ValidationError =>
      ["Check that all required fields are provided";
       "Verify data types and formats match the schema";
       "Check parameter constraints (min/max values)";
       "Review API documentation for request format"]
  | ServerError =>
      ["Retry the request with exponential backoff";
       "Check service status page for outages";
       "Contact support if the issue persists";
       "Consider implementing circuit breaker pattern"]
  | NetworkError =>
      ["Check network connectivity";
       "Verify firewall and proxy settings";
       "Retry with exponential backoff";
       "Check DNS resolution for API endpoint"]
  end.

(** [not v] for a [str]: the empty text is falsy. *)
Definition falsy (v : Text.str) : bool :=
  match v with [] => true | _ :: _ => false end.

(** [ClientConfig.validate_api_key]; [None] stands for the [ValueError]. *)
Definition validate_api_key (v : Text.str) : option Text.str :=
  if falsy v || falsy (Text.strip v)
  then None
  else Some (Text.strip v).

(** The test at the head of [Client.__init__] (c2concierge/client.py):
    [true] when it raises [ValueError("API key is required")]. *)
Definition client_rejects_key (api_key : Text.str) : bool :=
  falsy api_key || falsy (Text.strip api_key).

(** [v.startswith('"')] and [v.endswith('"')] *)
Definition startswith_quote (v : string) : bool :=
  match list_ascii_of_string v with
  | c :: _ => Ascii.eqb c "034"
  | [] => false
  end.

Definition endswith_quote (v : string) : bool :=
  match rev (list_ascii_of_string v) with
  | c :: _ => Ascii.eqb c "034"
  | [] => false
  end.

(** [VerifyAssetRequest.validate_etag]; the outer [None] stands for the
    [ValueError]. *)
Definition validate_etag (v : option string) : option (option string) :=
  match v with
  | Some e =>
      if negb (startswith_quote e && endswith_quote e) then None else Some v
  | None => Some v
  end.

(** [c in '0123456789abcdefABCDEF:'] *)
Definition thumbprint_char (c : ascii) : bool :=
  existsb (Ascii.eqb c) (list_ascii_of_string "0123456789abcdefABCDEF:").

(** The loop of [VerifyAssetRequest.validate_thumbprints]: [false] when an
    item makes it raise. *)
Fixpoint thumbprints_pass (v : list string) : bool :=
  match v with
  | [] => true
  | thumbprint :: v =>
      if String.eqb thumbprint ""
         || negb (forallb thumbprint_char (list_ascii_of_string thumbprint))
      then false
      else thumbprints_pass v
  end.

(** [VerifyAssetRequest.validate_thumbprints]; the outer [None] stands for
    the [ValueError]. *)
Definition validate_thumbprints (v : option (list string))
    : option (option (list string)) :=
  match v with
  | Some items => if thumbprints_pass items then Some v else None
  | None => Some v
  end.

End Validators.

(* ================================================================== *)
(** * Vocabulary for the properties below *)
(* ================================================================== *)

Module Props.

Import Breaker.

(** The shape a breaker has between two calls. *)
Definition breaker_ok (cb : CircuitBreaker) : Prop :=
  1 <= failure_threshold cb /\
  1 <= half_open_max_calls cb /\
  0 <= failure_count (self_state cb) /\
  match get_state cb with
  | closed =>
      failure_count (self_state cb) < failure_threshold cb /\
      half_open_calls cb = 0
  | open => exists t, next_attempt_time (self_state cb) = Some t
  | half_open => 0 <= half_open_calls cb < half_open_max_calls cb
  end.

(** A call is let through: the breaker is not open, or the time of the next
    attempt has come. *)
Definition lets_through (clock : nat -> Q) {W : Type} (cb : CircuitBreaker)
    (s : Sys W) : Prop :=
  get_state cb = open ->
  Qltb (clock (ticks s)) (or_zero (next_attempt_time (self_state cb))) = false.

(** The state in which the operation of a call that is let through starts. *)
Definition entry {W : Type} (clock : nat -> Q) (cb : CircuitBreaker) (s : Sys W)
    : Sys W :=
  match get_state cb with
  | open => snd (time_time clock s)
  | _ => s
  end.

(** Calls made one after the other through the same breaker; the outcomes
    are dropped. *)
Fixpoint execute_all {W R : Type} (clock : nat -> Q)
    (ops : list (Sys W -> Outcome R * Sys W)) (cb : CircuitBreaker) (s : Sys W)
    : CircuitBreaker * Sys W :=
  match ops with
  | [] => (cb, s)
  | op :: ops =>
      let '(_, cb, s) := execute clock op cb s in execute_all clock ops cb s
  end.

Definition always_raises {W R : Type} (op : Sys W -> Outcome R * Sys W) : Prop :=
  forall s, exists error s', op s = (Raise error, s').

Definition always_returns {W R : Type} (op : Sys W -> Outcome R * Sys W) : Prop :=
  forall s, exists v s', op s = (Return v, s').

Definition count_slept (t : list Event) : nat :=
  length (List.filter (fun ev => match ev with Slept _ => true | _ => false end) t).

(** Invocation number [j] of a leaf operation, counted from 0 and started
    from the store [st0], raises an exception that satisfies [p]. *)
Definition fails_at {W R : Type} (p : Exn -> bool)
    (op : Store W -> Outcome R * Store W) (st0 : Store W) (j : nat) : Prop :=
  exists error x st',
    op (Retry.store_before op j st0) = (Raise error, st') /\
    heap st' !! error = Some x /\ p x = true.

(** The machine is about to start attempt [k] of a call of
    [execute_with_retry] that began with store [st0], log [t0], [d0] random
    draws and [tk] clock readings, every earlier attempt having failed. *)
Definition about_to_start {W R : Type} (config : RetryConfig)
    (random_random : nat -> Q) (op : Store W -> Outcome R * Store W)
    (st0 : Store W) (t0 : list Event) (d0 tk : nat)
    (k : nat) (s : Sys W) : Prop :=
  store s = Retry.store_before op k st0 /\
  ticks s = tk /\
  draws s = (d0 + if jitter config then k - 1 else 0)%nat /\
  trace s = t0 ++ match k with
                  | O => []
                  | S j => Retry.expected_trace config random_random d0 j
                  end.

(** The class the transport gives an error response, by its status. *)
Definition class_of_status (status : Z) : ErrorClass :=
  if existsb (Z.eqb status) [401; 403] then AuthError
  else if status =? 409 then ConflictError
  else if status =? 422 then ValidationError
  else if status =? 429 then RateLimitError
  else if existsb (Z.eqb status) [500; 502; 503; 504] then ServerError
  else NetworkError.

(** The [Retry-After] header can be used: it is absent, empty, or an
    integer for [int]. *)
Definition retry_after_usable (py_int : string -> option Z) (h : option string)
    : Prop :=
  match h with
  | Some h => h = "" \/ exists n, py_int h = Some n
  | None => True
  end.

(** What [int(retry_after) if retry_after else None] is then. *)
Definition retry_after_seconds (py_int : string -> option Z) (h : option string)
    : option Z :=
  match h with
  | Some h => if String.eqb h "" then None else py_int h
  | None => None
  end.

(** The [hint] member of an error body. *)
Definition body_hint {R : Type} (response : Transport.Response R) : option string :=
  match Transport.resp_json response with
  | Transport.json_dict entries _ => entries !! "hint"
  | _ => None
  end.

(** The message the transport takes from an error body. *)
Definition body_message {R : Type} (response : Transport.Response R) : string :=
  let fallback := "HTTP " +:+ Transport.str_of_Z (Transport.resp_status_code response) in
  match Transport.resp_json response with
  | Transport.json_dict entries _ =>
      default (default fallback (entries !! "message")) (entries !! "detail")
  | _ => fallback
  end.

(** A line is blank: it holds white space only. *)
Definition is_blank (line : Text.str) : bool := forallb Text.isspace line.

(** The value of a line that the specification counts as a record: the
    line is not blank and [json.loads] decodes it. *)
Definition record_of {R : Type} (json_loads : Text.str -> Transport.Loaded R)
    (line : Text.str) : option R :=
  if is_blank line then None
  else match json_loads line with
       | Transport.loaded v => Some v
       | _ => None
       end.

(** The exception of a line on which the stream ends: the line is not
    blank and [json.loads] raises on it an exception that is no
    [json.JSONDecodeError]. *)
Definition abort_of {R : Type} (json_loads : Text.str -> Transport.Loaded R)
    (line : Text.str) : option Exn :=
  if is_blank line then None
  else match json_loads line with
       | Transport.load_raises x => Some x
       | _ => None
       end.




(** No line boundary in a text. *)
Definition one_line (v : Text.str) : bool :=
  forallb (fun c => negb (Text.is_linebreak c)) v.

(** Records written one per line, each ended by a line feed. *)
Fixpoint ndjson (records : list Text.str) : Text.str :=
  match records with
  | [] => []
  | r :: records => r ++ [10%N] ++ ndjson records
  end.

End Props.

(* ================================================================== *)
(** * More concrete inputs *)
(* ================================================================== *)

Module MoreExamples.

Import MiniJson Examples.

(** A half-open breaker that has seen no probe yet. *)
Definition example_half_open_breaker : Breaker.CircuitBreaker :=
  {| Breaker.name := "http-transport"; Breaker.failure_threshold := 5;
     Breaker.recovery_timeout := 60; Breaker.half_open_max_calls := 3;
     Breaker.half_open_calls := 0;
     Breaker.self_state :=
       {| Breaker.state := Breaker.half_open; Breaker.failure_count := 5;
          Breaker.last_failure_time := Some (100 # 1);
          Breaker.next_attempt_time := Some (160 # 1) |} |}.

Definition new_breaker : Breaker.CircuitBreaker :=
  Breaker.CircuitBreaker_init "http-transport" None None.

(** The machine after fifty readings of the clock. *)
Definition later : Sys (list Q) :=
  {| store := empty_store; ticks := 50; draws := 0; trace := [] |}.

(** An operation that fails with a new [ServerError]. *)
Definition fail (s : Sys (list Q)) : Outcome Z * Sys (list Q) :=
  raise_new (CredLink (ServerError_init "Server encountered an unexpected error"
                         no_kwargs)) s.

(** A leaf operation that is unavailable twice and then answers 7: the
    world counts the exchanges. *)
Definition flaky (st : Store (list Q)) : Outcome Z * Store (list Q) :=
  let st' := {| world := world st ++ [0%Q]; heap := heap st |} in
  if (length (world st) <? 2)%nat
  then Transport.raise
         (CredLink (ServerError_init "Server encountered an unexpected error"
                      no_kwargs)) st'
  else (Return 7, st').

(** A leaf operation that is unavailable once and then rejects the request
    as invalid. *)
Definition flaky_invalid (st : Store (list Q)) : Outcome Z * Store (list Q) :=
  let st' := {| world := world st ++ [0%Q]; heap := heap st |} in
  if (length (world st) <? 1)%nat
  then Transport.raise
         (CredLink (ServerError_init "Server encountered an unexpected error"
                      no_kwargs)) st'
  else Transport.raise
         (CredLink (ValidationError_init "Request data failed validation"
                      no_kwargs)) st'.

(** A 429 response with [Retry-After: 30], and one whose header is a date. *)
Definition response_429 (retry_after : string) : Transport.Response Json :=
  {| Transport.resp_status_code := 429;
     Transport.resp_json := Transport.json_dict ∅ (JObj []);
     Transport.resp_retry_after := Some retry_after;
     Transport.resp_text := Text.str_of "{}" |}.

(** [int] on the two header values of the examples. *)
Definition int_of_header (h : string) : option Z :=
  if String.eqb h "30" then Some 30 else None.

(** A server whose error responses carry an unusable [Retry-After]. *)
Definition server_bad_header (rq : Transport.Request Json) (w : list Q)
    : Transport.Exchange Json * list Q :=
  (Transport.Responded (response_429 "Wed, 21 Oct 2026 07:28:00 GMT"),
   w ++ [Transport.req_timeout rq]).

Definition response_200 : Transport.Response Json :=
  {| Transport.resp_status_code := 200;
     Transport.resp_json := Transport.json_dict ∅ (JObj []);
     Transport.resp_retry_after := None;
     Transport.resp_text := Text.str_of "{}" |}.

(** The transport of the examples with its breaker open until time 160. *)
Definition transport_open : Transport.HttpTransport :=
  Transport.set_circuit_breaker Breaker.example_open_breaker transport.

(** The encoding of the numbers 1 and 2 as JSON texts. *)
Definition encode_small (v : Json) : Text.str :=
  match v with
  | JNum 1 => Text.str_of "1"
  | _ => Text.str_of "2"
  end.

(** A 401 response and a 500 response without body fields. *)
Definition response_401 : Transport.Response Json :=
  {| Transport.resp_status_code := 401;
     Transport.resp_json := Transport.json_raises;
     Transport.resp_retry_after := None;
     Transport.resp_text := [] |}.

Definition response_500 : Transport.Response Json :=
  {| Transport.resp_status_code := 500;
     Transport.resp_json := Transport.json_raises;
     Transport.resp_retry_after := None;
     Transport.resp_text := [] |}.

(** A rate limit error that asks for 60 seconds. *)
Definition rate_limited_60 : CredLinkError.t :=
  RateLimitError_init "Rate limit exceeded" (Some 60) (Some 3)
    {| kw_request_id := Some "test-789"; kw_idempotency_key := None;
       kw_endpoint := None; kw_hint := None |}.

End MoreExamples.

(* ================================================================== *)
(** * Properties of the circuit breaker *)
(* ================================================================== *)

Module BreakerFacts.

Import Breaker.

Lemma Qltb_lt (x y : Q) : Qltb x y = true <-> (x < y)%Q.
Proof.
  unfold Qltb. rewrite negb_true_iff, <- not_true_iff_false, Qle_bool_iff.
  split; [apply Qnot_le_lt | apply Qlt_not_le].
Qed.

Lemma Qltb_ge (x y : Q) : Qltb x y = false <-> (y <= x)%Q.
Proof.
  unfold Qltb. rewrite negb_false_iff. apply Qle_bool_iff.
Qed.

(** [t or 0] is [t] as a number, whatever its representation. *)
Lemma or_zero_Some (t : Q) : (or_zero (Some t) == t)%Q.
Proof.
  unfold or_zero. destruct (Qeq_bool t 0) eqn:E; [|reflexivity].
  apply Qeq_bool_iff in E. symmetry. exact E.
Qed.

Section Facts.

Context {W R : Type}.
Variable clock : nat -> Q.

Lemma get_state_set_half_open_calls n cb :
  get_state (set_half_open_calls n cb) = get_state cb.
Proof. reflexivity. Qed.

(** ** The entry check of [execute] *)

Lemma execute_rejects (operation : Sys W -> Outcome R * Sys W) cb s :
  get_state cb = open ->
  Qltb (clock (ticks s)) (or_zero (next_attempt_time (self_state cb))) = true ->
  execute clock operation cb s =
    (Raise (length (heap (store s))), cb,
     set_store {| world := world (store s);
                  heap := heap (store s) ++ [circuit_open_error cb] |}
       (snd (time_time clock s))).
Proof.
  intros Hopen Hlt. unfold execute. rewrite Hopen. cbn.
  rewrite Hlt. reflexivity.
Qed.

Lemma execute_probes (operation : Sys W -> Outcome R * Sys W) cb s :
  get_state cb = open ->
  Qltb (clock (ticks s)) (or_zero (next_attempt_time (self_state cb))) = false ->
  execute clock operation cb s =
    execute_try clock operation
      (set_half_open_calls 0 (set_state half_open cb)) (snd (time_time clock s)).
Proof.
  intros Hopen Hge. unfold execute. rewrite Hopen. cbn.
  rewrite Hge. reflexivity.
Qed.

(** C1.  A breaker in phase [open] whose [next_attempt_time] is [t]:
    a call of [execute] at a time before [t] raises a new [NetworkError]
    and leaves the breaker, the operation's world and the event log as they
    were, whatever the operation is, so the operation is not invoked.  A call
    at a time at or past [t] first makes of the breaker [cb] the breaker
    [cb'], which is [cb] with phase [half_open] and [half_open_calls = 0]
    and nothing else changed; it then invokes the operation, in the state
    the reading of the clock left, hands on the outcome of the operation,
    value or exception, as the outcome of the call, and has the outcome
    recorded by [cb']: [_on_success] after a value, [_on_failure] after an
    exception. *)
Theorem execute_open_gate :
  forall (operation : Sys W -> Outcome R * Sys W) (cb : CircuitBreaker)
         (s : Sys W) (t : Q),
    get_state cb = open ->
    next_attempt_time (self_state cb) = Some t ->
    ((clock (ticks s) < t)%Q ->
       exists error s',
         execute clock operation cb s = (Raise error, cb, s') /\
         deref s' error = Some (circuit_open_error cb) /\
         isinstance (circuit_open_error cb) [NetworkError] = true /\
         world (store s') = world (store s) /\
         trace s' = trace s /\
         forall operation' : Sys W -> Outcome R * Sys W,
           execute clock operation' cb s = (Raise error, cb, s')) /\
    ((t <= clock (ticks s))%Q ->
       exists cb',
         cb' = set_half_open_calls 0 (set_state half_open cb) /\
         get_state cb' = half_open /\
         half_open_calls cb' = 0 /\
         failure_threshold cb' = failure_threshold cb /\
         recovery_timeout cb' = recovery_timeout cb /\
         half_open_max_calls cb' = half_open_max_calls cb /\
         failure_count (self_state cb') = failure_count (self_state cb) /\
         next_attempt_time (self_state cb') = next_attempt_time (self_state cb) /\
         store (snd (time_time clock s)) = store s /\
         trace (snd (time_time clock s)) = trace s /\
         fst (fst (execute clock operation cb s))
           = fst (operation (snd (time_time clock s))) /\
         (snd (fst (execute clock operation cb s)), snd (execute clock operation cb s))
           = match operation (snd (time_time clock s)) with
             | (Return _, s') => _on_success clock cb' s'
             | (Raise _, s') => _on_failure clock cb' s'
             end).
Proof.
  intros operation cb s t Hopen Hnat. split.
  - intros Hlt.
    assert (Hb : Qltb (clock (ticks s))
                   (or_zero (next_attempt_time (self_state cb))) = true).
    { rewrite Hnat. apply Qltb_lt. rewrite or_zero_Some. exact Hlt. }
    eexists _, _. split; [apply execute_rejects; assumption|].
    repeat split.
    + unfold deref. cbn. now apply (list_lookup_middle _ []).
    + intros operation'. apply execute_rejects; assumption.
  - intros Hge.
    assert (Hb : Qltb (clock (ticks s))
                   (or_zero (next_attempt_time (self_state cb))) = false).
    { rewrite Hnat. apply Qltb_ge. rewrite or_zero_Some. exact Hge. }
    exists (set_half_open_calls 0 (set_state half_open cb)).
    do 10 (split; [reflexivity|]).
    rewrite (execute_probes operation cb s Hopen Hb). unfold execute_try.
    destruct (operation (snd (time_time clock s))) as [[v|error] s1].
    + destruct (_on_success clock _ s1) as [cb2 s2]. split; reflexivity.
    + destruct (_on_failure clock _ s1) as [cb2 s2]. split; reflexivity.
Qed.

(** ** The outcome handlers *)

Lemma on_failure_closed cb (s : Sys W) :
  get_state cb = closed ->
  fst (_on_failure clock cb s) =
    let cb1 := set_last_failure_time (Some (clock (ticks s)))
                 (set_failure_count (failure_count (self_state cb) + 1) cb) in
    if failure_count (self_state cb) + 1 >=? failure_threshold cb
    then set_next_attempt_time
           (Some (clock (S (ticks s)) + inject_Z (recovery_timeout cb))%Q)
           (set_state open cb1)
    else cb1.
Proof.
  intros H. unfold _on_failure, get_state in *. cbn. rewrite H. cbn.
  destruct (_ >=? _); reflexivity.
Qed.

Lemma on_failure_half_open cb (s : Sys W) :
  get_state cb = half_open ->
  fst (_on_failure clock cb s) =
    set_next_attempt_time
      (Some (clock (S (ticks s)) + inject_Z (recovery_timeout cb))%Q)
      (set_state open
         (set_last_failure_time (Some (clock (ticks s)))
            (set_failure_count (failure_count (self_state cb) + 1) cb))).
Proof.
  intros H. unfold _on_failure, get_state in *. cbn. rewrite H. reflexivity.
Qed.

Lemma on_success_closed cb (s : Sys W) :
  get_state cb = closed ->
  _on_success clock cb s =
    (set_half_open_calls 0 (set_failure_count 0 (set_state closed cb)), s).
Proof.
  intros H. unfold _on_success. rewrite H. reflexivity.
Qed.

Lemma on_success_half_open cb (s : Sys W) :
  get_state cb = half_open ->
  _on_success clock cb s =
    if half_open_calls cb + 1 >=? half_open_max_calls cb
    then (set_half_open_calls 0 (set_failure_count 0 (set_state closed
            (set_half_open_calls (half_open_calls cb + 1) cb))), s)
    else (set_half_open_calls (half_open_calls cb + 1) cb, s).
Proof.
  intros H. unfold _on_success. rewrite H. cbn.
  destruct (_ >=? _); reflexivity.
Qed.

(** The handlers never touch the parameters of the breaker. *)
Lemma on_outcome_params o cb (s : Sys W) :
  params_of (fst (on_outcome clock o cb s)) = params_of cb.
Proof.
  destruct o; cbn; unfold _on_success, _on_failure, get_state; cbn.
  - destruct (state (self_state cb)); cbn; try reflexivity.
    destruct (_ >=? _); reflexivity.
  - destruct (state (self_state cb)); cbn; try reflexivity;
      destruct (_ >=? _); reflexivity.
Qed.

Lemma geb_leb (x y : Z) : (x >=? y) = (y <=? x).
Proof. apply Z.geb_leb. Qed.

(** C2.  The outcome handlers of the breaker refine the reference state
    machine.  Started in a phase other than [open] from a breaker that agrees
    with a reference state, handling an outcome leads to a breaker that
    agrees with the state the reference machine steps to, where the time of
    the reference step is the clock reading taken by [_set_state]; when the
    phase was CLOSED the failure counts agree afterwards whatever the new
    phase is.  The parameters are left alone, and a breaker built with the
    defaults has threshold 5, recovery timeout 60 and 3 probes. *)
Theorem on_outcome_refines_reference :
  forall (cb : CircuitBreaker) (a : RefState) (o : Result) (s : Sys W),
    agrees cb a ->
    get_state cb <> open ->
    agrees (fst (on_outcome clock o cb s))
           (ref_step (params_of cb) (clock (S (ticks s))) o a) /\
    (phase a = CLOSED ->
       failure_count (self_state (fst (on_outcome clock o cb s))) =
       ref_failure_count (ref_step (params_of cb) (clock (S (ticks s))) o a)) /\
    params_of (fst (on_outcome clock o cb s)) = params_of cb /\
    params_of (CircuitBreaker_init (name cb) None None) = ref_defaults.
Proof.
  intros cb a o s (Hph & Hnat & Hfc & Hpc) Hnopen.
  split; [|split; [|split; [apply on_outcome_params | reflexivity]]].
  - destruct (get_state cb) eqn:Hst; [| congruence |]; cbn in Hph;
      symmetry in Hph; destruct o; cbn [on_outcome].
    + (* closed, success *)
      rewrite on_success_closed by assumption. unfold ref_step. rewrite Hph.
      unfold agrees; cbn. repeat split; try assumption; try congruence.
    + (* closed, failure *)
      rewrite on_failure_closed by assumption. unfold ref_step. rewrite Hph.
      cbn zeta. rewrite geb_leb, <- (Hfc Hph). cbn [params_of ref_failure_threshold ref_recovery_timeout].
      destruct (_ <=? _); unfold agrees, get_state in *; cbn; rewrite ?Hst; cbn;
        repeat split; try assumption; try congruence.
    + (* half open, success *)
      rewrite on_success_half_open by assumption. unfold ref_step. rewrite Hph.
      cbn zeta. rewrite geb_leb, <- (Hpc Hph). cbn [params_of ref_half_open_max_calls].
      destruct (_ <=? _); unfold agrees, get_state in *; cbn; rewrite ?Hst; cbn;
        repeat split; try assumption; try congruence.
    + (* half open, failure *)
      rewrite on_failure_half_open by assumption. unfold ref_step. rewrite Hph.
      unfold agrees; cbn. repeat split; try congruence.
  - intros Hc. assert (Hst : get_state cb = closed).
    { destruct (get_state cb); cbn in Hph; congruence. }
    destruct o; cbn [on_outcome].
    + rewrite on_success_closed by assumption. unfold ref_step. rewrite Hc.
      reflexivity.
    + rewrite on_failure_closed by assumption. unfold ref_step. rewrite Hc.
      cbn zeta. rewrite geb_leb, <- (Hfc Hc). cbn [params_of ref_failure_threshold].
      destruct (_ <=? _); reflexivity.
Qed.

(** ** Runs of equal outcomes *)

Lemma on_outcomes_app (os1 os2 : list Result) :
  forall (cb : CircuitBreaker) (s : Sys W),
    on_outcomes clock (os1 ++ os2) cb s
    = on_outcomes clock os2 (fst (on_outcomes clock os1 cb s))
        (snd (on_outcomes clock os1 cb s)).
Proof.
  induction os1 as [|o os1 IH]; intros cb s; [reflexivity|].
  cbn [app on_outcomes]. destruct (on_outcome clock o cb s). apply IH.
Qed.

(** Failures that stay below the threshold leave a closed breaker closed and
    are counted. *)
Lemma closed_failures_counted (k : nat) :
  forall (cb : CircuitBreaker) (s : Sys W),
    get_state cb = closed ->
    failure_count (self_state cb) + Z.of_nat k < failure_threshold cb ->
    get_state (fst (on_outcomes clock (repeat Failure k) cb s)) = closed /\
    failure_count (self_state (fst (on_outcomes clock (repeat Failure k) cb s)))
      = failure_count (self_state cb) + Z.of_nat k /\
    params_of (fst (on_outcomes clock (repeat Failure k) cb s)) = params_of cb.
Proof.
  induction k as [|k IH]; intros cb s Hst Hlt.
  - cbn [repeat on_outcomes fst]. split; [exact Hst | split; [lia | reflexivity]].
  - cbn [repeat on_outcomes on_outcome].
    pose proof (on_failure_closed cb s Hst) as Hf. cbn zeta in Hf.
    replace (failure_count (self_state cb) + 1 >=? failure_threshold cb)
      with false in Hf by (symmetry; rewrite Z.geb_leb; apply Z.leb_gt; lia).
    destruct (_on_failure clock cb s) as [cb1 s1]. cbn [fst] in Hf. subst cb1.
    destruct (IH (set_last_failure_time (Some (clock (ticks s)))
                    (set_failure_count (failure_count (self_state cb) + 1) cb)) s1)
      as (H1 & H2 & H3).
    + exact Hst.
    + cbn. lia.
    + rewrite H1, H2, H3. cbn. repeat split. lia.
Qed.

(** The failure that brings the count of a closed breaker to the threshold
    opens it: after [failure_threshold] failures in a row, and not before,
    a breaker that started closed with a count of 0 is open. *)
Lemma closed_failures_open (cb : CircuitBreaker) (s : Sys W) :
  get_state cb = closed ->
  failure_count (self_state cb) = 0 ->
  1 <= failure_threshold cb ->
  get_state (fst (on_outcomes clock
                    (repeat Failure (Z.to_nat (failure_threshold cb))) cb s)) = open /\
  forall k, (k < Z.to_nat (failure_threshold cb))%nat ->
    get_state (fst (on_outcomes clock (repeat Failure k) cb s)) = closed.
Proof.
  intros Hst Hfc Hth. split.
  - replace (Z.to_nat (failure_threshold cb))
      with (Z.to_nat (failure_threshold cb) - 1 + 1)%nat by lia.
    rewrite repeat_app. cbn [repeat].
    set (k := (Z.to_nat (failure_threshold cb) - 1)%nat).
    destruct (closed_failures_counted k cb s Hst ltac:(lia)) as (H1 & H2 & H3).
    rewrite on_outcomes_app. cbn [on_outcomes on_outcome].
    destruct (on_outcomes clock (repeat Failure k) cb s) as [cb1 s1].
    cbn [fst snd] in *.
    pose proof (on_failure_closed cb1 s1 H1) as Hf. cbn zeta in Hf.
    assert (Hthr : failure_threshold cb1 = failure_threshold cb).
    { change (ref_failure_threshold (params_of cb1)
              = ref_failure_threshold (params_of cb)). rewrite H3. reflexivity. }
    replace (failure_count (self_state cb1) + 1 >=? failure_threshold cb1)
      with true in Hf by (symmetry; rewrite Z.geb_leb; apply Z.leb_le; lia).
    destruct (_on_failure clock cb1 s1) as [cb2 s2]. cbn [fst] in *.
    subst cb2. reflexivity.
  - intros k Hk.
    apply (closed_failures_counted k cb s Hst). lia.
Qed.

(** Successes that stay below [half_open_max_calls] leave a half-open
    breaker half-open and are counted. *)
Lemma half_open_successes_counted (k : nat) :
  forall (cb : CircuitBreaker) (s : Sys W),
    get_state cb = half_open ->
    half_open_calls cb + Z.of_nat k < half_open_max_calls cb ->
    on_outcomes clock (repeat Success k) cb s
    = (set_half_open_calls (half_open_calls cb + Z.of_nat k) cb, s).
Proof.
  induction k as [|k IH]; intros cb s Hst Hlt.
  - cbn. destruct cb; cbn. rewrite Z.add_0_r. reflexivity.
  - cbn [repeat on_outcomes on_outcome].
    rewrite (on_success_half_open cb s Hst).
    replace (half_open_calls cb + 1 >=? half_open_max_calls cb)
      with false by (symmetry; rewrite Z.geb_leb; apply Z.leb_gt; lia).
    rewrite IH.
    + unfold set_half_open_calls. cbn [name failure_threshold recovery_timeout
        half_open_max_calls half_open_calls self_state].
      do 2 f_equal. lia.
    + exact Hst.
    + cbn. lia.
Qed.

(** After [half_open_max_calls] successes in a row a breaker that has just
    become half-open is closed with a failure count of 0; before that it is
    still half-open. *)
Lemma half_open_successes_close (cb : CircuitBreaker) (s : Sys W) :
  get_state cb = half_open ->
  half_open_calls cb = 0 ->
  1 <= half_open_max_calls cb ->
  get_state (fst (on_outcomes clock
                    (repeat Success (Z.to_nat (half_open_max_calls cb))) cb s))
    = closed /\
  failure_count (self_state (fst (on_outcomes clock
                    (repeat Success (Z.to_nat (half_open_max_calls cb))) cb s)))
    = 0 /\
  forall k, (k < Z.to_nat (half_open_max_calls cb))%nat ->
    get_state (fst (on_outcomes clock (repeat Success k) cb s)) = half_open.
Proof.
  intros Hst Hhc Hmax.
  assert (Hlast : forall k, (S k = Z.to_nat (half_open_max_calls cb))%nat ->
            on_outcomes clock (repeat Success (S k)) cb s
            = (set_half_open_calls 0 (set_failure_count 0 (set_state closed
                 (set_half_open_calls (Z.of_nat k + 1) cb))), s)).
  { intros k Hk.
    replace (S k) with (k + 1)%nat by lia. rewrite repeat_app.
    rewrite on_outcomes_app, (half_open_successes_counted k cb s Hst) by lia.
    cbn [fst snd repeat on_outcomes on_outcome].
    rewrite on_success_half_open by exact Hst.
    cbn [half_open_calls set_half_open_calls half_open_max_calls].
    replace (half_open_calls cb + Z.of_nat k + 1 >=? half_open_max_calls cb)
      with true by (symmetry; rewrite Z.geb_leb; apply Z.leb_le; lia).
    rewrite Hhc. reflexivity. }
  destruct (Z.to_nat (half_open_max_calls cb)) as [|k] eqn:Hk; [lia|].
  rewrite (Hlast k eq_refl). cbn. repeat split.
  intros j Hj. rewrite half_open_successes_counted by (assumption || lia).
  exact Hst.
Qed.

End Facts.

(** A breaker opened at time 100 for 60 seconds: a call at time 100 is
    rejected; a call at time 200 goes through as the first probe, returns
    what the operation returns and leaves the breaker half open with one
    successful probe on record. *)
Lemma execute_open_gate_witness :
  (exists error s',
     execute (Examples.clock_from 100) Examples.succeed
       example_open_breaker Examples.start
     = (Raise error, example_open_breaker, s') /\
     deref s' error = Some (circuit_open_error example_open_breaker)) /\
  (fst (fst (execute (Examples.clock_from 200) Examples.succeed
               example_open_breaker Examples.start)) = Return 0 /\
   snd (fst (execute (Examples.clock_from 200) Examples.succeed
               example_open_breaker Examples.start))
   = set_half_open_calls 1 (set_state half_open example_open_breaker)).
Proof.
  split.
  - destruct (execute_open_gate (Examples.clock_from 100) Examples.succeed
                example_open_breaker Examples.start (160 # 1)
                eq_refl eq_refl) as [H _].
    destruct (H ltac:(reflexivity)) as (error & s' & He & Hd & _).
    exists error, s'. split; assumption.
  - destruct (execute_open_gate (Examples.clock_from 200) Examples.succeed
                example_open_breaker Examples.start (160 # 1)
                eq_refl eq_refl) as [_ H].
    destruct (H ltac:(discriminate))
      as (cb' & -> & _ & _ & _ & _ & _ & _ & _ & _ & _ & Ho & Hcb).
    split; [exact Ho|].
    exact (f_equal fst Hcb).
Defined.

(** A closed breaker with four failures on record fails once more: it opens,
    as the reference machine does. *)
Lemma on_outcome_refines_reference_witness :
  agrees
    (fst (on_outcome (Examples.clock_from 100) Failure
            example_closed_breaker Examples.start))
    (ref_step (params_of example_closed_breaker)
       (Examples.clock_from 100 1) Failure example_closed_ref).
Proof.
  apply (on_outcome_refines_reference (Examples.clock_from 100)
           example_closed_breaker example_closed_ref Failure Examples.start).
  - unfold agrees; cbn. repeat split; intros; congruence.
  - discriminate.
Defined.

End BreakerFacts.

(* ================================================================== *)
(** * Properties of the retry handler *)
(* ================================================================== *)

Module RetryFacts.

Import Retry.

(** ** Backoff delays *)

Lemma Qmin_scale (x y : Q) :
  (Qmin (x / 1000) (y / 1000) == Qmin x y / 1000)%Q.
Proof.
  destruct (Qlt_le_dec y x) as [H|H].
  - rewrite !Q.min_r; [reflexivity | apply Qlt_le_weak, H |].
    apply Qmult_le_compat_r; [apply Qlt_le_weak, H | discriminate].
  - rewrite !Q.min_l; [reflexivity | exact H |].
    apply Qmult_le_compat_r; [exact H | discriminate].
Qed.

Lemma Qmin_inject_Z (x y : Z) :
  (Qmin (inject_Z x) (inject_Z y) == inject_Z (Z.min x y))%Q.
Proof.
  destruct (Z.le_ge_cases x y) as [H|H].
  - rewrite Z.min_l by exact H. apply Q.min_l. rewrite <- Zle_Qle. exact H.
  - rewrite Z.min_r by exact H. apply Q.min_r. rewrite <- Zle_Qle. exact H.
Qed.

Section Delay.

Variable config : RetryConfig.

Lemma exponential_delay_int (attempt : Z) :
  1 <= attempt ->
  (exponential_delay config attempt ==
   inject_Z (base_ms config * 2 ^ (attempt - 1)) / 1000)%Q.
Proof.
  intros H. unfold exponential_delay.
  rewrite inject_Z_mult, Zpower_Qpower by lia. reflexivity.
Qed.

Lemma exponential_delay_nonneg (attempt : Z) :
  0 <= base_ms config ->
  (0 <= exponential_delay config attempt)%Q.
Proof.
  intros H. unfold exponential_delay.
  apply Qle_shift_div_l; [reflexivity|]. rewrite Qmult_0_l.
  apply Qmult_le_0_compat.
  - change 0%Q with (inject_Z 0). rewrite <- Zle_Qle. exact H.
  - apply Qpower_0_le. discriminate.
Qed.

Lemma max_seconds_nonneg :
  0 <= max_ms config -> (0 <= inject_Z (max_ms config) / 1000)%Q.
Proof.
  intros H. apply Qle_shift_div_l; [reflexivity|]. rewrite Qmult_0_l.
  change 0%Q with (inject_Z 0). rewrite <- Zle_Qle. exact H.
Qed.

Lemma delay_bound_eq (attempt : Z) :
  1 <= attempt ->
  (Qmin (exponential_delay config attempt) (inject_Z (max_ms config) / 1000)
   == delay_bound config attempt)%Q.
Proof.
  intros H. unfold delay_bound.
  rewrite (Q.min_compat _ _ (exponential_delay_int attempt H) _ _ (Qeq_refl _)).
  rewrite Qmin_scale, Qmin_inject_Z. reflexivity.
Qed.

Lemma delay_of_bounds (attempt : Z) (r : Q) :
  0 <= base_ms config -> 0 <= max_ms config -> 1 <= attempt ->
  (0 <= r)%Q -> (r < 1)%Q ->
  (0 <= delay_of config attempt r)%Q /\
  (delay_of config attempt r <= delay_bound config attempt)%Q /\
  (jitter config = false -> delay_of config attempt r == delay_bound config attempt)%Q.
Proof.
  intros Hb Hm Ha Hr0 Hr1.
  pose proof (exponential_delay_nonneg attempt Hb) as He.
  pose proof (max_seconds_nonneg Hm) as Hs.
  unfold delay_of. destruct (jitter config).
  - split; [|split; [|discriminate]].
    + apply Q.min_glb; [|exact Hs]. apply Qmult_le_0_compat; assumption.
    + rewrite <- (delay_bound_eq attempt Ha).
      apply Q.min_le_compat_r.
      rewrite <- (Qmult_1_l (exponential_delay config attempt)) at 2.
      apply Qmult_le_compat_r; [apply Qlt_le_weak, Hr1 | exact He].
  - rewrite (delay_bound_eq attempt Ha). split; [|split].
    + rewrite <- (delay_bound_eq attempt Ha). apply Q.min_glb; assumption.
    + apply Qle_refl.
    + reflexivity.
Qed.

End Delay.

Section Facts.

Context {W R : Type}.
Variable config : RetryConfig.
Variable random_random : nat -> Q.

(** C4.  For a configuration that satisfies the constraints of
    [RetryConfig], an attempt number of at least 1 and a random source with
    values in [0, 1), the delay [_calculate_delay] returns lies between 0 and
    [min(base_ms * 2^(attempt-1), max_ms) / 1000] seconds, and equals that
    bound when jitter is off. *)
Theorem calculate_delay_bounds :
  forall (attempt : Z) (s : Sys W),
    RetryConfig_valid config ->
    1 <= attempt ->
    (forall k, 0 <= random_random k /\ random_random k < 1)%Q ->
    (0 <= fst (_calculate_delay config random_random attempt s))%Q /\
    (fst (_calculate_delay config random_random attempt s)
       <= delay_bound config attempt)%Q /\
    (jitter config = false ->
       fst (_calculate_delay config random_random attempt s)
         == delay_bound config attempt)%Q.
Proof.
  intros attempt s (_ & Hb & Hm) Ha Hr.
  assert (Hd : exists r, (0 <= r)%Q /\ (r < 1)%Q /\
            fst (_calculate_delay config random_random attempt s)
            = delay_of config attempt r).
  { unfold _calculate_delay. destruct (jitter config).
    - exists (random_random (draws s)). destruct (Hr (draws s)). auto.
    - exists 0%Q. split; [apply Qle_refl | split; reflexivity]. }
  destruct Hd as (r & Hr0 & Hr1 & ->).
  apply delay_of_bounds; try assumption; lia.
Qed.

End Facts.

(** ** The retry loop on an operation that always fails *)

Section Loop.

Context {W R : Type}.
Variable config : RetryConfig.
Variable random_random : nat -> Q.
Variable op : Store W -> Outcome R * Store W.
Variable is_retryable : Exn -> bool.

Lemma store_annotation (s : Sys W) (attempt : Z) (error : ref) :
  store (if test (fun x => isinstance x [RateLimitError]) s error
         then setattr_attempt_count error (attempt + 1) s else s)
  = annotate attempt error (store s).
Proof.
  unfold test, setattr_attempt_count, annotate, deref.
  destruct (heap (store s) !! error) as [[e|f]|]; cbn; try reflexivity.
  rewrite orb_false_r. destruct (ErrorClass_eqb _ _); reflexivity.
Qed.

Lemma annotation_frame (s : Sys W) (attempt : Z) (error : ref) :
  let s' := if test (fun x => isinstance x [RateLimitError]) s error
            then setattr_attempt_count error (attempt + 1) s else s in
  ticks s' = ticks s /\ draws s' = draws s /\ trace s' = trace s.
Proof.
  cbn. unfold setattr_attempt_count.
  destruct (test _ s error); [|auto].
  destruct (deref s error) as [[e|f]|]; auto.
Qed.

(** The state in which the operation of attempt [k] is invoked. *)
Lemma before_attempt (t0 : list Event) (d0 k : nat) (s : Sys W) :
  draws s = (d0 + if jitter config then k - 1 else 0)%nat ->
  trace s = t0 ++ match k with
                  | O => []
                  | S j => expected_trace config random_random d0 j
                  end ->
  let s1 := if 0 <? Z.of_nat k
            then let '(delay, s) :=
                   _calculate_delay config random_random (Z.of_nat k) s in
                 sleep delay s
            else s in
  store s1 = store s /\ ticks s1 = ticks s /\
  draws s1 = (d0 + if jitter config then k else 0)%nat /\
  trace s1 ++ [Invoked] = t0 ++ expected_trace config random_random d0 k.
Proof.
  intros Hd Ht. destruct k as [|j].
  - change (0 <? Z.of_nat 0) with false. cbn iota zeta.
    rewrite Ht. destruct (jitter config); cbn in *; repeat split;
      try lia; rewrite ?app_nil_r; reflexivity.
  - replace (0 <? Z.of_nat (S j)) with true by (symmetry; apply Z.ltb_lt; lia).
    cbn [expected_trace]. unfold _calculate_delay, backoff, delay_of in *.
    destruct (jitter config); cbn; rewrite Ht, Hd.
    + replace (d0 + S j - 1)%nat with (d0 + (S j - 1))%nat by lia.
      repeat split; try lia. rewrite <- !app_assoc. reflexivity.
    + repeat split. rewrite <- !app_assoc. reflexivity.
Qed.

Lemma retry_loop_always_fails (st0 : Store W) (t0 : list Event) (d0 tk : nat) :
  fails_with is_retryable op ->
  0 <= max_attempts config ->
  forall (m k : nat) (s : Sys W) (last_error : option ref),
    (k + m = S (Z.to_nat (max_attempts config)))%nat ->
    (0 < m)%nat ->
    store s = store_before op k st0 ->
    ticks s = tk ->
    draws s = (d0 + if jitter config then k - 1 else 0)%nat ->
    trace s = t0 ++ match k with
                    | O => []
                    | S j => expected_trace config random_random d0 j
                    end ->
    exists error s',
      retry_loop config random_random (instrument op) is_retryable
        (max_attempts config) (map Z.of_nat (seq k m)) last_error s
      = (Raise error, s') /\
      op (store_before op (Z.to_nat (max_attempts config)) st0)
      = (Raise error, store s') /\
      trace s' = t0 ++ expected_trace config random_random d0
                         (Z.to_nat (max_attempts config)) /\
      ticks s' = tk /\
      draws s' = (d0 + if jitter config
                       then Z.to_nat (max_attempts config) else 0)%nat.
Proof.
  intros Hfail Hmax. induction m as [|m IH]; intros k s last_error Hkm Hm Hst Htk Hd Ht.
  - lia.
  - cbn [seq map retry_loop].
    destruct (before_attempt t0 d0 k s Hd Ht) as (Hst1 & Htk1 & Hd1 & Ht1).
    set (s1 := if 0 <? Z.of_nat k then _ else s) in *.
    unfold instrument at 1.
    destruct (Hfail (store s1)) as (error & x & st' & Hop & Hx & Hr).
    rewrite Hop.
    set (s2 := log Invoked (set_store st' s1)).
    assert (Htest : test is_retryable s2 error = true).
    { unfold test, deref. cbn. rewrite Hx. exact Hr. }
    rewrite Htest. cbn [negb]. rewrite orb_false_r.
    destruct (Z.of_nat k =? max_attempts config) eqn:Hk.
    + apply Z.eqb_eq in Hk. assert (k = Z.to_nat (max_attempts config)) by lia.
      subst k. exists error, s2. cbn [raise_ref]. repeat split.
      * rewrite <- Hst, <- Hst1. exact Hop.
      * cbn. exact Ht1.
      * cbn. congruence.
      * cbn. exact Hd1.
    + apply Z.eqb_neq in Hk.
      pose proof (store_annotation s2 (Z.of_nat k) error) as Hsa.
      destruct (annotation_frame s2 (Z.of_nat k) error) as (Hf1 & Hf2 & Hf3).
      cbn zeta in Hf1, Hf2, Hf3.
      set (s3 := if test _ s2 error then _ else s2) in *.
      apply (IH (S k) s3 (Some error)).
      * lia.
      * lia.
      * rewrite Hsa. cbn [store_before]. rewrite <- Hst, <- Hst1, Hop. reflexivity.
      * rewrite Hf1. cbn. congruence.
      * rewrite Hf2. cbn. rewrite Hd1.
        destruct (jitter config); lia.
      * rewrite Hf3. cbn. exact Ht1.
Qed.

Lemma count_invoked_app (t1 t2 : list Event) :
  count_invoked (t1 ++ t2) = (count_invoked t1 + count_invoked t2)%nat.
Proof. unfold count_invoked. rewrite List.filter_app, length_app. reflexivity. Qed.

Lemma count_invoked_expected (d n : nat) :
  count_invoked (expected_trace config random_random d n) = S n.
Proof.
  induction n as [|n IH]; [reflexivity|].
  cbn [expected_trace]. rewrite count_invoked_app, IH. cbn. lia.
Qed.

(** [execute_with_retry] on an operation that fails retryably at every
    invocation. *)
Lemma execute_with_retry_always_fails (context : string) (s : Sys W) :
  fails_with is_retryable op ->
  0 <= max_attempts config ->
  exists error s',
    execute_with_retry config random_random (instrument op) is_retryable
      context s = (Raise error, s') /\
    op (store_before op (Z.to_nat (max_attempts config)) (store s))
    = (Raise error, store s') /\
    trace s' = trace s ++ expected_trace config random_random (draws s)
                            (Z.to_nat (max_attempts config)) /\
    count_invoked (trace s') =
      (count_invoked (trace s) + S (Z.to_nat (max_attempts config)))%nat.
Proof.
  intros Hfail Hmax. unfold execute_with_retry, range.
  replace (Z.to_nat (max_attempts config + 1))
    with (S (Z.to_nat (max_attempts config))) by lia.
  destruct (retry_loop_always_fails (store s) (trace s) (draws s) (ticks s)
              Hfail Hmax (S (Z.to_nat (max_attempts config))) 0%nat s None)
    as (error & s' & Hrun & Hop & Ht & _ & _).
  - lia.
  - lia.
  - reflexivity.
  - reflexivity.
  - destruct (jitter config); cbn; lia.
  - cbn. rewrite app_nil_r. reflexivity.
  - exists error, s'. repeat split; try assumption.
    rewrite Ht, count_invoked_app, count_invoked_expected. reflexivity.
Qed.

End Loop.

Section Main.

Context {W R : Type}.

(** C3.  With [max_attempts = N >= 1] and a leaf operation that raises a
    retryable exception at every invocation, [execute_with_retry] invokes the
    operation [N + 1] times: the events it adds to the log are the first
    invocation, then for each attempt [1..N] the sleep of that attempt's
    backoff delay followed by an invocation.  It raises the reference that
    the last of these invocations raised, with the store as that invocation
    left it. *)
Theorem execute_with_retry_exhausts :
  forall (N : Z) (config : RetryConfig) (random_random : nat -> Q)
         (op : Store W -> Outcome R * Store W) (is_retryable : Exn -> bool)
         (context : string) (s : Sys W),
    max_attempts config = N ->
    1 <= N ->
    fails_with is_retryable op ->
    exists error s',
      execute_with_retry config random_random (instrument op) is_retryable
        context s = (Raise error, s') /\
      trace s' = trace s ++ expected_trace config random_random (draws s) (Z.to_nat N) /\
      count_invoked (trace s') = (count_invoked (trace s) + Z.to_nat (N + 1))%nat /\
      op (store_before op (Z.to_nat N) (store s)) = (Raise error, store s').
Proof.
  intros N config random_random op is_retryable context s HN Hpos Hfail.
  destruct (execute_with_retry_always_fails config random_random op
              is_retryable context s Hfail ltac:(lia))
    as (error & s' & Hrun & Hop & Ht & Hc).
  subst N. exists error, s'. repeat split; try assumption.
  rewrite Hc. f_equal. lia.
Qed.

End Main.

Lemma raise_fails_with {W R : Type} (p : Exn -> bool) (x : Exn) :
  p x = true -> fails_with (W := W) (R := R) p (Transport.raise x).
Proof.
  intros Hp st. exists (length (heap st)), x, (snd (alloc x st)).
  repeat split; [|exact Hp]. cbn. now apply (list_lookup_middle _ []).
Qed.

(** Two retries without jitter against a server that is always
    unavailable: three invocations, after delays of 0.1 and 0.2 seconds. *)
Lemma execute_with_retry_exhausts_witness :
  exists error s',
    execute_with_retry Examples.retry_twice_no_jitter Examples.half
      (instrument Examples.always_unavailable) (fun _ => true)
      "GET /verify" Examples.start = (Raise error, s') /\
    trace s' = [Invoked; Slept (Qmin (100 * 2 ^ 0 / 1000) (1000 / 1000)); Invoked;
                Slept (Qmin (100 * 2 ^ 1 / 1000) (1000 / 1000)); Invoked].
Proof.
  destruct (execute_with_retry_exhausts 2 Examples.retry_twice_no_jitter
              Examples.half Examples.always_unavailable (fun _ => true)
              "GET /verify" Examples.start eq_refl ltac:(lia)
              (raise_fails_with _ _ eq_refl))
    as (error & s' & Hrun & Ht & _).
  exists error, s'. split; [exact Hrun | exact Ht].
Defined.

(** The default configuration, third attempt, a draw of one half. *)
Lemma calculate_delay_bounds_witness :
  (0 <= fst (_calculate_delay RetryConfig_default Examples.half 3 Examples.start))%Q /\
  (fst (_calculate_delay RetryConfig_default Examples.half 3 Examples.start)
     <= delay_bound RetryConfig_default 3)%Q.
Proof.
  destruct (calculate_delay_bounds RetryConfig_default Examples.half 3
              Examples.start) as (H0 & H1 & _).
  - unfold RetryConfig_valid; cbn; lia.
  - lia.
  - intros k. split; [discriminate | reflexivity].
  - split; assumption.
Defined.

End RetryFacts.

(* ================================================================== *)
(** * Properties of [str.strip] and [str.splitlines] *)
(* ================================================================== *)

Module TextFacts.

Import Text.

Lemma lstrip_nil_iff (l : str) :
  lstrip l = [] <-> forallb isspace l = true.
Proof.
  induction l as [|c l IH]; cbn [lstrip forallb]; [tauto|].
  destruct (isspace c); cbn [andb]; [exact IH|]. split; discriminate.
Qed.

Lemma lstrip_head (l : str) (c : N) (t : str) :
  lstrip l = c :: t -> isspace c = false.
Proof.
  induction l as [|x l IH]; cbn [lstrip]; [discriminate|].
  destruct (isspace x) eqn:E; [exact IH|].
  intros H. injection H as -> _. exact E.
Qed.

Lemma lstrip_fixed (l : str) :
  match l with c :: _ => isspace c = false | [] => True end ->
  lstrip l = l.
Proof.
  destruct l as [|c l]; cbn [lstrip]; [reflexivity|]. intros ->. reflexivity.
Qed.

Lemma lstrip_idem (l : str) : lstrip (lstrip l) = lstrip l.
Proof.
  apply lstrip_fixed. destruct (lstrip l) as [|c t] eqn:E; [exact I|].
  exact (lstrip_head l c t E).
Qed.

Lemma lstrip_snoc (a : str) (c : N) :
  isspace c = false -> lstrip (a ++ [c]) = lstrip a ++ [c].
Proof.
  intros Hc. induction a as [|x a IH]; cbn [app lstrip]; [rewrite Hc; reflexivity|].
  destruct (isspace x); [exact IH | reflexivity].
Qed.

Lemma forallb_rev {A : Type} (p : A -> bool) (l : list A) :
  forallb p (rev l) = forallb p l.
Proof.
  induction l as [|x l IH]; [reflexivity|].
  cbn [rev forallb]. rewrite forallb_app, IH. cbn. rewrite andb_true_r.
  apply andb_comm.
Qed.

(** What [strip] leaves: nothing exactly of a text of white space, and
    otherwise a text without white space at either end. *)
Lemma strip_shape (l : str) :
  (strip l = [] <-> forallb isspace l = true) /\
  lstrip (strip l) = strip l /\
  lstrip (rev (strip l)) = rev (strip l).
Proof.
  unfold strip, rstrip. split; [|split].
  - rewrite <- lstrip_nil_iff.
    destruct (lstrip l) as [|c t] eqn:E; [cbn; tauto|].
    pose proof (lstrip_head l c t E) as Hc.
    cbn [rev]. rewrite lstrip_snoc by exact Hc. rewrite rev_app_distr. cbn.
    split; discriminate.
  - destruct (lstrip l) as [|c t] eqn:E; [reflexivity|].
    pose proof (lstrip_head l c t E) as Hc.
    cbn [rev]. rewrite lstrip_snoc by exact Hc. rewrite rev_app_distr.
    cbn [rev app]. apply lstrip_fixed. exact Hc.
  - rewrite rev_involutive. apply lstrip_idem.
Qed.

Lemma strip_blank (l : str) : strip l = [] <-> Props.is_blank l = true.
Proof. apply strip_shape. Qed.

Lemma strip_strip (l : str) : strip (strip l) = strip l.
Proof.
  destruct (strip_shape l) as (_ & H1 & H2).
  unfold strip at 1. unfold rstrip. rewrite H1, H2, rev_involutive. reflexivity.
Qed.

(** A text without line boundary, followed by a line feed, is one line. *)
Lemma splitlines_record (r : str) :
  forall (cur rest : str),
    Props.one_line r = true ->
    splitlines_from cur (r ++ 10%N :: rest)
    = (cur ++ r) :: splitlines_from [] rest.
Proof.
  induction r as [|c r IH]; intros cur rest Hr.
  - cbn [app splitlines_from]. change (is_linebreak 10) with true. cbn iota.
    rewrite app_nil_r. f_equal. destruct rest as [|c' rest']; reflexivity.
  - cbn [Props.one_line forallb] in Hr. apply andb_true_iff in Hr.
    destruct Hr as [Hc Hr]. apply negb_true_iff in Hc.
    cbn [app splitlines_from]. rewrite Hc.
    rewrite (IH (cur ++ [c]) rest Hr). rewrite <- app_assoc. reflexivity.
Qed.

Lemma splitlines_ndjson (records : list str) :
  Forall (fun r => Props.one_line r = true) records ->
  splitlines (Props.ndjson records) = records.
Proof.
  unfold splitlines. induction records as [|r records IH]; intros Hall.
  - reflexivity.
  - inversion Hall as [|? ? Hr Hrest]; subst. cbn [Props.ndjson app].
    rewrite splitlines_record by exact Hr. cbn [app].
    rewrite IH by exact Hrest. reflexivity.
Qed.

End TextFacts.

(* ================================================================== *)
(** * Properties of the HTTP transport *)
(* ================================================================== *)

Module TransportFacts.

Import Retry Transport.

(** ** The retry predicate *)

Lemma retry_predicate_refuses (method : string) (x : Exn) :
  isinstance x [AuthError; ConflictError; ValidationError] = true ->
  _create_retry_predicate method x = false.
Proof.
  destruct x as [e|f]; cbn; [|discriminate].
  unfold _create_retry_predicate; cbn.
  destruct (CredLinkError.cls e); cbn; congruence.
Qed.

Lemma retry_predicate_accepts (method : string) (x : Exn) :
  isinstance x [RateLimitError; ServerError; NetworkError] = true ->
  _create_retry_predicate method x = true.
Proof.
  destruct x as [e|f]; cbn; [|discriminate].
  unfold _create_retry_predicate; cbn.
  destruct (CredLinkError.cls e); cbn; congruence.
Qed.

Lemma fails_with_weaken {W R : Type} (p q : Exn -> bool)
    (op : Store W -> Outcome R * Store W) :
  (forall x, p x = true -> q x = true) -> fails_with p op -> fails_with q op.
Proof.
  intros Hpq Hp st. destruct (Hp st) as (error & x & st' & H1 & H2 & H3).
  exists error, x, st'. auto.
Qed.

Section Main.

Context {W R : Type}.

(** C5.  Under the transport's retry predicate and a valid retry
    configuration: when the first invocation raises an [AuthError], a
    [ConflictError] or a [ValidationError], [execute_with_retry] raises that
    very exception after this one invocation, without sleeping, whatever
    [max_attempts] is; when every invocation raises a [RateLimitError], a
    [ServerError] or a [NetworkError], the operation is invoked
    [max_attempts + 1] times, with the backoff delays in between, and the
    exception of the last invocation is raised. *)
Theorem retry_by_error_class :
  forall (config : RetryConfig) (random_random : nat -> Q)
         (op : Store W -> Outcome R * Store W) (method context : string)
         (s : Sys W),
    RetryConfig_valid config ->
    (forall error x st',
       op (store s) = (Raise error, st') ->
       heap st' !! error = Some x ->
       isinstance x [AuthError; ConflictError; ValidationError] = true ->
       execute_with_retry config random_random (instrument op)
         (_create_retry_predicate method) context s
       = (Raise error, log Invoked (set_store st' s)) /\
       count_invoked (trace (log Invoked (set_store st' s)))
       = (count_invoked (trace s) + 1)%nat) /\
    (fails_with (fun x => isinstance x [RateLimitError; ServerError; NetworkError]) op ->
     exists error s',
       execute_with_retry config random_random (instrument op)
         (_create_retry_predicate method) context s = (Raise error, s') /\
       trace s' = trace s ++ expected_trace config random_random (draws s)
                               (Z.to_nat (max_attempts config)) /\
       count_invoked (trace s') =
         (count_invoked (trace s) + Z.to_nat (max_attempts config + 1))%nat /\
       op (store_before op (Z.to_nat (max_attempts config)) (store s))
       = (Raise error, store s')).
Proof.
  intros config random_random op method context s (Hmax & _). split.
  - intros error x st' Hop Hx Hcls. split.
    + unfold execute_with_retry, range.
      replace (Z.to_nat (max_attempts config + 1))
        with (S (Z.to_nat (max_attempts config))) by lia.
      cbn [seq map retry_loop]. change (0 <? Z.of_nat 0) with false. cbn iota.
      unfold instrument at 1. rewrite Hop.
      assert (Ht : test (_create_retry_predicate method)
                     (log Invoked (set_store st' s)) error = false).
      { unfold test, deref. cbn. rewrite Hx.
        apply retry_predicate_refuses, Hcls. }
      rewrite Ht. cbn [negb]. rewrite orb_true_r. reflexivity.
    + unfold log, set_store. cbn [trace].
      rewrite RetryFacts.count_invoked_app. reflexivity.
  - intros Hfail.
    destruct (RetryFacts.execute_with_retry_always_fails config random_random
                op (_create_retry_predicate method) context s)
      as (error & s' & Hrun & Hop & Ht & Hc).
    + apply (fails_with_weaken _ _ op (retry_predicate_accepts method) Hfail).
    + lia.
    + exists error, s'. repeat split; try assumption.
      rewrite Hc. f_equal. lia.
Qed.

End Main.

(** A validation error is raised after one invocation; a server that is
    always unavailable is tried three times under two retries. *)
Lemma retry_by_error_class_witness :
  (exists error s',
     execute_with_retry Examples.retry_twice_no_jitter Examples.half
       (instrument Examples.always_invalid) (_create_retry_predicate "POST")
       "POST /sign" Examples.start = (Raise error, s') /\
     trace s' = [Invoked]) /\
  (exists error s',
     execute_with_retry Examples.retry_twice_no_jitter Examples.half
       (instrument Examples.always_unavailable) (_create_retry_predicate "POST")
       "POST /sign" Examples.start = (Raise error, s') /\
     count_invoked (trace s') = 3%nat).
Proof.
  split.
  - destruct (retry_by_error_class Examples.retry_twice_no_jitter Examples.half
                Examples.always_invalid "POST" "POST /sign" Examples.start)
      as [H _].
    + unfold RetryConfig_valid; cbn; lia.
    + destruct (H 0%nat
                  (CredLink (ValidationError_init
                     "Request data failed validation" no_kwargs))
                  (snd (Examples.always_invalid (store Examples.start)))
                  eq_refl eq_refl eq_refl) as [Hrun _].
      eexists _, _. split; [exact Hrun | reflexivity].
  - destruct (retry_by_error_class Examples.retry_twice_no_jitter Examples.half
                Examples.always_unavailable "POST" "POST /sign" Examples.start)
      as [_ H].
    + unfold RetryConfig_valid; cbn; lia.
    + destruct (H (RetryFacts.raise_fails_with _ _ eq_refl))
        as (error & s' & Hrun & _ & Hc & _).
      exists error, s'. split; [exact Hrun | exact Hc].
Defined.

(** ** The streaming iterator *)


Section Streaming.

Context {R : Type}.
Variable json_loads : Text.str -> Loaded R.

(** One step of the generator, in the vocabulary of the specification. *)
Lemma iterator_cons (line : Text.str) (lines : list Text.str) :
  iterator json_loads (line :: lines)
  = match Props.abort_of json_loads line with
    | Some x => ([], Some x)
    | None =>
        (match Props.record_of json_loads line with
         | Some v => v :: fst (iterator json_loads lines)
         | None => fst (iterator json_loads lines)
         end,
         snd (iterator json_loads lines))
    end.
Proof.
  cbn [iterator]. unfold Props.abort_of, Props.record_of.
  destruct (Text.strip line) as [|c t] eqn:E.
  - apply TextFacts.strip_blank in E. rewrite E.
    destruct (iterator json_loads lines). reflexivity.
  - assert (Hb : Props.is_blank line = false).
    { destruct (Props.is_blank line) eqn:Hb; [|reflexivity].
      apply TextFacts.strip_blank in Hb. congruence. }
    rewrite Hb. destruct (json_loads line);
      destruct (iterator json_loads lines); reflexivity.
Qed.





End Streaming.



(** ** Status codes of the errors *)

Section Classification.

Context {R : Type}.
Variable py_int : string -> option Z.

(** C10, amended.  The [status_code] of an error that [_handle_http_error]
    raises is fixed by its class: 401 for [AuthError], also on a 403
    response; 500 for [ServerError], also on 502, 503 and 504; 0 for
    [NetworkError]; 409, 422 and 429 for [ConflictError], [ValidationError]
    and [RateLimitError].  For these last three classes it always is the
    status of the response.  For an [AuthError] it is the status of the
    response exactly when that status is 401, for a [ServerError] exactly
    when it is 500, and for a [NetworkError] raised for an error response
    never: the error of an error response carries the status of the
    response exactly on 401, 409, 422, 429 and 500.  The same constants are set by the constructors for every
    argument, and the rejection of an open circuit breaker is a
    [NetworkError] with [status_code] 0. *)
Theorem status_code_by_class :
  forall (response : Response R) (request_id path : string)
         (idempotency_key : option string) (e : CredLinkError.t),
    _handle_http_error py_int response request_id path idempotency_key
      = CredLink e ->
    CredLinkError.status_code e =
      match CredLinkError.cls e with
      | AuthError => 401
      | RateLimitError => 429
      | ConflictError => 409
      | ValidationError => 422
      | ServerError => 500
      | NetworkError => 0
      end /\
    (resp_status_code response = 403 -> CredLinkError.cls e = AuthError) /\
    (In (resp_status_code response) [502; 503; 504] ->
       CredLinkError.cls e = ServerError) /\
    (In (CredLinkError.cls e) [ConflictError; ValidationError; RateLimitError] ->
       CredLinkError.status_code e = resp_status_code response) /\
    (CredLinkError.cls e = NetworkError -> 400 <= resp_status_code response ->
       CredLinkError.status_code e <> resp_status_code response) /\
    (CredLinkError.cls e = AuthError ->
       (CredLinkError.status_code e = resp_status_code response
        <-> resp_status_code response = 401)) /\
    (CredLinkError.cls e = ServerError ->
       (CredLinkError.status_code e = resp_status_code response
        <-> resp_status_code response = 500)) /\
    (400 <= resp_status_code response ->
       (CredLinkError.status_code e = resp_status_code response
        <-> In (resp_status_code response) [401; 409; 422; 429; 500])) /\
    (forall cb, exists e',
       Breaker.circuit_open_error cb = CredLink e' /\
       CredLinkError.cls e' = NetworkError /\
       CredLinkError.status_code e' = 0) /\
    (forall message kwargs retry_after attempt_count,
       CredLinkError.status_code (AuthError_init message kwargs) = 401 /\
       CredLinkError.status_code (ServerError_init message kwargs) = 500 /\
       CredLinkError.status_code (NetworkError_init message kwargs) = 0 /\
       CredLinkError.status_code (ConflictError_init message kwargs) = 409 /\
       CredLinkError.status_code (ValidationError_init message kwargs) = 422 /\
       CredLinkError.status_code
         (RateLimitError_init message retry_after attempt_count kwargs) = 429).
Proof.
  intros response request_id path idempotency_key e H.
  assert (Hcases :
    CredLinkError.status_code e =
      match CredLinkError.cls e with
      | AuthError => 401 | RateLimitError => 429 | ConflictError => 409
      | ValidationError => 422 | ServerError => 500 | NetworkError => 0
      end /\
    match CredLinkError.cls e with
    | AuthError => resp_status_code response = 401 \/ resp_status_code response = 403
    | RateLimitError => resp_status_code response = 429
    | ConflictError => resp_status_code response = 409
    | ValidationError => resp_status_code response = 422
    | ServerError => In (resp_status_code response) [500; 502; 503; 504]
    | NetworkError => ~ In (resp_status_code response)
                          [401; 403; 409; 422; 429; 500; 502; 503; 504]
    end).
  { unfold _handle_http_error in H.
    destruct (resp_json response); try discriminate H;
      (destruct (resp_retry_after response) as [h|];
       [destruct (String.eqb h ""); [|destruct (py_int h); cbn in H; try discriminate H]|]);
      cbn in H;
      repeat match type of H with
             | (if ?b then _ else _) = _ => destruct b eqn:?
             end;
      injection H as <-; cbn;
      repeat match goal with
             | E : (_ =? _) = true |- _ => apply Z.eqb_eq in E
             | E : (_ =? _) = false |- _ => apply Z.eqb_neq in E
             | E : (_ || _) = true |- _ => apply orb_true_iff in E; destruct E
             | E : (_ || _) = false |- _ => apply orb_false_iff in E; destruct E
             end;
      try discriminate; split; try reflexivity; auto; try tauto; try lia;
      try (intros [?|[?|[?|[?|[?|[?|[?|[?|[?|[]]]]]]]]]]; congruence). }
  destruct Hcases as [Hsc Hst]. split; [exact Hsc|].
  split; [|split; [|split; [|split; [|split; [|split; [|split; [|split]]]]]]].
  - intros H403. destruct (CredLinkError.cls e); cbn in Hst; try reflexivity;
      try lia; try (exfalso; apply Hst; cbn; auto); cbn in Hst; intuition lia.
  - intros Hin. cbn in Hin.
    destruct (CredLinkError.cls e); cbn in Hst; try reflexivity;
      try (exfalso; apply Hst; cbn; intuition auto); intuition lia.
  - intros Hin. rewrite Hsc. cbn in Hin.
    destruct (CredLinkError.cls e); cbn in Hst; intuition (try discriminate; lia).
  - intros Hn Hge. rewrite Hsc, Hn. lia.
  - intros Hc. rewrite Hsc, Hc. rewrite Hc in Hst. split; [|congruence].
    intros H401. destruct Hst as [Hs|Hs]; [exact Hs | lia].
  - intros Hc. rewrite Hsc, Hc. rewrite Hc in Hst. split; [|congruence].
    intros H500. cbn in Hst. lia.
  - intros Hge. rewrite Hsc. cbn [In].
    destruct (CredLinkError.cls e); cbn [In] in Hst; lia.
  - intros cb. eexists. repeat split.
  - intros. repeat split.
Qed.

End Classification.

(** A 403 response without body fields: an [AuthError] with status 401. *)
Lemma status_code_by_class_witness :
  CredLinkError.status_code
    (AuthError_init "HTTP 403"
       {| kw_request_id := Some "req_1"; kw_idempotency_key := None;
          kw_endpoint := Some "/verify";
          kw_hint := Some (Some "Insufficient permissions for this operation") |})
  = 401.
Proof.
  apply (status_code_by_class (fun _ => None)
           {| resp_status_code := 403; resp_json := json_raises (R := Z);
              resp_retry_after := None; resp_text := [] |}
           "req_1" "/verify" None).
  reflexivity.
Defined.

(** C10 as the specification states it, in its last clause, fails on a 401
    response and on a 500 response: the errors raised for them are an
    [AuthError] and a [ServerError], none of the three classes the clause
    names, and their [status_code] is the status of the response. *)
Lemma status_code_equal_outside_three_classes :
  (exists e,
     _handle_http_error (fun _ => None) MoreExamples.response_401
       "req_1" "/verify" None = CredLink e /\
     CredLinkError.cls e = AuthError /\
     CredLinkError.status_code e = resp_status_code MoreExamples.response_401) /\
  (exists e,
     _handle_http_error (fun _ => None) MoreExamples.response_500
       "req_1" "/verify" None = CredLink e /\
     CredLinkError.cls e = ServerError /\
     CredLinkError.status_code e = resp_status_code MoreExamples.response_500) /\
  ~ (forall (response : Response MiniJson.Json) (e : CredLinkError.t),
       _handle_http_error (fun _ => None) response "req_1" "/verify" None
         = CredLink e ->
       CredLinkError.status_code e = resp_status_code response ->
       In (CredLinkError.cls e) [ConflictError; ValidationError; RateLimitError]).
Proof.
  split; [eexists; repeat split|]. split; [eexists; repeat split|].
  intros Hall.
  specialize (Hall MoreExamples.response_401 _ eq_refl eq_refl).
  cbn in Hall. intuition discriminate.
Qed.

(** ** The timeout of a call *)

Lemma call_timeout_default (self : HttpTransport) :
  call_timeout self None = Some (timeout_ms (config self)).
Proof. reflexivity. Qed.

Lemma call_timeout_options (self : HttpTransport) (options : RequestOptions.t) :
  call_timeout self (Some options) = RequestOptions.timeout options.
Proof. reflexivity. Qed.

(** Without a timeout [_make_request] raises a [TypeError] and leaves the
    network alone, whatever the client is. *)
Lemma make_request_without_timeout {W R : Type}
    (client_request : Request R -> W -> Exchange R * W)
    (py_int : string -> option Z) (method path : string) (data : option R)
    (headers : gmap string string) (request_id : string) (st : Store W) :
  _make_request client_request py_int method path data headers None request_id st
  = (Raise (length (heap st)),
     {| world := world st; heap := heap st ++ [TypeError] |}).
Proof. reflexivity. Qed.

(** Calls without options, and with options that carry a timeout, reach the
    network with the client default of 30 seconds and with the given
    2 seconds. *)
Lemma request_timeouts_used :
  world (store (snd (request (Examples.server_always 200) (fun _ => None)
                       (Examples.clock_from 100) Examples.half
                       Examples.randint_const Examples.transport
                       "GET" "/verify" None None Examples.start)))
    = [(30000 / 1000)%Q] /\
  world (store (snd (request (Examples.server_always 200) (fun _ => None)
                       (Examples.clock_from 100) Examples.half
                       Examples.randint_const Examples.transport
                       "GET" "/verify" None
                       (Some Examples.options_with_timeout) Examples.start)))
    = [(2000 / 1000)%Q].
Proof. split; vm_compute; reflexivity. Qed.

(** C8, at [options = RequestOptions(idempotency_key="k-1")].  The timeout
    [request] and [request_stream] compute is [None], not the client default
    of 30000: the call raises a [TypeError] after one invocation of the
    request operation, and no exchange reaches the server, which would have
    answered 200. *)
Theorem request_without_timeout_raises :
  call_timeout Examples.transport (Some Examples.options_without_timeout) = None /\
  timeout_ms (config Examples.transport) = 30000 /\
  (exists error self' s',
     request (Examples.server_always 200) (fun _ => None)
       (Examples.clock_from 100) Examples.half Examples.randint_const
       Examples.transport "GET" "/verify" None
       (Some Examples.options_without_timeout) Examples.start
     = (Raise error, self', s') /\
     deref s' error = Some TypeError /\
     count_invoked (trace s') = 1%nat /\
     world (store s') = []) /\
  (exists error self' s',
     request_stream (Examples.server_always 200) (fun _ => None)
       MiniJson.loads
       (Examples.clock_from 100) Examples.half Examples.randint_const
       Examples.transport "GET" "/verify" None
       (Some Examples.options_without_timeout) Examples.start
     = (Raise error, self', s') /\
     deref s' error = Some TypeError /\
     count_invoked (trace s') = 1%nat /\
     world (store s') = []).
Proof.
  split; [reflexivity|]. split; [reflexivity|].
  split; eexists _, _, _; vm_compute; repeat split.
Qed.

(** ** Failures of the exchange itself *)

(** [_make_request] hands on whatever the client raises, as it is. *)
Lemma make_request_reraises {W R : Type}
    (client_request : Request R -> W -> Exchange R * W)
    (py_int : string -> option Z) (method path : string) (data : option R)
    (headers : gmap string string) (timeout : Z) (request_id : string)
    (st : Store W) (x : Exn) (w : W) :
  client_request
    {| req_method := method; req_path := path; req_json := data;
       req_headers := headers; req_timeout := (inject_Z timeout / 1000)%Q |}
    (world st) = (Failed x, w) ->
  _make_request client_request py_int method path data headers (Some timeout)
    request_id st
  = (Raise (length (heap st)), {| world := w; heap := heap st ++ [x] |}).
Proof. intros H. unfold _make_request. rewrite H. reflexivity. Qed.

(** The exceptions of httpx are no [NetworkError] and not retryable. *)
Lemma httpx_errors_not_retryable (method : string) :
  Forall (fun x => isinstance x [NetworkError] = false /\
                   _create_retry_predicate method x = false)
    [httpx_ConnectError; httpx_ReadError; httpx_ReadTimeout].
Proof. repeat constructor. Qed.

(** C6, at a network on which no connection can be made (a DNS failure).
    The call raises the [httpx.ConnectError] of the client, which is no
    [NetworkError] and which the retry predicate refuses: with five retries
    configured, one exchange is attempted. *)
Theorem connect_error_not_retried :
  max_attempts (retries (config Examples.transport)) = 5 /\
  isinstance httpx_ConnectError [NetworkError] = false /\
  _create_retry_predicate "GET" httpx_ConnectError = false /\
  exists error self' s',
    request Examples.network_down (fun _ => None)
      (Examples.clock_from 100) Examples.half Examples.randint_const
      Examples.transport "GET" "/verify" None None Examples.start
    = (Raise error, self', s') /\
    deref s' error = Some httpx_ConnectError /\
    count_invoked (trace s') = 1%nat /\
    length (world (store s')) = 1%nat.
Proof.
  repeat split. eexists _, _, _. vm_compute. repeat split.
Qed.

(** ** The attempt count of a rate limit error *)

(** C9, at one retry and a leaf operation that raises a new
    [RateLimitError] at every invocation.  After two invocations the handler
    raises the second exception, whose [attempt_count] is still [None]; the
    count went to the first exception, which was dropped. *)
Theorem rate_limit_error_not_annotated :
  exists s',
    execute_with_retry Examples.retry_once Examples.half
      (instrument Examples.always_rate_limited)
      (_create_retry_predicate "GET") "GET /verify" Examples.start
    = (Raise 1%nat, s') /\
    count_invoked (trace s') = 2%nat /\
    deref s' 1%nat
    = Some (CredLink (RateLimitError_init "Rate limit exceeded" None None no_kwargs)) /\
    CredLinkError.attempt_count
      (RateLimitError_init "Rate limit exceeded" None None no_kwargs) = None /\
    deref s' 0%nat
    = Some (CredLink (CredLinkError.set_attempt_count (Some 1)
              (RateLimitError_init "Rate limit exceeded" None None no_kwargs))).
Proof.
  eexists. vm_compute. repeat split.
Qed.

(** The same through [request], against a server that always answers 429:
    six exchanges, and the error raised carries no attempt count. *)
Lemma request_rate_limited :
  exists self' s' e,
    request (Examples.server_always 429) (fun _ => None)
      (Examples.clock_from 100) Examples.half Examples.randint_const
      Examples.transport "GET" "/verify" None None Examples.start
    = (Raise 5%nat, self', s') /\
    length (world (store s')) = 6%nat /\
    deref s' 5%nat = Some (CredLink e) /\
    CredLinkError.cls e = RateLimitError /\
    CredLinkError.attempt_count e = None.
Proof.
  eexists _, _, _. vm_compute. repeat split.
Qed.

End TransportFacts.

(* ================================================================== *)
(** * More about the circuit breaker *)
(* ================================================================== *)

Module BreakerMore.

Import Breaker Props.

Section Facts.

Context {W R : Type}.
Variable clock : nat -> Q.

Lemma on_outcome_keeps_ok (o : Result) (cb : CircuitBreaker) (s : Sys W) :
  breaker_ok cb -> get_state cb <> open ->
  breaker_ok (fst (on_outcome clock o cb s)).
Proof.
  intros (Hth & Hmax & Hfc & Hph) Hno.
  destruct (get_state cb) eqn:Hst; [| congruence |]; destruct o; cbn [on_outcome].
  - rewrite BreakerFacts.on_success_closed by exact Hst.
    unfold breaker_ok, get_state; cbn. repeat split; lia.
  - rewrite BreakerFacts.on_failure_closed by exact Hst. cbn zeta.
    destruct (_ >=? _) eqn:Hge; unfold breaker_ok, get_state in *; cbn.
    + repeat split; try lia. eexists; reflexivity.
    + rewrite Hst. rewrite Z.geb_leb in Hge. apply Z.leb_gt in Hge.
      repeat split; lia.
  - rewrite BreakerFacts.on_success_half_open by exact Hst.
    destruct (_ >=? _) eqn:Hge; unfold breaker_ok, get_state in *; cbn.
    + repeat split; lia.
    + rewrite Hst. rewrite Z.geb_leb in Hge. apply Z.leb_gt in Hge.
      repeat split; lia.
  - rewrite BreakerFacts.on_failure_half_open by exact Hst.
    unfold breaker_ok, get_state; cbn. repeat split; try lia.
    eexists; reflexivity.
Qed.

Lemma execute_try_breaker (op : Sys W -> Outcome R * Sys W) cb s :
  snd (fst (execute_try clock op cb s))
  = fst (on_outcome clock
           (match fst (op s) with Return _ => Success | Raise _ => Failure end)
           cb (snd (op s))).
Proof.
  unfold execute_try. destruct (op s) as [[v|error] s1]; cbn [fst snd on_outcome].
  - destruct (_on_success clock cb s1); reflexivity.
  - destruct (_on_failure clock cb s1); reflexivity.
Qed.

(** X1.  [execute] keeps the breaker well formed, whatever the operation
    does and whenever it is called: thresholds of at least 1 stay as they
    are, the failure count is not negative, a closed breaker has fewer
    failures on record than the threshold and no probe count, an open one has
    a time for the next attempt, a half-open one fewer probes than
    [half_open_max_calls]. *)
Theorem execute_keeps_breaker_ok :
  forall (operation : Sys W -> Outcome R * Sys W) (cb : CircuitBreaker)
         (s : Sys W),
    breaker_ok cb ->
    breaker_ok (snd (fst (execute clock operation cb s))).
Proof.
  intros operation cb s Hok. unfold execute.
  destruct (get_state cb) eqn:Hst.
  - rewrite execute_try_breaker. apply on_outcome_keeps_ok; [exact Hok | congruence].
  - destruct (time_time clock s) as [now s1].
    destruct (Qltb now _).
    + cbn. exact Hok.
    + cbn [_set_state]. rewrite execute_try_breaker.
      destruct Hok as (Hth & Hmax & Hfc & _).
      apply on_outcome_keeps_ok; [|discriminate].
      unfold breaker_ok, get_state; cbn. repeat split; lia.
  - rewrite execute_try_breaker. apply on_outcome_keeps_ok; [exact Hok | congruence].
Qed.

(** X2.  A call that is let through has the outcome of the operation, value
    or exception, and the breaker adds nothing to it: store, event log and
    random draws are as the operation left them; the breaker only reads the
    clock, at most twice after the operation. *)
Theorem execute_passes_outcome :
  forall (operation : Sys W -> Outcome R * Sys W) (cb : CircuitBreaker)
         (s : Sys W),
    lets_through clock cb s ->
    fst (fst (execute clock operation cb s))
      = fst (operation (entry clock cb s)) /\
    store (snd (execute clock operation cb s))
      = store (snd (operation (entry clock cb s))) /\
    trace (snd (execute clock operation cb s))
      = trace (snd (operation (entry clock cb s))) /\
    draws (snd (execute clock operation cb s))
      = draws (snd (operation (entry clock cb s))) /\
    (ticks (snd (operation (entry clock cb s)))
       <= ticks (snd (execute clock operation cb s))
       <= ticks (snd (operation (entry clock cb s))) + 2)%nat.
Proof.
  intros operation cb s Hlet.
  assert (Htry : forall cb' s0,
    fst (fst (execute_try clock operation cb' s0)) = fst (operation s0) /\
    store (snd (execute_try clock operation cb' s0)) = store (snd (operation s0)) /\
    trace (snd (execute_try clock operation cb' s0)) = trace (snd (operation s0)) /\
    draws (snd (execute_try clock operation cb' s0)) = draws (snd (operation s0)) /\
    (ticks (snd (operation s0)) <= ticks (snd (execute_try clock operation cb' s0))
       <= ticks (snd (operation s0)) + 2)%nat).
  { intros cb' s0. unfold execute_try.
    destruct (operation s0) as [[v|error] s1]; cbn [fst snd].
    - unfold _on_success, _set_state.
      destruct (get_state cb'); cbn; try (repeat split; lia).
      destruct (_ >=? _); cbn; repeat split; lia.
    - unfold _on_failure, _set_state, get_state; cbn.
      destruct (state (self_state cb')); cbn; try (repeat split; lia);
        destruct (_ >=? _); cbn; repeat split; lia. }
  unfold lets_through in Hlet. unfold execute, entry.
  destruct (get_state cb) eqn:Hst; try apply Htry.
  cbn [time_time snd]. rewrite (Hlet eq_refl). cbn [_set_state]. apply Htry.
Qed.

(** ** Runs of calls *)

Lemma execute_closed_raises (op : Sys W -> Outcome R * Sys W) cb s :
  get_state cb = closed -> always_raises op ->
  snd (fst (execute clock op cb s)) = fst (_on_failure clock cb (snd (op s))).
Proof.
  intros Hst Hop. unfold execute. rewrite Hst. unfold execute_try.
  destruct (Hop s) as (error & s' & ->). cbn [snd].
  destruct (_on_failure clock cb s'); reflexivity.
Qed.

Lemma execute_all_app (ops1 ops2 : list (Sys W -> Outcome R * Sys W)) :
  forall cb s,
    execute_all clock (ops1 ++ ops2) cb s
    = execute_all clock ops2 (fst (execute_all clock ops1 cb s))
        (snd (execute_all clock ops1 cb s)).
Proof.
  induction ops1 as [|op ops1 IH]; intros cb s; [reflexivity|].
  cbn [app execute_all]. destruct (execute clock op cb s) as [[o cb1] s1].
  apply IH.
Qed.

Lemma failing_calls_counted (ops : list (Sys W -> Outcome R * Sys W)) :
  forall cb s,
    Forall always_raises ops ->
    get_state cb = closed ->
    failure_count (self_state cb) + Z.of_nat (length ops) < failure_threshold cb ->
    get_state (fst (execute_all clock ops cb s)) = closed /\
    failure_count (self_state (fst (execute_all clock ops cb s)))
      = failure_count (self_state cb) + Z.of_nat (length ops) /\
    params_of (fst (execute_all clock ops cb s)) = params_of cb.
Proof.
  induction ops as [|op ops IH]; intros cb s Hall Hst Hlt.
  - cbn [execute_all fst length]. split; [exact Hst | split; [cbn; lia | reflexivity]].
  - inversion Hall as [|? ? Hop Hrest]; subst. cbn [execute_all length] in *.
    pose proof (execute_closed_raises op cb s Hst Hop) as Hcb.
    destruct (execute clock op cb s) as [[o cb1] s1]. cbn [fst snd] in Hcb.
    pose proof (BreakerFacts.on_failure_closed clock cb (snd (op s)) Hst) as Hf.
    cbn zeta in Hf.
    replace (failure_count (self_state cb) + 1 >=? failure_threshold cb)
      with false in Hf by (symmetry; rewrite Z.geb_leb; apply Z.leb_gt; lia).
    rewrite Hf in Hcb. subst cb1.
    destruct (IH (set_last_failure_time (Some (clock (ticks (snd (op s)))))
                    (set_failure_count (failure_count (self_state cb) + 1) cb)) s1
                Hrest) as (H1 & H2 & H3).
    + exact Hst.
    + cbn. lia.
    + rewrite H1, H2, H3. cbn. repeat split. lia.
Qed.

(** X3.  A closed breaker without failures on record opens at the call that
    brings the number of failed calls in a row to [failure_threshold], and
    is still closed after any smaller number of failed calls. *)
Theorem failing_calls_open :
  forall (ops : list (Sys W -> Outcome R * Sys W)) (cb : CircuitBreaker)
         (s : Sys W),
    Forall always_raises ops ->
    get_state cb = closed ->
    failure_count (self_state cb) = 0 ->
    1 <= failure_threshold cb ->
    (Z.of_nat (length ops) < failure_threshold cb ->
       get_state (fst (execute_all clock ops cb s)) = closed) /\
    (Z.of_nat (length ops) = failure_threshold cb ->
       get_state (fst (execute_all clock ops cb s)) = open).
Proof.
  intros ops cb s Hall Hst Hfc Hth. split.
  - intros Hlt. apply failing_calls_counted; [exact Hall | exact Hst | lia].
  - intros Hlen.
    destruct (exists_last (l := ops)) as (ops' & op & ->).
    { intros ->. cbn in Hlen. lia. }
    apply Forall_app in Hall. destruct Hall as [Hall' Hop].
    inversion Hop as [|? ? Hop' _]; subst.
    rewrite length_app in Hlen. cbn [length] in Hlen.
    destruct (failing_calls_counted ops' cb s Hall' Hst ltac:(lia))
      as (H1 & H2 & H3).
    rewrite execute_all_app. cbn [execute_all].
    destruct (execute_all clock ops' cb s) as [cb1 s1]. cbn [fst snd] in *.
    pose proof (execute_closed_raises op cb1 s1 H1 Hop') as Hcb.
    destruct (execute clock op cb1 s1) as [[o cb2] s2]. cbn [fst snd] in *.
    subst cb2.
    rewrite (BreakerFacts.on_failure_closed clock cb1 (snd (op s1)) H1).
    cbn zeta.
    assert (Hthr : failure_threshold cb1 = failure_threshold cb).
    { change (ref_failure_threshold (params_of cb1)
              = ref_failure_threshold (params_of cb)). rewrite H3. reflexivity. }
    replace (failure_count (self_state cb1) + 1 >=? failure_threshold cb1)
      with true by (symmetry; rewrite Z.geb_leb; apply Z.leb_le; lia).
    reflexivity.
Qed.

Lemma execute_half_open_returns (op : Sys W -> Outcome R * Sys W) cb s :
  get_state cb = half_open -> always_returns op ->
  snd (fst (execute clock op cb s)) = fst (_on_success clock cb (snd (op s))).
Proof.
  intros Hst Hop. unfold execute. rewrite Hst. unfold execute_try.
  destruct (Hop s) as (v & s' & ->). cbn [snd].
  destruct (_on_success clock cb s'); reflexivity.
Qed.

Lemma probes_counted (ops : list (Sys W -> Outcome R * Sys W)) :
  forall cb s,
    Forall always_returns ops ->
    get_state cb = half_open ->
    half_open_calls cb + Z.of_nat (length ops) < half_open_max_calls cb ->
    fst (execute_all clock ops cb s)
    = set_half_open_calls (half_open_calls cb + Z.of_nat (length ops)) cb.
Proof.
  induction ops as [|op ops IH]; intros cb s Hall Hst Hlt.
  - cbn. destruct cb; cbn. rewrite Z.add_0_r. reflexivity.
  - inversion Hall as [|? ? Hop Hrest]; subst. cbn [execute_all length] in *.
    pose proof (execute_half_open_returns op cb s Hst Hop) as Hcb.
    destruct (execute clock op cb s) as [[o cb1] s1]. cbn [fst snd] in Hcb.
    rewrite (BreakerFacts.on_success_half_open clock cb (snd (op s)) Hst) in Hcb.
    replace (half_open_calls cb + 1 >=? half_open_max_calls cb)
      with false in Hcb by (symmetry; rewrite Z.geb_leb; apply Z.leb_gt; lia).
    cbn [fst] in Hcb. subst cb1.
    rewrite IH; [| exact Hrest | exact Hst | cbn; lia].
    unfold set_half_open_calls.
    cbn [name failure_threshold recovery_timeout half_open_max_calls
         half_open_calls self_state].
    f_equal. lia.
Qed.

(** X4.  A breaker that has just become half-open closes, with a failure
    count of 0, at the call that brings the number of successful calls in a
    row to [half_open_max_calls], and is still half-open after any smaller
    number of successful calls. *)
Theorem probing_calls_close :
  forall (ops : list (Sys W -> Outcome R * Sys W)) (cb : CircuitBreaker)
         (s : Sys W),
    Forall always_returns ops ->
    get_state cb = half_open ->
    half_open_calls cb = 0 ->
    1 <= half_open_max_calls cb ->
    (Z.of_nat (length ops) < half_open_max_calls cb ->
       get_state (fst (execute_all clock ops cb s)) = half_open) /\
    (Z.of_nat (length ops) = half_open_max_calls cb ->
       get_state (fst (execute_all clock ops cb s)) = closed /\
       failure_count (self_state (fst (execute_all clock ops cb s))) = 0 /\
       half_open_calls (fst (execute_all clock ops cb s)) = 0).
Proof.
  intros ops cb s Hall Hst Hhc Hmax. split.
  - intros Hlt. rewrite probes_counted; [exact Hst | exact Hall | exact Hst | lia].
  - intros Hlen.
    destruct (exists_last (l := ops)) as (ops' & op & ->).
    { intros ->. cbn in Hlen. lia. }
    apply Forall_app in Hall. destruct Hall as [Hall' Hop].
    inversion Hop as [|? ? Hop' _]; subst.
    rewrite length_app in Hlen. cbn [length] in Hlen.
    pose proof (probes_counted ops' cb s Hall' Hst ltac:(lia)) as H1.
    rewrite execute_all_app. cbn [execute_all].
    destruct (execute_all clock ops' cb s) as [cb1 s1]. cbn [fst snd] in *.
    assert (Hst1 : get_state cb1 = half_open) by (subst cb1; exact Hst).
    pose proof (execute_half_open_returns op cb1 s1 Hst1 Hop') as Hcb.
    destruct (execute clock op cb1 s1) as [[o cb2] s2]. cbn [fst snd] in *.
    subst cb2.
    rewrite BreakerFacts.on_success_half_open by exact Hst1.
    subst cb1.
    cbn [half_open_calls set_half_open_calls half_open_max_calls].
    replace (half_open_calls cb + Z.of_nat (length ops') + 1
               >=? half_open_max_calls cb)
      with true by (symmetry; rewrite Z.geb_leb; apply Z.leb_le; lia).
    cbn. repeat split.
Qed.

(** X5.  A breaker that a failure has just opened turns away every call
    made less than [recovery_timeout] seconds after the clock reading of the
    opening: the call raises the circuit-open [NetworkError], the breaker and
    the operation's world stay as they are and nothing is logged, whatever
    the operation. *)
Theorem opened_breaker_rejects :
  forall (operation : Sys W -> Outcome R * Sys W) (cb : CircuitBreaker)
         (s s' : Sys W),
    get_state cb <> open ->
    get_state (fst (_on_failure clock cb s)) = open ->
    (clock (ticks s') < clock (S (ticks s)) + inject_Z (recovery_timeout cb))%Q ->
    exists error s'',
      execute clock operation (fst (_on_failure clock cb s)) s'
      = (Raise error, fst (_on_failure clock cb s), s'') /\
      deref s'' error = Some (circuit_open_error (fst (_on_failure clock cb s))) /\
      world (store s'') = world (store s') /\
      trace s'' = trace s'.
Proof.
  intros operation cb s s' Hno Hopen Hlt.
  assert (Hnat : next_attempt_time (self_state (fst (_on_failure clock cb s)))
                 = Some (clock (S (ticks s)) + inject_Z (recovery_timeout cb))%Q).
  { destruct (get_state cb) eqn:Hst; [| congruence |].
    - rewrite BreakerFacts.on_failure_closed in * by exact Hst. cbn zeta in *.
      destruct (_ >=? _); [reflexivity|].
      unfold get_state in *. cbn in Hopen. congruence.
    - rewrite BreakerFacts.on_failure_half_open by exact Hst. reflexivity. }
  eexists _, _. split; [|split; [|split]].
  - apply BreakerFacts.execute_rejects; [exact Hopen|].
    rewrite Hnat. apply BreakerFacts.Qltb_lt.
    rewrite BreakerFacts.or_zero_Some. exact Hlt.
  - unfold deref. cbn. now apply (list_lookup_middle _ []).
  - reflexivity.
  - reflexivity.
Qed.

End Facts.

Lemma execute_keeps_breaker_ok_witness :
  breaker_ok (snd (fst (execute (Examples.clock_from 100) MoreExamples.fail
                          example_closed_breaker Examples.start))).
Proof.
  apply execute_keeps_breaker_ok.
  unfold breaker_ok; cbn. repeat split; lia.
Defined.

Lemma execute_passes_outcome_witness :
  fst (fst (execute (Examples.clock_from 200) MoreExamples.fail
              example_open_breaker Examples.start))
  = fst (MoreExamples.fail
           (entry (Examples.clock_from 200) example_open_breaker Examples.start)).
Proof.
  apply execute_passes_outcome.
  intros _. reflexivity.
Defined.

Lemma always_raises_fail : always_raises MoreExamples.fail.
Proof. intros s. eexists _, _. reflexivity. Qed.

Lemma always_returns_succeed : always_returns Examples.succeed.
Proof. intros s. eexists _, _. reflexivity. Qed.

(** Five failed calls open a new breaker; four do not. *)
Lemma failing_calls_open_witness :
  get_state (fst (execute_all (Examples.clock_from 100)
                    (repeat MoreExamples.fail 4) MoreExamples.new_breaker
                    Examples.start)) = closed /\
  get_state (fst (execute_all (Examples.clock_from 100)
                    (repeat MoreExamples.fail 5) MoreExamples.new_breaker
                    Examples.start)) = open.
Proof.
  split.
  - apply (failing_calls_open (Examples.clock_from 100)
             (repeat MoreExamples.fail 4) MoreExamples.new_breaker Examples.start);
      [repeat constructor; apply always_raises_fail | reflexivity | reflexivity
      | cbn; lia | cbn; lia].
  - apply (failing_calls_open (Examples.clock_from 100)
             (repeat MoreExamples.fail 5) MoreExamples.new_breaker Examples.start);
      [repeat constructor; apply always_raises_fail | reflexivity | reflexivity
      | cbn; lia | reflexivity].
Defined.

(** Three successful probes close the breaker; two do not. *)
Lemma probing_calls_close_witness :
  get_state (fst (execute_all (Examples.clock_from 200)
                    (repeat Examples.succeed 2)
                    MoreExamples.example_half_open_breaker Examples.start))
    = half_open /\
  get_state (fst (execute_all (Examples.clock_from 200)
                    (repeat Examples.succeed 3)
                    MoreExamples.example_half_open_breaker Examples.start))
    = closed.
Proof.
  split.
  - apply (probing_calls_close (Examples.clock_from 200)
             (repeat Examples.succeed 2)
             MoreExamples.example_half_open_breaker Examples.start);
      [repeat constructor; apply always_returns_succeed | reflexivity
      | reflexivity | cbn; lia | cbn; lia].
  - apply (probing_calls_close (Examples.clock_from 200)
             (repeat Examples.succeed 3)
             MoreExamples.example_half_open_breaker Examples.start);
      [repeat constructor; apply always_returns_succeed | reflexivity
      | reflexivity | cbn; lia | reflexivity].
Defined.

(** The fifth failure at time 100 (readings 100 and 101) opens the breaker
    until 161; a call at time 150 is turned away. *)
Lemma opened_breaker_rejects_witness :
  exists error s'',
    execute (Examples.clock_from 100) Examples.succeed
      (fst (_on_failure (Examples.clock_from 100) example_closed_breaker
              Examples.start)) MoreExamples.later
    = (Raise error,
       fst (_on_failure (Examples.clock_from 100) example_closed_breaker
              Examples.start), s'') /\
    trace s'' = [].
Proof.
  destruct (opened_breaker_rejects (Examples.clock_from 100) Examples.succeed
              example_closed_breaker Examples.start MoreExamples.later)
    as (error & s'' & H1 & _ & _ & H4).
  - discriminate.
  - reflexivity.
  - reflexivity.
  - exists error, s''. split; assumption.
Defined.

End BreakerMore.

(* ================================================================== *)
(** * More about the retry handler *)
(* ================================================================== *)

Module RetryMore.

Import Retry Props.

Lemma count_slept_app (t1 t2 : list Event) :
  count_slept (t1 ++ t2) = (count_slept t1 + count_slept t2)%nat.
Proof. unfold count_slept. rewrite List.filter_app, length_app. reflexivity. Qed.

Section Bounds.

Context {W R : Type}.
Variable config : RetryConfig.
Variable random_random : nat -> Q.
Variable op : Store W -> Outcome R * Store W.
Variable is_retryable : Exn -> bool.
Variable max_attempts : Z.

Lemma delay_step_trace (k : nat) (s : Sys W) :
  exists t,
    trace (if 0 <? Z.of_nat k
           then let '(delay, s) :=
                  _calculate_delay config random_random (Z.of_nat k) s in
                sleep delay s
           else s) = trace s ++ t /\
    count_invoked t = 0%nat /\
    count_slept t = match k with O => 0%nat | S _ => 1%nat end.
Proof.
  destruct k as [|j].
  - change (0 <? Z.of_nat 0) with false. exists []. cbn.
    rewrite app_nil_r. repeat split.
  - replace (0 <? Z.of_nat (S j)) with true by (symmetry; apply Z.ltb_lt; lia).
    unfold _calculate_delay. destruct (jitter config); cbn;
      eexists [_]; repeat split.
Qed.

Lemma raise_ref_trace (last_error : option ref) (s : Sys W) :
  trace (snd (raise_ref (R := R) last_error s)) = trace s.
Proof. destruct last_error; reflexivity. Qed.

Lemma retry_loop_bounds (m : nat) :
  forall (k : nat) (s : Sys W) (last_error : option ref),
  exists t,
    trace (snd (retry_loop config random_random (instrument op) is_retryable
                  max_attempts (map Z.of_nat (seq k m)) last_error s))
    = trace s ++ t /\
    (count_invoked t <= m)%nat /\
    ((1 <= m)%nat -> (1 <= count_invoked t)%nat) /\
    count_invoked t
    = (count_slept t + match k, m with O, S _ => 1 | _, _ => 0 end)%nat.
Proof.
  induction m as [|m IH]; intros k s last_error.
  - exists []. cbn [seq map retry_loop]. rewrite raise_ref_trace, app_nil_r.
    split; [reflexivity|]. split; [cbn; lia|]. split; [lia|].
    destruct k; reflexivity.
  - cbn [seq map retry_loop].
    destruct (delay_step_trace k s) as (t1 & Ht1 & Hi1 & Hs1).
    set (s1 := if 0 <? Z.of_nat k then _ else s) in *.
    unfold instrument at 1.
    destruct (op (store s1)) as [[v|error] st].
    + exists (t1 ++ [Invoked]). cbn [snd log set_store trace]. rewrite Ht1, <- app_assoc.
      rewrite RetryFacts.count_invoked_app, count_slept_app, Hi1, Hs1.
      cbn. repeat split; try lia. destruct k; lia.
    + set (s2 := log Invoked (set_store st s1)).
      destruct ((Z.of_nat k =? max_attempts) || negb (test is_retryable s2 error)).
      * exists (t1 ++ [Invoked]). cbn [raise_ref snd]. subst s2.
        cbn [log set_store trace]. rewrite Ht1, <- app_assoc.
        rewrite RetryFacts.count_invoked_app, count_slept_app, Hi1, Hs1.
        cbn. repeat split; try lia. destruct k; lia.
      * destruct (RetryFacts.annotation_frame s2 (Z.of_nat k) error)
          as (_ & _ & Hf). cbn zeta in Hf.
        set (s3 := if test _ s2 error then _ else s2) in *.
        destruct (IH (S k) s3 (Some error)) as (t2 & Ht2 & Hle & Hge & Heq).
        exists (t1 ++ [Invoked] ++ t2). rewrite Ht2, Hf. subst s2.
        cbn [log set_store trace]. rewrite Ht1, <- !app_assoc.
        rewrite !RetryFacts.count_invoked_app, !count_slept_app, Hi1, Hs1.
        change (count_invoked [Invoked]) with 1%nat.
        change (count_slept [Invoked]) with 0%nat.
        cbn in Heq. rewrite Heq in Hle. rewrite Heq.
        split; [reflexivity|]. split; [lia|]. split; [lia|].
        destruct k; lia.
Qed.

End Bounds.

(** ** Attempts up to the first one that ends the call *)

Section Prefix.

Context {W R : Type}.
Variable config : RetryConfig.
Variable random_random : nat -> Q.
Variable op : Store W -> Outcome R * Store W.
Variable is_retryable : Exn -> bool.

Lemma retry_loop_prefix (st0 : Store W) (t0 : list Event) (d0 tk : nat)
    (k : nat) :
  (forall j, (j < k)%nat -> fails_at is_retryable op st0 j) ->
  0 <= max_attempts config ->
  (k <= Z.to_nat (max_attempts config))%nat ->
  forall (d i : nat) (s : Sys W) (last_error : option ref),
    (i + d = k)%nat ->
    about_to_start config random_random op st0 t0 d0 tk i s ->
    exists s_k last_error_k,
      retry_loop config random_random (instrument op) is_retryable
        (max_attempts config)
        (map Z.of_nat (seq i (S (Z.to_nat (max_attempts config)) - i)))
        last_error s
      = retry_loop config random_random (instrument op) is_retryable
          (max_attempts config)
          (map Z.of_nat (seq k (S (Z.to_nat (max_attempts config)) - k)))
          last_error_k s_k /\
      about_to_start config random_random op st0 t0 d0 tk k s_k.
Proof.
  intros Hfail Hmax Hk. induction d as [|d IH]; intros i s last_error Hid Hs.
  - replace i with k in * by lia. exists s, last_error. split; [reflexivity | exact Hs].
  - destruct Hs as (Hst & Htk & Hd & Ht).
    replace (S (Z.to_nat (max_attempts config)) - i)%nat
      with (S (S (Z.to_nat (max_attempts config)) - S i))%nat by lia.
    cbn [seq map retry_loop].
    destruct (RetryFacts.before_attempt config random_random t0 d0 i s Hd Ht)
      as (Hst1 & Htk1 & Hd1 & Ht1).
    set (s1 := if 0 <? Z.of_nat i then _ else s) in *.
    unfold instrument at 1.
    destruct (Hfail i ltac:(lia)) as (error & x & st' & Hop & Hx & Hr).
    rewrite Hst1, Hst, Hop.
    set (s2 := log Invoked (set_store st' s1)).
    assert (Htest : test is_retryable s2 error = true).
    { unfold test, deref. cbn. rewrite Hx. exact Hr. }
    rewrite Htest. cbn [negb]. rewrite orb_false_r.
    replace (Z.of_nat i =? max_attempts config) with false
      by (symmetry; apply Z.eqb_neq; lia).
    pose proof (RetryFacts.store_annotation s2 (Z.of_nat i) error) as Hsa.
    destruct (RetryFacts.annotation_frame s2 (Z.of_nat i) error) as (Hf1 & Hf2 & Hf3).
    cbn zeta in Hf1, Hf2, Hf3.
    set (s3 := if test _ s2 error then _ else s2) in *.
    apply (IH (S i) s3 (Some error)); [lia|].
    unfold about_to_start. repeat split.
    + rewrite Hsa. cbn [store_before]. rewrite Hop. reflexivity.
    + rewrite Hf1. cbn. congruence.
    + rewrite Hf2. cbn. rewrite Hd1. destruct (jitter config); lia.
    + rewrite Hf3. cbn. exact Ht1.
Qed.

Lemma start_of_call (s : Sys W) :
  about_to_start config random_random op (store s) (trace s) (draws s)
    (ticks s) 0%nat s.
Proof.
  unfold about_to_start. cbn. rewrite app_nil_r.
  repeat split. destruct (jitter config); lia.
Qed.

(** The call up to the attempt [k] that ends it. *)
Lemma execute_with_retry_prefix (context : string) (s : Sys W) (k : nat) :
  (forall j, (j < k)%nat -> fails_at is_retryable op (store s) j) ->
  0 <= max_attempts config ->
  Z.of_nat k <= max_attempts config ->
  exists s_k last_error_k m,
    execute_with_retry config random_random (instrument op) is_retryable
      context s
    = retry_loop config random_random (instrument op) is_retryable
        (max_attempts config) (Z.of_nat k :: m) last_error_k s_k /\
    about_to_start config random_random op (store s) (trace s) (draws s)
      (ticks s) k s_k.
Proof.
  intros Hfail Hmax Hk. unfold execute_with_retry, range.
  replace (Z.to_nat (max_attempts config + 1))
    with (S (Z.to_nat (max_attempts config)) - 0)%nat by lia.
  destruct (retry_loop_prefix (store s) (trace s) (draws s) (ticks s) k Hfail
              Hmax ltac:(lia) k 0%nat s None ltac:(lia) (start_of_call s))
    as (s_k & le_k & Hrun & Hs).
  rewrite Hrun.
  replace (S (Z.to_nat (max_attempts config)) - k)%nat
    with (S (Z.to_nat (max_attempts config) - k))%nat by lia.
  cbn [seq map]. eexists _, _, _. split; [reflexivity | exact Hs].
Qed.

(** X7.  When the first [k] invocations of the operation raise retryable
    exceptions and the next one returns, with [k] within the retry budget,
    [execute_with_retry] returns that value with the store as the operation
    left it, after [k + 1] invocations and the backoff sleeps of attempts
    [1..k]; with [k = 0] the operation is invoked once and nothing else
    happens. *)
Theorem execute_with_retry_recovers :
  forall (context : string) (s : Sys W) (k : nat) (v : R) (st : Store W),
    Z.of_nat k <= max_attempts config ->
    (forall j, (j < k)%nat -> fails_at is_retryable op (store s) j) ->
    op (store_before op k (store s)) = (Return v, st) ->
    exists s',
      execute_with_retry config random_random (instrument op) is_retryable
        context s = (Return v, s') /\
      store s' = st /\
      trace s' = trace s ++ expected_trace config random_random (draws s) k /\
      count_invoked (trace s') = (count_invoked (trace s) + S k)%nat /\
      ticks s' = ticks s.
Proof.
  intros context s k v st Hk Hfail Hop.
  destruct (execute_with_retry_prefix context s k Hfail ltac:(lia) Hk)
    as (s_k & le_k & m & Hrun & Hst & Htk & Hd & Ht).
  rewrite Hrun. cbn [retry_loop].
  destruct (RetryFacts.before_attempt config random_random (trace s) (draws s)
              k s_k Hd Ht) as (Hst1 & Htk1 & Hd1 & Ht1).
  set (s1 := if 0 <? Z.of_nat k then _ else s_k) in *.
  unfold instrument at 1. rewrite Hst1, Hst, Hop.
  eexists. split; [reflexivity|]. cbn [log set_store store trace ticks].
  split; [reflexivity|]. split; [exact Ht1|]. split; [|congruence].
  rewrite Ht1, RetryFacts.count_invoked_app, RetryFacts.count_invoked_expected.
  reflexivity.
Qed.

(** X8.  When the first [k] invocations raise retryable exceptions and the
    next one raises an exception that the predicate refuses, with [k] within
    the retry budget, [execute_with_retry] raises that exception at once:
    after [k + 1] invocations, without a further sleep, with the store as the
    operation left it. *)
Theorem execute_with_retry_gives_up :
  forall (context : string) (s : Sys W) (k : nat) (error : ref) (x : Exn)
         (st : Store W),
    Z.of_nat k <= max_attempts config ->
    (forall j, (j < k)%nat -> fails_at is_retryable op (store s) j) ->
    op (store_before op k (store s)) = (Raise error, st) ->
    heap st !! error = Some x ->
    is_retryable x = false ->
    exists s',
      execute_with_retry config random_random (instrument op) is_retryable
        context s = (Raise error, s') /\
      store s' = st /\
      trace s' = trace s ++ expected_trace config random_random (draws s) k /\
      count_invoked (trace s') = (count_invoked (trace s) + S k)%nat.
Proof.
  intros context s k error x st Hk Hfail Hop Hx Hr.
  destruct (execute_with_retry_prefix context s k Hfail ltac:(lia) Hk)
    as (s_k & le_k & m & Hrun & Hst & Htk & Hd & Ht).
  rewrite Hrun. cbn [retry_loop].
  destruct (RetryFacts.before_attempt config random_random (trace s) (draws s)
              k s_k Hd Ht) as (Hst1 & Htk1 & Hd1 & Ht1).
  set (s1 := if 0 <? Z.of_nat k then _ else s_k) in *.
  unfold instrument at 1. rewrite Hst1, Hst, Hop.
  assert (Htest : test is_retryable (log Invoked (set_store st s1)) error = false).
  { unfold test, deref. cbn. rewrite Hx. exact Hr. }
  rewrite Htest. cbn [negb]. rewrite orb_true_r. cbn [raise_ref].
  eexists. split; [reflexivity|]. cbn [log set_store store trace].
  split; [reflexivity|]. split; [exact Ht1|].
  rewrite Ht1, RetryFacts.count_invoked_app, RetryFacts.count_invoked_expected.
  reflexivity.
Qed.

(** X6.  Whatever the operation and the predicate do, a call of
    [execute_with_retry] invokes the operation at least once and at most
    [max_attempts + 1] times, and sleeps exactly once between two
    invocations: one sleep less than invocations. *)
Theorem execute_with_retry_bounded :
  forall (context : string) (s : Sys W),
    0 <= max_attempts config ->
    exists t,
      trace (snd (execute_with_retry config random_random (instrument op)
                    is_retryable context s)) = trace s ++ t /\
      (1 <= count_invoked t)%nat /\
      Z.of_nat (count_invoked t) <= max_attempts config + 1 /\
      (count_slept t + 1 = count_invoked t)%nat.
Proof.
  intros context s Hmax. unfold execute_with_retry, range.
  replace (Z.to_nat (max_attempts config + 1))
    with (S (Z.to_nat (max_attempts config))) by lia.
  destruct (retry_loop_bounds config random_random op is_retryable
              (max_attempts config) (S (Z.to_nat (max_attempts config)))
              0%nat s None) as (t & Ht & Hle & Hge & Heq).
  exists t. repeat split; try lia. exact Ht.
Qed.

End Prefix.

(** ** The size of the delays *)

Section Delays.

Context {W : Type}.
Variable config : RetryConfig.
Variable random_random : nat -> Q.

Lemma exponential_delay_monotone (a b : Z) :
  0 <= base_ms config -> a <= b ->
  (exponential_delay config a <= exponential_delay config b)%Q.
Proof.
  intros Hb Hab. unfold exponential_delay.
  apply Qmult_le_compat_r; [|discriminate].
  rewrite !(Qmult_comm (inject_Z (base_ms config))).
  apply Qmult_le_compat_r.
  - apply Qpower_le_compat_l; [lia | discriminate].
  - change 0%Q with (inject_Z 0). rewrite <- Zle_Qle. exact Hb.
Qed.

(** X9.  No delay exceeds [max_ms / 1000] seconds, for any attempt number
    and any draw.  Without jitter the delay does not decrease from one
    attempt to a later one, and it is [max_ms / 1000] from the first attempt
    on whose exponential term [base_ms * 2^(attempt-1)] reaches [max_ms]. *)
Theorem delays_capped_and_growing :
  forall (s s' : Sys W),
    0 <= base_ms config ->
    (forall attempt,
       (fst (_calculate_delay config random_random attempt s)
          <= inject_Z (max_ms config) / 1000)%Q) /\
    (jitter config = false ->
     forall a b, a <= b ->
       (fst (_calculate_delay config random_random a s)
          <= fst (_calculate_delay config random_random b s'))%Q) /\
    (jitter config = false ->
     forall attempt, 1 <= attempt ->
       max_ms config <= base_ms config * 2 ^ (attempt - 1) ->
       (fst (_calculate_delay config random_random attempt s)
          == inject_Z (max_ms config) / 1000)%Q).
Proof.
  intros s s' Hb. split; [|split].
  - intros attempt. unfold _calculate_delay, delay_of.
    destruct (jitter config); cbn; apply Q.le_min_r.
  - intros Hj a b Hab. unfold _calculate_delay, delay_of. rewrite Hj. cbn.
    apply Q.min_le_compat_r, exponential_delay_monotone; assumption.
  - intros Hj attempt Ha Hreach. unfold _calculate_delay, delay_of.
    rewrite Hj. cbn. apply Q.min_r.
    rewrite (RetryFacts.exponential_delay_int config attempt Ha).
    apply Qmult_le_compat_r; [|discriminate].
    rewrite <- Zle_Qle. exact Hreach.
Qed.

End Delays.

Lemma flaky_fails_twice :
  forall j, (j < 2)%nat ->
    fails_at (fun _ => true) MoreExamples.flaky (store Examples.start) j.
Proof.
  intros j Hj. destruct j as [|[|j]]; [| | lia];
    eexists _, _, _; vm_compute; repeat split.
Qed.

(** Unavailable twice, then an answer: three invocations and the sleeps of
    0.1 and 0.2 seconds. *)
Lemma execute_with_retry_recovers_witness :
  exists s',
    execute_with_retry Examples.retry_twice_no_jitter Examples.half
      (instrument MoreExamples.flaky) (fun _ => true) "GET /verify"
      Examples.start = (Return 7, s') /\
    trace s' = [Invoked; Slept (Qmin (100 * 2 ^ 0 / 1000) (1000 / 1000)); Invoked;
                Slept (Qmin (100 * 2 ^ 1 / 1000) (1000 / 1000)); Invoked].
Proof.
  destruct (execute_with_retry_recovers Examples.retry_twice_no_jitter
              Examples.half MoreExamples.flaky (fun _ => true) "GET /verify"
              Examples.start 2 7
              (snd (MoreExamples.flaky
                      (store_before MoreExamples.flaky 2 (store Examples.start)))))
    as (s' & Hrun & _ & Ht & _).
  - cbn. lia.
  - exact flaky_fails_twice.
  - reflexivity.
  - exists s'. split; [exact Hrun | exact Ht].
Defined.

Lemma flaky_invalid_fails_once :
  forall j, (j < 1)%nat ->
    fails_at (Transport._create_retry_predicate "POST") MoreExamples.flaky_invalid
      (store Examples.start) j.
Proof.
  intros j Hj. destruct j as [|j]; [| lia].
  eexists _, _, _; vm_compute; repeat split.
Qed.

(** Unavailable once, then invalid: the validation error is raised after
    the second invocation although two retries are allowed. *)
Lemma execute_with_retry_gives_up_witness :
  exists error s',
    execute_with_retry Examples.retry_twice_no_jitter Examples.half
      (instrument MoreExamples.flaky_invalid)
      (Transport._create_retry_predicate "POST") "POST /sign"
      Examples.start = (Raise error, s') /\
    count_invoked (trace s') = 2%nat.
Proof.
  destruct (execute_with_retry_gives_up Examples.retry_twice_no_jitter
              Examples.half MoreExamples.flaky_invalid
              (Transport._create_retry_predicate "POST") "POST /sign"
              Examples.start 1 1%nat
              (CredLink (ValidationError_init "Request data failed validation"
                           no_kwargs))
              (snd (MoreExamples.flaky_invalid
                      (store_before MoreExamples.flaky_invalid 1
                         (store Examples.start)))))
    as (s' & Hrun & _ & _ & Hc).
  - cbn. lia.
  - exact flaky_invalid_fails_once.
  - reflexivity.
  - reflexivity.
  - reflexivity.
  - exists 1%nat, s'. split; [exact Hrun | exact Hc].
Defined.

(** At most three invocations under two retries, whatever happens. *)
Lemma execute_with_retry_bounded_witness :
  exists t,
    trace (snd (execute_with_retry Examples.retry_twice_no_jitter Examples.half
                  (instrument MoreExamples.flaky) (fun _ => true)
                  "GET /verify" Examples.start)) = [] ++ t /\
    Z.of_nat (count_invoked t) <= 2 + 1.
Proof.
  destruct (execute_with_retry_bounded Examples.retry_twice_no_jitter
              Examples.half MoreExamples.flaky (fun _ => true) "GET /verify"
              Examples.start) as (t & Ht & _ & Hle & _).
  - cbn. lia.
  - exists t. split; [exact Ht | exact Hle].
Defined.

(** The defaults without jitter: the delay of attempt 2 is at most that of
    attempt 4. *)
Lemma delays_capped_and_growing_witness :
  (fst (_calculate_delay Examples.retry_twice_no_jitter Examples.half 2
          Examples.start)
     <= inject_Z (max_ms Examples.retry_twice_no_jitter) / 1000)%Q.
Proof.
  destruct (delays_capped_and_growing Examples.retry_twice_no_jitter
              Examples.half Examples.start Examples.start) as (H & _).
  - cbn. lia.
  - apply H.
Defined.

End RetryMore.

(* ================================================================== *)
(** * More about the HTTP transport *)
(* ================================================================== *)

Module TransportMore.

Import Retry Transport Props.

(** ** Classification of error responses *)

Lemma status_cases (status : Z) :
  status = 401 \/ status = 403 \/ status = 409 \/ status = 422 \/
  status = 429 \/ status = 500 \/ status = 502 \/ status = 503 \/
  status = 504 \/
  (status <> 401 /\ status <> 403 /\ status <> 409 /\ status <> 422 /\
   status <> 429 /\ status <> 500 /\ status <> 502 /\ status <> 503 /\
   status <> 504).
Proof. lia. Qed.

Ltac by_status status :=
  destruct (status_cases status)
    as [->|[->|[->|[->|[->|[->|[->|[->|[->|
        (N1 & N2 & N3 & N4 & N5 & N6 & N7 & N8 & N9)]]]]]]]]];
  [ | | | | | | | | |
    unfold class_of_status; cbn [existsb];
    rewrite ?(proj2 (Z.eqb_neq status 401) N1), ?(proj2 (Z.eqb_neq status 403) N2),
            ?(proj2 (Z.eqb_neq status 409) N3), ?(proj2 (Z.eqb_neq status 422) N4),
            ?(proj2 (Z.eqb_neq status 429) N5), ?(proj2 (Z.eqb_neq status 500) N6),
            ?(proj2 (Z.eqb_neq status 502) N7), ?(proj2 (Z.eqb_neq status 503) N8),
            ?(proj2 (Z.eqb_neq status 504) N9) ].

Section Classification.

Context {R : Type}.
Variable py_int : string -> option Z.

Lemma usable_header (h : option string) :
  retry_after_usable py_int h ->
  match h with
  | Some h => if String.eqb h "" then Some None else option_map Some (py_int h)
  | None => Some None
  end = Some (retry_after_seconds py_int h).
Proof.
  destruct h as [h|]; cbn; [|reflexivity].
  intros [->|(n & Hn)]; [reflexivity|].
  destruct (String.eqb h ""); [reflexivity|]. rewrite Hn. reflexivity.
Qed.

(** The error of a response whose body and header can be used, with the
    message and the hint still to be filled in by the body. *)
Lemma handle_http_error_usable (response : Response R)
    (request_id path : string) (idempotency_key : option string) :
  (forall v, resp_json response <> json_other v) ->
  retry_after_usable py_int (resp_retry_after response) ->
  exists e,
    _handle_http_error py_int response request_id path idempotency_key
      = CredLink e /\
    CredLinkError.cls e = class_of_status (resp_status_code response) /\
    CredLinkError.request_id e = Some request_id /\
    CredLinkError.endpoint e = Some path /\
    CredLinkError.idempotency_key e
      = (if resp_status_code response =? 409 then idempotency_key else None) /\
    CredLinkError.retry_after e
      = (if resp_status_code response =? 429
         then retry_after_seconds py_int (resp_retry_after response)
         else None) /\
    CredLinkError.attempt_count e = None /\
    CredLinkError.hint e
      = (if resp_status_code response =? 403
         then Some (default "Insufficient permissions for this operation"
                            (body_hint response))
         else body_hint response) /\
    CredLinkError.message e
      = (if ErrorClass_eqb (class_of_status (resp_status_code response)) NetworkError
         then "HTTP " +:+ str_of_Z (resp_status_code response) +:+ ": "
              +:+ body_message response
         else body_message response).
Proof.
  intros Hbody Hhdr. unfold _handle_http_error, body_hint, body_message.
  destruct response as [status js hdr text]. cbn [resp_status_code resp_json
    resp_retry_after] in *.
  rewrite (usable_header hdr Hhdr).
  destruct js as [|entries v|v]; [| |exfalso; eapply Hbody; reflexivity];
    by_status status; cbn; eexists; repeat split.
Qed.

(** X10.  An error response whose body is a JSON object, or no JSON at all,
    and whose [Retry-After] header is absent, empty or an integer, is raised
    as the error class of its status: 401 and 403 as [AuthError], 409 as
    [ConflictError], 422 as [ValidationError], 429 as [RateLimitError], 500,
    502, 503 and 504 as [ServerError], every other status as [NetworkError].
    The retry predicate accepts the error unless the status is 401, 403, 409
    or 422.  The error carries the request id and the path; the idempotency
    key only on a 409, the parsed [Retry-After] only on a 429, and no attempt
    count. *)
Theorem error_response_classified :
  forall (response : Response R) (request_id path method : string)
         (idempotency_key : option string),
    (forall v, resp_json response <> json_other v) ->
    retry_after_usable py_int (resp_retry_after response) ->
    exists e,
      _handle_http_error py_int response request_id path idempotency_key
        = CredLink e /\
      CredLinkError.cls e = class_of_status (resp_status_code response) /\
      _create_retry_predicate method (CredLink e)
        = negb (existsb (Z.eqb (resp_status_code response)) [401; 403; 409; 422]) /\
      CredLinkError.request_id e = Some request_id /\
      CredLinkError.endpoint e = Some path /\
      CredLinkError.idempotency_key e
        = (if resp_status_code response =? 409 then idempotency_key else None) /\
      CredLinkError.retry_after e
        = (if resp_status_code response =? 429
           then retry_after_seconds py_int (resp_retry_after response)
           else None) /\
      CredLinkError.attempt_count e = None.
Proof.
  intros response request_id path method idempotency_key Hbody Hhdr.
  destruct (handle_http_error_usable response request_id path idempotency_key
              Hbody Hhdr)
    as (e & He & Hc & Hr & Hp & Hk & Hra & Hac & _ & _).
  exists e. repeat split; try assumption.
  unfold _create_retry_predicate. cbn [isinstance getattr_status_code].
  rewrite Hc. generalize (resp_status_code response) as status. intros status.
  by_status status; reflexivity.
Qed.

(** X12.  The hint of an error made from a response is the [hint] member of
    the body, and nothing when the body has none or is no JSON; only a 403
    falls back on a text of its own.  The default hints of the error classes
    are not used.  The message is the [detail] member, else the [message]
    member, else [HTTP <status>]; a [NetworkError] prefixes it with
    [HTTP <status>: ]. *)
Theorem error_hint_and_message :
  forall (response : Response R) (request_id path : string)
         (idempotency_key : option string) (e : CredLinkError.t),
    _handle_http_error py_int response request_id path idempotency_key
      = CredLink e ->
    CredLinkError.hint e
      = (if resp_status_code response =? 403
         then Some (default "Insufficient permissions for this operation"
                            (body_hint response))
         else body_hint response) /\
    CredLinkError.message e
      = (if ErrorClass_eqb (CredLinkError.cls e) NetworkError
         then "HTTP " +:+ str_of_Z (resp_status_code response) +:+ ": "
              +:+ body_message response
         else body_message response).
Proof.
  intros response request_id path idempotency_key e He.
  assert (Hbody : forall v, resp_json response <> json_other v).
  { intros v Hv. unfold _handle_http_error in He. rewrite Hv in He. discriminate. }
  assert (Hhdr : retry_after_usable py_int (resp_retry_after response)).
  { unfold _handle_http_error in He. unfold retry_after_usable.
    destruct (resp_json response); [| |discriminate];
      (destruct (resp_retry_after response) as [h|]; [|exact I]);
      (destruct (String.eqb h "") eqn:Eh;
       [left; apply String.eqb_eq, Eh|]);
      (destruct (py_int h) as [n|]; [right; exists n; reflexivity|]);
      cbn in He; discriminate. }
  destruct (handle_http_error_usable response request_id path idempotency_key
              Hbody Hhdr)
    as (e' & He' & Hc & _ & _ & _ & _ & _ & Hh & Hm).
  rewrite He in He'. injection He' as <-.
  rewrite Hc. split; assumption.
Qed.

End Classification.

(** X11.  An error response that cannot be read makes [_make_request] raise
    an exception of the interpreter instead of an error of the SDK, whatever
    the status: an [AttributeError] when the body is JSON but no object, a
    [ValueError] when the body is usable and the [Retry-After] header is
    neither empty nor an integer.  The retry predicate refuses both. *)
Theorem unreadable_error_response :
  forall {W R : Type} (client_request : Request R -> W -> Exchange R * W)
         (py_int : string -> option Z) (method path : string) (data : option R)
         (headers : gmap string string) (timeout : Z) (request_id : string)
         (st : Store W) (response : Response R) (w : W),
    client_request
      {| req_method := method; req_path := path; req_json := data;
         req_headers := headers; req_timeout := (inject_Z timeout / 1000)%Q |}
      (world st) = (Responded response, w) ->
    400 <= resp_status_code response ->
    ((exists v, resp_json response = json_other v) ->
       _make_request client_request py_int method path data headers
         (Some timeout) request_id st
       = (Raise (length (heap st)),
          {| world := w; heap := heap st ++ [AttributeError] |})) /\
    ((forall v, resp_json response <> json_other v) ->
     (exists h, resp_retry_after response = Some h /\ h <> "" /\ py_int h = None) ->
       _make_request client_request py_int method path data headers
         (Some timeout) request_id st
       = (Raise (length (heap st)),
          {| world := w; heap := heap st ++ [ValueError] |})) /\
    _create_retry_predicate method AttributeError = false /\
    _create_retry_predicate method ValueError = false.
Proof.
  intros W R client_request py_int method path data headers timeout request_id
    st response w Hx Hst.
  assert (Hge : (resp_status_code response >=? 400) = true)
    by (rewrite Z.geb_leb; apply Z.leb_le; exact Hst).
  split; [|split; [|split; reflexivity]].
  - intros (v & Hv). unfold _make_request. rewrite Hx, Hge.
    unfold _handle_http_error. rewrite Hv. reflexivity.
  - intros Hbody (h & Hh & Hne & Hint). unfold _make_request. rewrite Hx, Hge.
    unfold _handle_http_error. rewrite Hh.
    replace (String.eqb h "") with false
      by (symmetry; apply String.eqb_neq; exact Hne).
    rewrite Hint.
    destruct (resp_json response) as [|entries v|v]; try reflexivity.
    exfalso. eapply Hbody. reflexivity.
Qed.

(** A 429 with [Retry-After: 30]: a retryable [RateLimitError] that asks
    for 30 seconds. *)
Lemma error_response_classified_witness :
  exists e,
    _handle_http_error MoreExamples.int_of_header (MoreExamples.response_429 "30")
      "req_1" "/verify" None = CredLink e /\
    CredLinkError.cls e = RateLimitError /\
    _create_retry_predicate "GET" (CredLink e) = true /\
    CredLinkError.retry_after e = Some 30.
Proof.
  destruct (error_response_classified MoreExamples.int_of_header
              (MoreExamples.response_429 "30") "req_1" "/verify" "GET" None)
    as (e & He & Hc & Hr & _ & _ & _ & Hra & _).
  - discriminate.
  - right. exists 30. reflexivity.
  - exists e. repeat split; assumption.
Defined.

(** A 403 without body fields: the hint is the fallback of the 403 branch. *)
Lemma error_hint_and_message_witness :
  CredLinkError.hint
    (AuthError_init "HTTP 403"
       {| kw_request_id := Some "req_1"; kw_idempotency_key := None;
          kw_endpoint := Some "/verify";
          kw_hint := Some (Some "Insufficient permissions for this operation") |})
  = Some "Insufficient permissions for this operation".
Proof.
  apply (error_hint_and_message (fun _ => None)
           {| resp_status_code := 403; resp_json := json_raises (R := Z);
              resp_retry_after := None; resp_text := [] |}
           "req_1" "/verify" None).
  reflexivity.
Defined.

(** A 429 whose [Retry-After] header is a date: a [ValueError]. *)
Lemma unreadable_error_response_witness :
  _make_request MoreExamples.server_bad_header MoreExamples.int_of_header
    "GET" "/verify" None ∅ (Some 30000) "req_1" Examples.empty_store
  = (Raise 0%nat, {| world := [(inject_Z 30000 / 1000)%Q]; heap := [ValueError] |}).
Proof.
  apply (unreadable_error_response MoreExamples.server_bad_header
           MoreExamples.int_of_header "GET" "/verify" None ∅ 30000 "req_1"
           Examples.empty_store
           (MoreExamples.response_429 "Wed, 21 Oct 2026 07:28:00 GMT")
           [(inject_Z 30000 / 1000)%Q]).
  - reflexivity.
  - cbn. lia.
  - discriminate.
  - eexists. repeat split. discriminate.
Defined.

(** ** Calls of [request] *)

Section Calls.

Context {W R : Type}.
Variable client_request : Request R -> W -> Exchange R * W.
Variable py_int : string -> option Z.
Variable clock : nat -> Q.
Variable random_random : nat -> Q.
Variable random_randint : nat -> Z.

(** [request] is one call of the breaker around one call of the retry
    handler, after the request id has been drawn. *)
Lemma request_unfold (self : HttpTransport) (method path : string)
    (data : option R) (options : option RequestOptions.t) (s : Sys W) :
  request client_request py_int clock random_random random_randint self
    method path data options s
  = let rid := fst (_generate_request_id clock random_randint s) in
    let s1 := snd (_generate_request_id clock random_randint s) in
    let r :=
      Breaker.execute clock
        (execute_with_retry (retries (config self)) random_random
           (instrument
              (_make_request client_request py_int method path data
                 (call_headers {[ "X-Request-ID" := rid ]} options)
                 (call_timeout self options) rid))
           (_create_retry_predicate method) (method +:+ " " +:+ path))
        (circuit_breaker self) s1 in
    (fst (fst r), set_circuit_breaker (snd (fst r)) self, snd r).
Proof.
  unfold request. destruct (_generate_request_id clock random_randint s) as [rid s1].
  cbn [fst snd]. destruct (Breaker.execute _ _ _ _) as [[o cb] s2]. reflexivity.
Qed.

Lemma generate_request_id_frame (s : Sys W) :
  store (snd (_generate_request_id clock random_randint s)) = store s /\
  trace (snd (_generate_request_id clock random_randint s)) = trace s /\
  ticks (snd (_generate_request_id clock random_randint s)) = S (ticks s) /\
  draws (snd (_generate_request_id clock random_randint s)) = S (draws s).
Proof. repeat split. Qed.

Lemma first_attempt_returns (config : RetryConfig)
    (op : Store W -> Outcome R * Store W) (is_retryable : Exn -> bool)
    (context : string) (s : Sys W) (v : R) (st : Store W) :
  0 <= max_attempts config ->
  op (store s) = (Return v, st) ->
  execute_with_retry config random_random (instrument op) is_retryable context s
  = (Return v, log Invoked (set_store st s)).
Proof.
  intros Hmax Hop. unfold execute_with_retry, range.
  replace (Z.to_nat (max_attempts config + 1))
    with (S (Z.to_nat (max_attempts config))) by lia.
  cbn [seq map retry_loop]. change (0 <? Z.of_nat 0) with false. cbn iota.
  unfold instrument. rewrite Hop. reflexivity.
Qed.

(** X13.  A call through a closed breaker whose first exchange is answered
    with a status below 400 and a JSON body returns the decoded body.  The
    exchange carries the method, the path, the data, the headers of the call
    and the timeout in seconds; it is the only one, nothing is slept and no
    exception is made; the breaker is closed afterwards with no failure on
    record. *)
Theorem request_succeeds :
  forall (self : HttpTransport) (method path : string) (data : option R)
         (options : option RequestOptions.t) (s : Sys W) (timeout : Z)
         (response : Response R) (v : R) (w : W),
    Breaker.get_state (circuit_breaker self) = Breaker.closed ->
    0 <= max_attempts (retries (config self)) ->
    call_timeout self options = Some timeout ->
    client_request
      {| req_method := method; req_path := path; req_json := data;
         req_headers :=
           call_headers
             {[ "X-Request-ID" := fst (_generate_request_id clock random_randint s) ]}
             options;
         req_timeout := (inject_Z timeout / 1000)%Q |}
      (world (store s)) = (Responded response, w) ->
    resp_status_code response < 400 ->
    (exists entries, resp_json response = json_dict entries v) \/
    resp_json response = json_other v ->
    exists self' s',
      request client_request py_int clock random_random random_randint self
        method path data options s = (Return v, self', s') /\
      Breaker.get_state (circuit_breaker self') = Breaker.closed /\
      Breaker.failure_count (Breaker.self_state (circuit_breaker self')) = 0 /\
      config self' = config self /\
      world (store s') = w /\
      heap (store s') = heap (store s) /\
      trace s' = trace s ++ [Invoked].
Proof.
  intros self method path data options s timeout response v w Hst Hmax Ht Hx
    Hlt Hjs.
  rewrite request_unfold. cbn zeta.
  set (rid := fst (_generate_request_id clock random_randint s)) in *.
  set (s1 := snd (_generate_request_id clock random_randint s)).
  unfold Breaker.execute. rewrite Hst. unfold Breaker.execute_try.
  rewrite (first_attempt_returns (retries (config self)) _ _ _ s1 v
             {| world := w; heap := heap (store s) |} Hmax).
  - rewrite BreakerFacts.on_success_closed by exact Hst.
    eexists _, _. split; [reflexivity|]. repeat split.
  - unfold _make_request. rewrite Ht.
    change (world (store s1)) with (world (store s)). rewrite Hx.
    replace (resp_status_code response >=? 400) with false
      by (symmetry; rewrite Z.geb_leb; apply Z.leb_gt; exact Hlt).
    destruct Hjs as [(entries & ->)| ->]; reflexivity.
Qed.

(** X14.  A call made while the breaker is open and the time of the next
    attempt has not come, by the clock reading that follows the one for the
    request id, raises the circuit-open [NetworkError]: no exchange takes
    place, nothing is logged or slept, and the transport is as before. *)
Theorem request_rejected_while_open :
  forall (self : HttpTransport) (method path : string) (data : option R)
         (options : option RequestOptions.t) (s : Sys W) (t : Q),
    Breaker.get_state (circuit_breaker self) = Breaker.open ->
    Breaker.next_attempt_time (Breaker.self_state (circuit_breaker self)) = Some t ->
    (clock (S (ticks s)) < t)%Q ->
    exists error s',
      request client_request py_int clock random_random random_randint self
        method path data options s = (Raise error, self, s') /\
      deref s' error = Some (Breaker.circuit_open_error (circuit_breaker self)) /\
      world (store s') = world (store s) /\
      trace s' = trace s.
Proof.
  intros self method path data options s t Hst Hnat Hlt.
  rewrite request_unfold. cbn zeta.
  rewrite BreakerFacts.execute_rejects.
  - eexists _, _. split; [|split; [|split]].
    + cbn [fst snd]. destruct self; reflexivity.
    + unfold deref. cbn. now apply (list_lookup_middle _ []).
    + reflexivity.
    + reflexivity.
  - exact Hst.
  - rewrite Hnat. apply BreakerFacts.Qltb_lt.
    rewrite BreakerFacts.or_zero_Some. exact Hlt.
Qed.

(** X15.  The breaker counts calls, not exchanges, and does not look at the
    error: a call through a closed breaker that ends in an exception, of
    whatever class and after however many attempts, adds exactly one to the
    failure count, and opens the breaker when the count reaches the
    threshold; a call that returns leaves a closed breaker without failures
    on record. *)
Theorem request_counts_one_failure :
  forall (self : HttpTransport) (method path : string) (data : option R)
         (options : option RequestOptions.t) (s : Sys W),
    Breaker.get_state (circuit_breaker self) = Breaker.closed ->
    match fst (fst (request client_request py_int clock random_random
                      random_randint self method path data options s)) with
    | Return _ =>
        Breaker.get_state
          (circuit_breaker
             (snd (fst (request client_request py_int clock random_random
                          random_randint self method path data options s))))
          = Breaker.closed /\
        Breaker.failure_count
          (Breaker.self_state
             (circuit_breaker
                (snd (fst (request client_request py_int clock random_random
                             random_randint self method path data options s)))))
          = 0
    | Raise _ =>
        Breaker.failure_count
          (Breaker.self_state
             (circuit_breaker
                (snd (fst (request client_request py_int clock random_random
                             random_randint self method path data options s)))))
          = Breaker.failure_count (Breaker.self_state (circuit_breaker self)) + 1 /\
        Breaker.get_state
          (circuit_breaker
             (snd (fst (request client_request py_int clock random_random
                          random_randint self method path data options s))))
          = (if Breaker.failure_count (Breaker.self_state (circuit_breaker self)) + 1
                >=? Breaker.failure_threshold (circuit_breaker self)
             then Breaker.open else Breaker.closed)
    end.
Proof.
  intros self method path data options s Hst.
  rewrite request_unfold. cbn zeta. cbn [fst snd circuit_breaker set_circuit_breaker].
  unfold Breaker.execute. rewrite Hst. unfold Breaker.execute_try.
  destruct (execute_with_retry _ _ _ _ _ _) as [[v|error] s2].
  - rewrite BreakerFacts.on_success_closed by exact Hst. cbn. split; reflexivity.
  - pose proof (BreakerFacts.on_failure_closed clock (circuit_breaker self) s2 Hst)
      as Hf. cbn zeta in Hf.
    destruct (Breaker._on_failure clock (circuit_breaker self) s2) as [cb' s3].
    cbn [fst snd] in *. subst cb'.
    destruct (_ >=? _); cbn; unfold Breaker.get_state in *; cbn;
      split; try reflexivity; exact Hst.
Qed.

End Calls.

(** ** Headers of a call *)

(** X16.  A header of a call is the caller's header of that name if there
    is one; else, for [Idempotency-Key], the idempotency key of the options
    when it is not empty; else the header the transport set itself.  So the
    request id is sent under [X-Request-ID] unless the caller's headers name
    that header too. *)
Theorem call_headers_lookup :
  forall (base : gmap string string) (options : option RequestOptions.t)
         (h : string),
    call_headers base options !! h
    = match (match options with
             | Some o => default ∅ (RequestOptions.headers o)
             | None => ∅
             end : gmap string string) !! h with
      | Some v => Some v
      | None =>
          match call_idempotency_key options with
          | Some k =>
              if bool_decide (h = "Idempotency-Key") && negb (String.eqb k "")
              then Some k
              else base !! h
          | None => base !! h
          end
      end.
Proof.
  intros base options h. unfold call_headers.
  set (keyed := match call_idempotency_key options with
                | Some k => if String.eqb k "" then base
                            else <["Idempotency-Key" := k]> base
                | None => base
                end).
  assert (Hkeyed : keyed !! h
                   = match call_idempotency_key options with
                     | Some k =>
                         if bool_decide (h = "Idempotency-Key")
                            && negb (String.eqb k "")
                         then Some k else base !! h
                     | None => base !! h
                     end).
  { subst keyed. destruct (call_idempotency_key options) as [k|]; [|reflexivity].
    destruct (String.eqb k ""); cbn [negb].
    - rewrite andb_false_r. reflexivity.
    - rewrite andb_true_r. case_bool_decide as Hh.
      + subst h. apply lookup_insert_eq.
      + apply lookup_insert_ne. congruence. }
  destruct options as [o|]; [|rewrite lookup_empty; exact Hkeyed].
  destruct (RequestOptions.headers o) as [custom|]; cbn [default];
    [|rewrite lookup_empty; exact Hkeyed].
  change (id custom) with custom.
  destruct (custom !! h) as [v|] eqn:Hc.
  - apply lookup_union_Some_l. exact Hc.
  - rewrite lookup_union_r by exact Hc. exact Hkeyed.
Qed.

(** ** The streaming iterator *)

Section Streaming.

Context {R : Type}.
Variable json_loads : Text.str -> Loaded R.

(** X17.  The iterator decodes every line on its own, up to the line that
    ends the stream: over a sequence of lines in two parts it yields what it
    yields over the first part and, unless the first part ended the stream
    with an exception, what it yields over the second part after that,
    ending as it does there.  It never yields more values than there are
    lines. *)
Theorem iterator_app :
  forall lines1 lines2 : list Text.str,
    iterator json_loads (lines1 ++ lines2)
    = match snd (iterator json_loads lines1) with
      | Some x => (fst (iterator json_loads lines1), Some x)
      | None =>
          (fst (iterator json_loads lines1) ++ fst (iterator json_loads lines2),
           snd (iterator json_loads lines2))
      end /\
    (length (fst (iterator json_loads lines1)) <= length lines1)%nat.
Proof.
  intros lines1 lines2. split.
  - induction lines1 as [|line lines1 IH].
    + cbn [app iterator fst snd]. destruct (iterator json_loads lines2).
      reflexivity.
    + cbn [app iterator]. destruct (Text.strip line); [exact IH|].
      destruct (json_loads line); [|exact IH|reflexivity].
      rewrite IH. destruct (iterator json_loads lines1) as [vs [x|]];
        reflexivity.
  - induction lines1 as [|line lines1 IH]; [cbn; lia|].
    cbn [iterator length]. destruct (Text.strip line); [lia|].
    destruct (json_loads line); [|lia|cbn; lia].
    destruct (iterator json_loads lines1). cbn [fst length] in *. lia.
Qed.

(** X18.  Values written one per line come back in order: when the body is
    the encodings of a list of values, each ended by a line feed, and every
    encoding is free of the characters at which [str.splitlines()] cuts, not
    blank and decoded by [json.loads] to its value, the iterator yields
    exactly that list and ends without exception. *)
Theorem iterator_reads_ndjson :
  forall (encode : R -> Text.str) (values : list R) (response : Response R),
    resp_text response = ndjson (map encode values) ->
    (forall v, In v values ->
       one_line (encode v) = true /\
       is_blank (encode v) = false /\
       json_loads (encode v) = loaded v) ->
    _create_async_iterator json_loads response = (values, None).
Proof.
  intros encode values response Htext Henc.
  unfold _create_async_iterator, aiter_lines.
  rewrite Htext, TextFacts.splitlines_ndjson.
  - clear Htext. induction values as [|v values IH]; [reflexivity|].
    cbn [map]. rewrite TransportFacts.iterator_cons.
    destruct (Henc v (or_introl eq_refl)) as (_ & Hb & Hl).
    unfold abort_of, record_of. rewrite Hb, Hl, IH; [reflexivity|].
    intros v' Hv'. apply Henc. right. exact Hv'.
  - apply List.Forall_forall. intros r Hr. apply in_map_iff in Hr.
    destruct Hr as (v & <- & Hv). apply (Henc v Hv).
Qed.

End Streaming.

(** ** Calls of [request_stream] *)

Section StreamCalls.

Context {W R : Type}.
Variable client_stream : Request R -> W -> Exchange R * W.
Variable py_int : string -> option Z.
Variable json_loads : Text.str -> Loaded R.
Variable clock : nat -> Q.
Variable random_random : nat -> Q.
Variable random_randint : nat -> Z.

(** The closure raises a [TypeError] whatever it is given, and leaves the
    network alone. *)
Lemma make_stream_request_raises (method path : string) (data : option R)
    (headers : gmap string string) (timeout : option Z) (request_id : string)
    (idempotency_key : option string) (st : Store W) :
  make_stream_request client_stream py_int method path data headers timeout
    request_id idempotency_key st
  = (Raise (length (heap st)),
     {| world := world st; heap := heap st ++ [TypeError] |}).
Proof. destruct timeout; reflexivity. Qed.

Lemma range_head (n : Z) :
  0 <= n -> exists l, range (n + 1) = 0 :: l.
Proof.
  intros Hn. unfold range.
  replace (Z.to_nat (n + 1)) with (S (Z.to_nat n)) by lia.
  cbn [seq map]. eexists. reflexivity.
Qed.

Lemma range_empty (n : Z) : n < 0 -> range (n + 1) = [].
Proof.
  intros Hn. unfold range.
  replace (Z.to_nat (n + 1)) with 0%nat by lia. reflexivity.
Qed.

(** The retry handler around the closure: the [TypeError] is not
    retryable, so the first attempt is the only one. *)
Lemma stream_attempts_raise (config : RetryConfig) (method path : string)
    (data : option R) (headers : gmap string string) (timeout : option Z)
    (request_id : string) (idempotency_key : option string)
    (context : string) (s : Sys W) :
  exists error s',
    execute_with_retry config random_random
      (instrument (make_stream_request client_stream py_int method path data
                     headers timeout request_id idempotency_key))
      (_create_retry_predicate method) context s
    = (Raise error, s') /\
    deref s' error = Some TypeError /\
    world (store s') = world (store s) /\
    (0 <= max_attempts config -> trace s' = trace s ++ [Invoked]).
Proof.
  unfold execute_with_retry.
  destruct (Z.lt_ge_cases (max_attempts config) 0) as [Hneg|Hpos].
  - rewrite range_empty by exact Hneg. cbn [retry_loop raise_ref].
    eexists _, _. split; [reflexivity|]. split; [|split].
    + unfold deref. cbn. now apply (list_lookup_middle _ []).
    + reflexivity.
    + lia.
  - destruct (range_head _ Hpos) as (l & ->). cbn [retry_loop].
    change (0 <? 0) with false. cbn iota.
    unfold instrument at 1. rewrite make_stream_request_raises.
    assert (Ht : test (_create_retry_predicate method)
                   (log Invoked
                      (set_store
                         {| world := world (store s);
                            heap := heap (store s) ++ [TypeError] |} s))
                   (length (heap (store s))) = false).
    { unfold test, deref. cbn [log set_store store heap].
      match goal with
      | |- match ?t with _ => _ end = _ =>
          replace t with (Some TypeError)
            by (symmetry; now apply (list_lookup_middle _ []))
      end.
      reflexivity. }
    rewrite Ht. cbn [negb]. rewrite orb_true_r. cbn [raise_ref].
    eexists _, _. split; [reflexivity|]. split; [|split].
    + unfold deref. cbn. now apply (list_lookup_middle _ []).
    + reflexivity.
    + intros _. reflexivity.
Qed.

Lemma on_failure_frame (cb : Breaker.CircuitBreaker) (s : Sys W) :
  store (snd (Breaker._on_failure clock cb s)) = store s /\
  trace (snd (Breaker._on_failure clock cb s)) = trace s.
Proof.
  unfold Breaker._on_failure, Breaker._set_state, Breaker.time_time.
  cbn. destruct (Breaker.state (Breaker.self_state cb)); cbn;
    try destruct (_ >=? _); cbn; split; reflexivity.
Qed.

(** X24.  A call of [request_stream] never returns a stream.  Whatever the
    transport, the request and the answer the network would give, the call
    ends in an exception, and no exchange takes place.  Through a closed
    breaker, with a retry budget that is not negative, the exception is the
    [TypeError] of the first and only attempt, and the breaker has one more
    failure on record. *)
Theorem request_stream_never_returns :
  forall (self : HttpTransport) (method path : string) (data : option R)
         (options : option RequestOptions.t) (s : Sys W),
    exists error self' s',
      request_stream client_stream py_int json_loads clock random_random
        random_randint self method path data options s
      = (Raise error, self', s') /\
      world (store s') = world (store s) /\
      config self' = config self /\
      (Breaker.get_state (circuit_breaker self) = Breaker.closed ->
       0 <= max_attempts (retries (config self)) ->
       deref s' error = Some TypeError /\
       trace s' = trace s ++ [Invoked] /\
       Breaker.failure_count (Breaker.self_state (circuit_breaker self'))
       = Breaker.failure_count (Breaker.self_state (circuit_breaker self)) + 1).
Proof.
  intros self method path data options s.
  unfold request_stream.
  destruct (_generate_request_id clock random_randint s) as [rid s1] eqn:Hid.
  assert (Hs1 : store s1 = store s /\ trace s1 = trace s).
  { unfold _generate_request_id in Hid. cbn in Hid. injection Hid as _ <-.
    split; reflexivity. }
  destruct Hs1 as [Hstore Htrace].
  set (op := execute_with_retry _ _ _ _ _).
  assert (Hop : forall s0 : Sys W, exists error s',
            op s0 = (Raise error, s') /\
            deref s' error = Some TypeError /\
            world (store s') = world (store s0) /\
            (0 <= max_attempts (retries (config self)) ->
             trace s' = trace s0 ++ [Invoked])).
  { intros s0. apply stream_attempts_raise. }
  assert (Htry : forall (cb : Breaker.CircuitBreaker) (s0 : Sys W),
            exists error cb' s',
              Breaker.execute_try clock op cb s0 = (Raise error, cb', s') /\
              world (store s') = world (store s0) /\
              (0 <= max_attempts (retries (config self)) ->
               deref s' error = Some TypeError /\
               trace s' = trace s0 ++ [Invoked]) /\
              cb' = fst (Breaker._on_failure clock cb
                           (snd (op s0)))).
  { intros cb s0. destruct (Hop s0) as (error & s' & Hrun & Hd & Hw & Ht).
    unfold Breaker.execute_try. rewrite Hrun. cbn [snd].
    pose proof (on_failure_frame cb s') as [Hfs Hft].
    destruct (Breaker._on_failure clock cb s') as [cb' s''].
    cbn [fst snd] in *.
    eexists _, _, _. split; [reflexivity|]. split; [|split].
    - rewrite Hfs. exact Hw.
    - intros Hmax. split.
      + unfold deref. rewrite Hfs. exact Hd.
      + rewrite Hft. apply Ht. exact Hmax.
    - reflexivity. }
  unfold Breaker.execute.
  destruct (Breaker.get_state (circuit_breaker self)) eqn:Hst.
  - destruct (Htry (circuit_breaker self) s1)
      as (error & cb' & s' & Hrun & Hw & Hd & Hcb).
    rewrite Hrun. eexists _, _, _. split; [reflexivity|].
    split; [rewrite Hw, Hstore; reflexivity|]. split; [reflexivity|].
    intros _ Hmax. destruct (Hd Hmax) as [Hde Htr].
    split; [exact Hde|]. split; [rewrite Htr, Htrace; reflexivity|].
    cbn [circuit_breaker set_circuit_breaker]. rewrite Hcb.
    rewrite BreakerFacts.on_failure_closed by exact Hst. cbn zeta.
    destruct (_ >=? _); reflexivity.
  - destruct (Breaker.time_time clock s1) as [now s2] eqn:Htt.
    assert (Hs2 : store s2 = store s1).
    { unfold Breaker.time_time in Htt. injection Htt as _ <-. reflexivity. }
    destruct (Breaker.Qltb now _).
    + cbn. eexists _, _, _. split; [reflexivity|].
      split; [cbn; rewrite Hs2, Hstore; reflexivity|]. split; [reflexivity|].
      intros Hc. discriminate Hc.
    + cbn [Breaker._set_state].
      destruct (Htry (Breaker.set_half_open_calls 0
                        (Breaker.set_state Breaker.half_open (circuit_breaker self)))
                  s2)
        as (error & cb' & s' & Hrun & Hw & _ & _).
      rewrite Hrun. eexists _, _, _. split; [reflexivity|].
      split; [rewrite Hw, Hs2, Hstore; reflexivity|]. split; [reflexivity|].
      intros Hc. discriminate Hc.
  - destruct (Htry (circuit_breaker self) s1)
      as (error & cb' & s' & Hrun & Hw & _ & _).
    rewrite Hrun. eexists _, _, _. split; [reflexivity|].
    split; [rewrite Hw, Hstore; reflexivity|]. split; [reflexivity|].
    intros Hc. discriminate Hc.
Qed.

End StreamCalls.

(** The stream of the example, which the server would serve with status
    200: the call raises the [TypeError] and the server is not reached. *)
Lemma request_stream_never_returns_witness :
  exists error self' s',
    request_stream (fun _ w => (Responded Examples.stream_response, w ++ [0%Q]))
      (fun _ => None) MiniJson.loads
      (Examples.clock_from 100) Examples.half Examples.randint_const
      Examples.transport "GET" "/verify/page" None None Examples.start
    = (Raise error, self', s') /\
    world (store s') = [] /\
    deref s' error = Some TypeError /\
    trace s' = [Invoked].
Proof.
  destruct (request_stream_never_returns
              (fun _ w => (Responded Examples.stream_response, w ++ [0%Q]))
              (fun _ => None) MiniJson.loads
              (Examples.clock_from 100) Examples.half Examples.randint_const
              Examples.transport "GET" "/verify/page" None None Examples.start)
    as (error & self' & s' & Hrun & Hw & _ & H).
  destruct (H eq_refl ltac:(cbn; lia)) as (Hd & Ht & _).
  exists error, self', s'. repeat split; assumption.
Defined.

(** A 200 with an empty object as body. *)
Lemma request_succeeds_witness :
  exists self' s',
    request (Examples.server_always 200) (fun _ => None)
      (Examples.clock_from 100) Examples.half Examples.randint_const
      Examples.transport "GET" "/verify" None None Examples.start
    = (Return (MiniJson.JObj []), self', s') /\
    trace s' = [Invoked].
Proof.
  destruct (request_succeeds (Examples.server_always 200) (fun _ => None)
              (Examples.clock_from 100) Examples.half Examples.randint_const
              Examples.transport "GET" "/verify" None None Examples.start
              30000 MoreExamples.response_200 (MiniJson.JObj [])
              [(inject_Z 30000 / 1000)%Q])
    as (self' & s' & Hrun & _ & _ & _ & _ & _ & Ht).
  - reflexivity.
  - cbn. lia.
  - reflexivity.
  - reflexivity.
  - cbn. lia.
  - left. eexists. reflexivity.
  - exists self', s'. split; [exact Hrun | exact Ht].
Defined.

(** The breaker is open until 160 and the second clock reading is 101. *)
Lemma request_rejected_while_open_witness :
  exists error s',
    request (Examples.server_always 200) (fun _ => None)
      (Examples.clock_from 100) Examples.half Examples.randint_const
      MoreExamples.transport_open "GET" "/verify" None None Examples.start
    = (Raise error, MoreExamples.transport_open, s') /\
    world (store s') = [].
Proof.
  destruct (request_rejected_while_open (Examples.server_always 200)
              (fun _ => None) (Examples.clock_from 100) Examples.half
              Examples.randint_const MoreExamples.transport_open
              "GET" "/verify" None None Examples.start (160 # 1))
    as (error & s' & Hrun & _ & Hw & _).
  - reflexivity.
  - reflexivity.
  - reflexivity.
  - exists error, s'. split; [exact Hrun | exact Hw].
Defined.

(** A validation error counts as a failure of the breaker. *)
Lemma request_counts_one_failure_witness :
  Breaker.failure_count
    (Breaker.self_state
       (circuit_breaker
          (snd (fst (request (Examples.server_always 422) (fun _ => None)
                       (Examples.clock_from 100) Examples.half
                       Examples.randint_const Examples.transport
                       "POST" "/sign" None None Examples.start)))))
  = 0 + 1.
Proof.
  pose proof (request_counts_one_failure (Examples.server_always 422)
                (fun _ => None) (Examples.clock_from 100) Examples.half
                Examples.randint_const Examples.transport
                "POST" "/sign" None None Examples.start eq_refl) as H.
  vm_compute in H. destruct H as [H _]. vm_compute. exact H.
Defined.

(** The numbers 1 and 2, one per line. *)
Lemma iterator_reads_ndjson_witness :
  _create_async_iterator MiniJson.loads
    {| resp_status_code := 200; resp_json := json_raises;
       resp_retry_after := None;
       resp_text := ndjson (map MoreExamples.encode_small
                              [MiniJson.JNum 1; MiniJson.JNum 2]) |}
  = ([MiniJson.JNum 1; MiniJson.JNum 2], None).
Proof.
  apply (iterator_reads_ndjson MiniJson.loads MoreExamples.encode_small).
  - reflexivity.
  - intros v [<-|[<-|[]]]; vm_compute; repeat split.
Defined.

End TransportMore.

(* ================================================================== *)
(** * Properties of the summaries and validators of types.py *)
(* ================================================================== *)

Module ValidatorFacts.

Import Validators.

(** ** API keys *)

Lemma falsy_strip (v : Text.str) : falsy (Text.strip v) = Props.is_blank v.
Proof.
  destruct (Props.is_blank v) eqn:E.
  - apply TextFacts.strip_blank in E. rewrite E. reflexivity.
  - destruct (Text.strip v) eqn:Es; [|reflexivity].
    apply TextFacts.strip_blank in Es. congruence.
Qed.

(** X20.  [validate_api_key] refuses exactly the keys that are empty or
    white space only, white space being that of Unicode.  A key it accepts
    comes back without white space at either end and is not blank;
    validating it again returns it unchanged, and the test at the head of
    [Client.__init__] never refuses it. *)
Theorem validated_api_key :
  forall (v k : Text.str),
    validate_api_key v = Some k ->
    k = Text.strip v /\
    Props.is_blank k = false /\
    Text.lstrip k = k /\
    Text.lstrip (rev k) = rev k /\
    validate_api_key k = Some k /\
    client_rejects_key k = false /\
    (forall u, validate_api_key u = None <-> Props.is_blank u = true).
Proof.
  intros v k Hv.
  assert (Hrej : forall u, validate_api_key u = None <-> Props.is_blank u = true).
  { intros u. unfold validate_api_key. rewrite falsy_strip.
    destruct u as [|c u]; [cbn; tauto|]. cbn [falsy orb].
    destruct (Props.is_blank (c :: u)); split;
      (reflexivity || discriminate). }
  assert (Hk : k = Text.strip v).
  { unfold validate_api_key in Hv. destruct (_ || _); [discriminate|].
    injection Hv as <-. reflexivity. }
  assert (Hnb : Props.is_blank v = false).
  { destruct (Props.is_blank v) eqn:E; [|reflexivity].
    apply Hrej in E. congruence. }
  assert (Hkb : Props.is_blank k = false).
  { rewrite <- falsy_strip. subst k. rewrite TextFacts.strip_strip, falsy_strip.
    exact Hnb. }
  assert (Hkk : validate_api_key k = Some k).
  { destruct (validate_api_key k) as [k'|] eqn:E.
    - unfold validate_api_key in E. destruct (_ || _); [discriminate|].
      injection E as <-. subst k. rewrite TextFacts.strip_strip. reflexivity.
    - apply Hrej in E. congruence. }
  split; [exact Hk|]. split; [exact Hkb|].
  destruct (TextFacts.strip_shape v) as (_ & H1 & H2).
  split; [subst k; exact H1|].
  split; [subst k; exact H2|].
  split; [exact Hkk|]. split; [|exact Hrej].
  unfold client_rejects_key. unfold validate_api_key in Hkk.
  destruct (_ || _); [discriminate | reflexivity].
Qed.

(** A key between a no-break space and a space in front and an em space
    behind. *)
Lemma validated_api_key_witness :
  validate_api_key (0xA0%N :: 0x20%N :: Text.str_of "test-key" ++ [0x2003%N])
  = Some (Text.str_of "test-key").
Proof.
  apply (validated_api_key
           (0xA0%N :: 0x20%N :: Text.str_of "test-key" ++ [0x2003%N])
           (Text.str_of "test-key")).
  reflexivity.
Defined.

(** ** ETags *)

Lemma chars_of_append (a b : string) :
  list_ascii_of_string (a +:+ b)
  = list_ascii_of_string a ++ list_ascii_of_string b.
Proof.
  induction a as [|x a IH]; [reflexivity|].
  change (x :: list_ascii_of_string (a +:+ b)
          = x :: (list_ascii_of_string a ++ list_ascii_of_string b)).
  f_equal. exact IH.
Qed.

(** X21.  [validate_etag] hands back what it accepts as it is.  An ETag it
    accepts is not empty and begins and ends with a double quote; every text
    put between double quotes is accepted, and so is a missing ETag. *)
Theorem validated_etag :
  forall (e : string) (r : option string),
    validate_etag (Some e) = Some r ->
    r = Some e /\
    e <> "" /\
    startswith_quote e = true /\
    endswith_quote e = true /\
    (forall inner,
       validate_etag (Some (Examples.dq +:+ inner +:+ Examples.dq))
       = Some (Some (Examples.dq +:+ inner +:+ Examples.dq))) /\
    validate_etag None = Some None.
Proof.
  intros e r H. unfold validate_etag in H.
  destruct (startswith_quote e) eqn:Hs; [|discriminate].
  destruct (endswith_quote e) eqn:He; [|discriminate].
  cbn in H. injection H as <-.
  split; [reflexivity|]. split; [intros ->; discriminate|].
  split; [reflexivity|]. split; [reflexivity|]. split; [|reflexivity].
  intros inner. unfold validate_etag, startswith_quote, endswith_quote.
  rewrite !chars_of_append. cbn [Examples.dq list_ascii_of_string app].
  change ("034"%char :: list_ascii_of_string inner ++ ["034"%char])
    with (["034"%char] ++ list_ascii_of_string inner ++ ["034"%char]).
  rewrite !rev_app_distr. reflexivity.
Qed.

(** The ETag of the error message of the validator. *)
Lemma validated_etag_witness :
  startswith_quote (Examples.dq +:+ "abc123" +:+ Examples.dq) = true.
Proof.
  apply (validated_etag (Examples.dq +:+ "abc123" +:+ Examples.dq)
           (Some (Examples.dq +:+ "abc123" +:+ Examples.dq))).
  reflexivity.
Defined.

(** ** Certificate thumbprints *)

Lemma thumbprints_pass_app (l1 l2 : list string) :
  thumbprints_pass (l1 ++ l2) = thumbprints_pass l1 && thumbprints_pass l2.
Proof.
  induction l1 as [|t l1 IH]; [reflexivity|].
  cbn [app thumbprints_pass]. destruct (_ || _); [reflexivity | exact IH].
Qed.

(** X22.  [validate_thumbprints] accepts a list, and hands it back as it
    is, exactly when every item is a non-empty text of hexadecimal digits and
    colons; otherwise it raises.  Items are judged one by one, so a list
    passes exactly when each of its parts passes; a missing list passes. *)
Theorem validated_thumbprints :
  forall (items : list string),
    (validate_thumbprints (Some items) = Some (Some items) <->
     forall t, In t items ->
       t <> "" /\
       forall c, In c (list_ascii_of_string t) -> thumbprint_char c = true) /\
    (validate_thumbprints (Some items) = Some (Some items) \/
     validate_thumbprints (Some items) = None) /\
    (forall l1 l2, items = l1 ++ l2 ->
       (validate_thumbprints (Some items) = Some (Some items) <->
        validate_thumbprints (Some l1) = Some (Some l1) /\
        validate_thumbprints (Some l2) = Some (Some l2))) /\
    validate_thumbprints None = Some None.
Proof.
  intros items.
  assert (Hval : forall l, validate_thumbprints (Some l) = Some (Some l)
                           <-> thumbprints_pass l = true).
  { intros l. unfold validate_thumbprints.
    destruct (thumbprints_pass l); split; (reflexivity || discriminate). }
  split; [|split; [|split; [|reflexivity]]].
  - rewrite Hval. induction items as [|t items IH]; cbn [thumbprints_pass].
    + split; [intros _ t [] | reflexivity].
    + destruct (String.eqb t "") eqn:Et; cbn [orb].
      * apply String.eqb_eq in Et. split; [discriminate|].
        intros H. destruct (H t (or_introl eq_refl)) as [Hne _]. congruence.
      * apply String.eqb_neq in Et.
        destruct (forallb thumbprint_char (list_ascii_of_string t)) eqn:Ef;
          cbn [negb].
        -- rewrite IH. split.
           ++ intros H t' [<-|Hin]; [|exact (H t' Hin)].
              split; [exact Et|]. apply List.forallb_forall. exact Ef.
           ++ intros H t' Hin. apply H. right. exact Hin.
        -- split; [discriminate|]. intros H.
           destruct (H t (or_introl eq_refl)) as [_ Hc].
           apply List.forallb_forall in Hc. congruence.
  - unfold validate_thumbprints. destruct (thumbprints_pass items); auto.
  - intros l1 l2 ->. rewrite !Hval, thumbprints_pass_app. apply andb_true_iff.
Qed.

(** ** Summaries *)

Lemma prefix_append (a b : string) : String.prefix a (a +:+ b) = true.
Proof.
  induction a as [|x a IH]; [destruct b; reflexivity|].
  change (String.prefix (String x a) (String x (a +:+ b)) = true).
  cbn [String.prefix]. destruct (ascii_dec x x); [exact IH | congruence].
Qed.

(** X19.  The summary of an error whose status code is the one of its
    class, as every constructor sets it, begins with [C2C], the name of the
    class and the status code, also for the two classes that write their
    summary themselves, and ends with the message after a dash.  A rate
    limit error names its [Retry-After] only when that is an integer other
    than 0: for 0, as for none, the summary is the plain one. *)
Theorem summary_shape :
  forall (e : CredLinkError.t),
    CredLinkError.status_code e =
      match CredLinkError.cls e with
      | AuthError => 401
      | RateLimitError => 429
      | ConflictError => 409
      | ValidationError => 422
      | ServerError => 500
      | NetworkError => 0
      end ->
    String.prefix
      ("C2C " +:+ class_name (CredLinkError.cls e) +:+ ": "
       +:+ Transport.str_of_Z (CredLinkError.status_code e))
      (get_summary e) = true /\
    (exists info, get_summary e
       = ("C2C " +:+ class_name (CredLinkError.cls e) +:+ ": "
          +:+ Transport.str_of_Z (CredLinkError.status_code e))
         +:+ info +:+ " - " +:+ CredLinkError.message e) /\
    (CredLinkError.cls e = RateLimitError ->
     CredLinkError.retry_after e = Some 0 \/ CredLinkError.retry_after e = None ->
     get_summary e = "C2C RateLimitError: 429 - " +:+ CredLinkError.message e).
Proof.
  intros e Hsc.
  assert (Hinfo : exists info, get_summary e
       = ("C2C " +:+ class_name (CredLinkError.cls e) +:+ ": "
          +:+ Transport.str_of_Z (CredLinkError.status_code e))
         +:+ info +:+ " - " +:+ CredLinkError.message e).
  { unfold get_summary. rewrite Hsc.
    destruct (CredLinkError.cls e); cbn [class_name].
    - exists "". reflexivity.
    - eexists. change (Transport.str_of_Z 429) with "429".
      change ("C2C " +:+ "RateLimitError" +:+ ": " +:+ "429")
        with "C2C RateLimitError: 429".
      reflexivity.
    - eexists. change (Transport.str_of_Z 409) with "409".
      change ("C2C " +:+ "ConflictError" +:+ ": " +:+ "409")
        with "C2C ConflictError: 409".
      reflexivity.
    - exists "". reflexivity.
    - exists "". reflexivity.
    - exists "". reflexivity. }
  split; [|split; [exact Hinfo|]].
  - destruct Hinfo as (info & ->). apply prefix_append.
  - intros Hc Hra. unfold get_summary. rewrite Hc.
    destruct Hra as [-> | ->]; reflexivity.
Qed.

(** The rate limit error of the tests: status 429 and 60 seconds. *)
Lemma summary_shape_witness :
  String.prefix "C2C RateLimitError: 429"
    (get_summary MoreExamples.rate_limited_60) = true.
Proof.
  apply (summary_shape MoreExamples.rate_limited_60). reflexivity.
Defined.

(** ** Next steps *)

(** X23.  A rate limit error offers its three general steps first and the
    request for a higher limit last; in between stands the step to wait,
    with the number of seconds, exactly when [retry_after] is an integer
    other than 0.  An instance of any of the six subclasses offers at least
    four next steps, where the method of the base class, which all six
    override, offers two. *)
Theorem next_steps_of_rate_limit :
  forall (e : CredLinkError.t),
    CredLinkError.cls e = RateLimitError ->
    length (get_next_steps e)
      = (if truthy_int (CredLinkError.retry_after e) then 5 else 4)%nat /\
    firstn 3 (get_next_steps e)
      = ["Implement exponential backoff with jitter";
         "Honor the Retry-After header if provided";
         "Consider reducing request frequency"] /\
    last (get_next_steps e) = Some "Contact support for rate limit increases" /\
    (forall n, CredLinkError.retry_after e = Some n -> n <> 0 ->
       get_next_steps e !! 3%nat
       = Some ("Wait " +:+ Transport.str_of_Z n +:+ " seconds before retrying")) /\
    (CredLinkError.retry_after e = Some 0 \/ CredLinkError.retry_after e = None ->
       get_next_steps e !! 3%nat
       = Some "Contact support for rate limit increases") /\
    (forall e' : CredLinkError.t,
       (length CredLinkError_get_next_steps + 2 <= length (get_next_steps e'))%nat) /\
    length CredLinkError_get_next_steps = 2%nat.
Proof.
  intros e Hc. unfold get_next_steps. rewrite Hc.
  split; [|split; [|split; [|split; [|split; [|split]]]]].
  - destruct (truthy_int _); reflexivity.
  - destruct (truthy_int _); reflexivity.
  - destruct (truthy_int _); reflexivity.
  - intros n -> Hn. cbn [truthy_int default].
    replace (n =? 0) with false by (symmetry; apply Z.eqb_neq; exact Hn).
    reflexivity.
  - intros [-> | ->]; reflexivity.
  - intros e'. destruct (CredLinkError.cls e'); cbn; try lia.
    destruct (truthy_int _); cbn; lia.
  - reflexivity.
Qed.

(** The rate limit error of the tests waits 60 seconds. *)
Lemma next_steps_of_rate_limit_witness :
  get_next_steps MoreExamples.rate_limited_60 !! 3%nat
  = Some "Wait 60 seconds before retrying".
Proof.
  destruct (next_steps_of_rate_limit MoreExamples.rate_limited_60 eq_refl)
    as (_ & _ & _ & H & _).
  apply (H 60); [reflexivity | discriminate].
Defined.

End ValidatorFacts.
